(** * Pawn-structure evaluation of SugaR (pawns.cpp)

    A shallow embedding of [src/source/pawns.cpp]: the connected-pawn table
    builder [Pawns::init], the per-colour classifier [evaluate<Us>], the
    pawn hash table lookup [Pawns::probe] and the king shelter evaluator
    [Entry::evaluate_shelter], followed by the properties established about
    them.

    Bitboards are 64-bit unsigned integers, modelled as [Z] in the range
    [0, 2^64) with the bit operations of [Z]; squares, files and ranks are
    the integer codes of the engine (A1 = 0 ... H8 = 63). *)

From Stdlib Require Import ZArith List Bool Lia Permutation FinFun.
Import ListNotations.
Local Open Scope Z_scope.

(* ================================================================== *)
(** ** Basic types (types.h) *)
(* ================================================================== *)

(** Modelled from the spec: the engine's [Color] enumeration (types.h is
    not part of the sources); [WHITE] has code 0 and [BLACK] code 1. *)
Inductive Color : Type := WHITE | BLACK.

(** Modelled from the spec: [operator~(Color)], the other colour. *)
Definition opp (c : Color) : Color :=
  match c with WHITE => BLACK | BLACK => WHITE end.

(** Modelled from the spec: the integer code of a colour in types.h. *)
Definition color_code (c : Color) : Z :=
  match c with WHITE => 0 | BLACK => 1 end.

Definition color_eqb (a b : Color) : bool :=
  match a, b with
  | WHITE, WHITE | BLACK, BLACK => true
  | _, _ => false
  end.

(** Modelled from the spec: the [PieceType] and [Piece] enumerations. *)
Inductive PieceType : Type := PAWN | KNIGHT | BISHOP | ROOK | QUEEN | KING.

(** Modelled from the spec: a piece is empty or a piece type of one
    colour ([Piece] of types.h). *)
Inductive Piece : Type :=
| NO_PIECE
| Pc (c : Color) (pt : PieceType).

(** Modelled from the spec: [make_piece] of types.h. *)
Definition make_piece (c : Color) (pt : PieceType) : Piece := Pc c pt.

Definition ptype_eqb (a b : PieceType) : bool :=
  match a, b with
  | PAWN, PAWN | KNIGHT, KNIGHT | BISHOP, BISHOP
  | ROOK, ROOK | QUEEN, QUEEN | KING, KING => true
  | _, _ => false
  end.

Definition piece_eqb (a b : Piece) : bool :=
  match a, b with
  | NO_PIECE, NO_PIECE => true
  | Pc c pt, Pc c' pt' => color_eqb c c' && ptype_eqb pt pt'
  | _, _ => false
  end.

(** Modelled from the spec: the integer types of types.h; squares are
    numbered A1 = 0, B1 = 1, ..., H8 = 63, files A..H and ranks 1..8 are
    numbered 0..7. *)
Definition Square := Z.
Definition File := Z.
Definition Rank := Z.
Definition Bitboard := Z.
Definition Value := Z.
Definition Key := Z.

Definition SQ_A1 : Square := 0.
Definition SQ_C1 : Square := 2.
Definition SQ_G1 : Square := 6.
Definition SQ_H8 : Square := 63.
Definition SQ_NONE : Square := 64.
Definition SQUARE_NB : Z := 64.

Definition FILE_A : File := 0.
Definition FILE_B : File := 1.
Definition FILE_G : File := 6.
Definition FILE_H : File := 7.
Definition FILE_NB : Z := 8.

Definition RANK_1 : Rank := 0.
Definition RANK_2 : Rank := 1.
Definition RANK_3 : Rank := 2.
Definition RANK_4 : Rank := 3.
Definition RANK_5 : Rank := 4.
Definition RANK_6 : Rank := 5.
Definition RANK_7 : Rank := 6.
Definition RANK_8 : Rank := 7.
Definition RANK_NB : Z := 8.

Definition NORTH : Z := 8.
Definition SOUTH : Z := -8.

(** Modelled from the spec: [is_ok(Square)] of types.h, the square lies
    on the board. *)
Definition is_ok (s : Square) : bool := (SQ_A1 <=? s) && (s <=? SQ_H8).

(** Modelled from the spec: [file_of], [rank_of] and [make_square] of
    types.h. *)
Definition file_of (s : Square) : File := Z.land s 7.
Definition rank_of (s : Square) : Rank := Z.shiftr s 3.
Definition make_square (f : File) (r : Rank) : Square := Z.shiftl r 3 + f.

(** Modelled from the spec: [relative_rank(Color, Rank)] and
    [relative_rank(Color, Square)] of types.h, the rank counted from the
    side of colour [c]. *)
Definition relative_rank_r (c : Color) (r : Rank) : Rank :=
  Z.lxor r (color_code c * 7).
Definition relative_rank (c : Color) (s : Square) : Rank :=
  relative_rank_r c (rank_of s).

(** The 64 squares in increasing order, A1 first. *)
Definition squares : list Square := map Z.of_nat (seq 0 64).
Definition files : list File := map Z.of_nat (seq 0 8).

(** Modelled from the spec: a score is a (midgame, endgame) pair added and
    subtracted component-wise ([Score], [make_score] of types.h). *)
Record Score : Type := make_score { mg_value : Z; eg_value : Z }.

Definition SCORE_ZERO : Score := make_score 0 0.
Definition score_add (a b : Score) : Score :=
  make_score (mg_value a + mg_value b) (eg_value a + eg_value b).
Definition score_sub (a b : Score) : Score :=
  make_score (mg_value a - mg_value b) (eg_value a - eg_value b).

Declare Scope score_scope.
Delimit Scope score_scope with score.
Infix "+" := score_add : score_scope.
Infix "-" := score_sub : score_scope.

(** A C++ array indexed by [Color], as the fields of the hash table
    entry are. *)
Record ByColor (T : Type) : Type := by_color { of_white : T; of_black : T }.
Arguments by_color {T} _ _.
Arguments of_white {T} _.
Arguments of_black {T} _.

Definition at_color {T} (a : ByColor T) (c : Color) : T :=
  match c with WHITE => of_white a | BLACK => of_black a end.

Definition set_color {T} (a : ByColor T) (c : Color) (x : T) : ByColor T :=
  match c with
  | WHITE => by_color x (of_black a)
  | BLACK => by_color (of_white a) x
  end.

(* ================================================================== *)
(** ** Bitboards (bitboard.h) *)
(* ================================================================== *)

(** Modelled from the spec: the constant bitboards of bitboard.h. *)
Definition AllSquares : Bitboard := 2 ^ 64 - 1.
Definition DarkSquares : Bitboard := 0xAA55AA55AA55AA55.
Definition FileABB : Bitboard := 0x0101010101010101.
Definition FileHBB : Bitboard := Z.shiftl FileABB 7.
Definition Rank1BB : Bitboard := 0xFF.

(** A value of the 64-bit type. *)
Definition bb_ok (b : Z) : Prop := 0 <= b < 2 ^ 64.
Definition bb_okb (b : Z) : bool := (0 <=? b) && (b <? 2 ^ 64).

(** Wrap-around of the unsigned 64-bit type. *)
Definition u64 (z : Z) : Bitboard := z mod 2 ^ 64.

(** [~b] on a 64-bit value. *)
Definition bb_not (b : Bitboard) : Bitboard := Z.lxor b AllSquares.

(** Modelled from the spec: the mask tables of bitboard.h.  At an index
    off a table the model reads an empty set; [evaluate_shelter] makes
    such a read at line 384 for a king on its last rank (see
    [edge_blocker]). *)
Definition SquareBB (s : Square) : Bitboard :=
  if is_ok s then Z.shiftl 1 s else 0.

Definition FileBB (f : File) : Bitboard :=
  if (0 <=? f) && (f <? 8) then Z.shiftl FileABB f else 0.

Definition RankBB (r : Rank) : Bitboard :=
  if (0 <=? r) && (r <? 8) then Z.shiftl Rank1BB (8 * r) else 0.

Definition rank_bb (s : Square) : Bitboard := RankBB (rank_of s).
Definition file_bb (s : Square) : Bitboard := FileBB (file_of s).

Definition adjacent_files_bb (f : File) : Bitboard :=
  Z.lor (if FILE_A <? f then FileBB (f - 1) else 0)
        (if f <? FILE_H then FileBB (f + 1) else 0).

(** Modelled from the spec: [ForwardRanksBB[BLACK][r]], the ranks below
    [r], and [ForwardRanksBB[WHITE][r]], the ranks above it
    (bitboard.h). *)
Fixpoint ranks_below (r : nat) : Bitboard :=
  match r with
  | O => 0
  | S k => Z.lor (ranks_below k) (RankBB (Z.of_nat k))
  end.

Definition ForwardRanksBB (c : Color) (r : Rank) : Bitboard :=
  if (0 <=? r) && (r <? 8) then
    match c with
    | BLACK => ranks_below (Z.to_nat r)
    | WHITE => if r <? 7 then bb_not (ranks_below (Z.to_nat (r + 1))) else 0
    end
  else 0.

(** Modelled from the spec: the forward-ranks, forward-file, attack-span
    and passed-pawn corridor masks of bitboard.h. *)
Definition forward_ranks_bb (c : Color) (s : Square) : Bitboard :=
  ForwardRanksBB c (rank_of s).

Definition forward_file_bb (c : Color) (s : Square) : Bitboard :=
  if is_ok s then Z.land (ForwardRanksBB c (rank_of s)) (FileBB (file_of s))
  else 0.

Definition pawn_attack_span (c : Color) (s : Square) : Bitboard :=
  if is_ok s
  then Z.land (ForwardRanksBB c (rank_of s)) (adjacent_files_bb (file_of s))
  else 0.

Definition passed_pawn_mask (c : Color) (s : Square) : Bitboard :=
  Z.lor (forward_file_bb c s) (pawn_attack_span c s).

(** Modelled from the spec: [shift<D>(b)] of bitboard.h for the two
    pushes and the four pawn captures; a set moved off the board is
    lost. *)
Inductive Direction : Type :=
| D_NORTH | D_SOUTH | D_NORTH_EAST | D_SOUTH_EAST | D_NORTH_WEST | D_SOUTH_WEST.

Definition shift (d : Direction) (b : Bitboard) : Bitboard :=
  match d with
  | D_NORTH => u64 (Z.shiftl b 8)
  | D_SOUTH => Z.shiftr b 8
  | D_NORTH_EAST => u64 (Z.shiftl (Z.land b (bb_not FileHBB)) 9)
  | D_SOUTH_EAST => Z.shiftr (Z.land b (bb_not FileHBB)) 7
  | D_NORTH_WEST => u64 (Z.shiftl (Z.land b (bb_not FileABB)) 7)
  | D_SOUTH_WEST => Z.shiftr (Z.land b (bb_not FileABB)) 9
  end.

(** Modelled from the spec: [pawn_attacks_bb<C>(b)] of bitboard.h, the
    squares attacked by pawns of colour [c] standing on [b]. *)
Definition pawn_attacks_bb (c : Color) (b : Bitboard) : Bitboard :=
  match c with
  | WHITE => Z.lor (shift D_NORTH_WEST b) (shift D_NORTH_EAST b)
  | BLACK => Z.lor (shift D_SOUTH_WEST b) (shift D_SOUTH_EAST b)
  end.

(** Modelled from the spec: [PawnAttacks[c][s]] of bitboard.h, the
    squares attacked by a pawn of colour [c] standing on [s]. *)
Definition PawnAttacks (c : Color) (s : Square) : Bitboard :=
  pawn_attacks_bb c (SquareBB s).

(** Modelled from the spec: [popcount] of bitboard.h, the number of
    squares in a set. *)
Definition popcount (b : Bitboard) : Z :=
  fold_right (fun s n => Z.b2z (Z.testbit b s) + n) 0 squares.

(** Modelled from the spec: [more_than_one] of bitboard.h. *)
Definition more_than_one (b : Bitboard) : bool :=
  negb (Z.land b (b - 1) =? 0).

(** Modelled from the spec: [lsb] of bitboard.h, the first square of a
    set; the set is not empty when the engine calls it. *)
Fixpoint pos_ctz (p : positive) : Z :=
  match p with
  | xO q => 1 + pos_ctz q
  | _ => 0
  end.

Definition lsb (b : Bitboard) : Square :=
  match b with
  | Zpos p => pos_ctz p
  | _ => 0
  end.

(** Modelled from the spec: [msb] of bitboard.h, the last square of a
    set. *)
Definition msb (b : Bitboard) : Square := Z.log2 b.

(** Modelled from the spec: [backmost_sq] and [frontmost_sq] of
    bitboard.h. *)
Definition backmost_sq (c : Color) (b : Bitboard) : Square :=
  match c with WHITE => lsb b | BLACK => msb b end.
Definition frontmost_sq (c : Color) (b : Bitboard) : Square :=
  match c with WHITE => msb b | BLACK => lsb b end.

(** Conversion of a bitboard to [bool], as in a C++ condition. *)
Definition bb_true (b : Bitboard) : bool := negb (b =? 0).

(* ================================================================== *)
(** ** Positions (position.h) *)
(* ================================================================== *)

(** Modelled from the spec: the part of [Position] the pawn evaluation
    consumes (position.h is not part of the sources): the board array, the
    occupancy bitboards by piece type and by colour, the piece counts and
    piece lists, the castling rights and the pawn hash key.  A piece list
    is the sequence of squares that precedes the [SQ_NONE] terminator. *)
Record Position : Type := mk_position {
  board : Square -> Piece;
  byTypeBB : PieceType -> Bitboard;
  byColorBB : Color -> Bitboard;
  pieceCount : Color -> PieceType -> Z;
  pieceList : Color -> PieceType -> list Square;
  st_castlingRights : Z;
  st_pawnKey : Key
}.

(** Modelled from the spec: the accessors of [Position] that pawns.cpp
    calls. *)
Definition piece_on (pos : Position) (s : Square) : Piece := board pos s.
Definition pieces_p (pos : Position) (pt : PieceType) : Bitboard :=
  byTypeBB pos pt.
Definition pieces_c (pos : Position) (c : Color) : Bitboard :=
  byColorBB pos c.
Definition pieces (pos : Position) (c : Color) (pt : PieceType) : Bitboard :=
  Z.land (byColorBB pos c) (byTypeBB pos pt).
Definition squares_of (pos : Position) (c : Color) (pt : PieceType)
  : list Square := pieceList pos c pt.
Definition count (pos : Position) (c : Color) (pt : PieceType) : Z :=
  pieceCount pos c pt.
Definition pawn_key (pos : Position) : Key := st_pawnKey pos.

(** Modelled from the spec: the empty board and [Position::put_piece],
    used to set positions up. *)
Definition empty_position : Position :=
  mk_position (fun _ => NO_PIECE) (fun _ => 0) (fun _ => 0)
              (fun _ _ => 0) (fun _ _ => []) 0 0.

Definition put_piece (pos : Position) (pc : Piece) (s : Square) : Position :=
  match pc with
  | NO_PIECE => pos
  | Pc c pt =>
      mk_position
        (fun x => if x =? s then pc else board pos x)
        (fun t => if ptype_eqb t pt then Z.lor (byTypeBB pos t) (SquareBB s)
                  else byTypeBB pos t)
        (fun d => if color_eqb d c then Z.lor (byColorBB pos d) (SquareBB s)
                  else byColorBB pos d)
        (fun d t => if color_eqb d c && ptype_eqb t pt
                    then pieceCount pos d t + 1 else pieceCount pos d t)
        (fun d t => if color_eqb d c && ptype_eqb t pt
                    then pieceList pos d t ++ [s] else pieceList pos d t)
        (st_castlingRights pos)
        (st_pawnKey pos)
  end.

Definition set_pieces (l : list (Piece * Square)) : Position :=
  fold_left (fun pos ps => put_piece pos (fst ps) (snd ps)) l empty_position.

Definition with_pawn_key (pos : Position) (k : Key) : Position :=
  mk_position (board pos) (byTypeBB pos) (byColorBB pos) (pieceCount pos)
              (pieceList pos) (st_castlingRights pos) k.

Definition color_on (pos : Position) (c : Color) (s : Square) : bool :=
  match board pos s with
  | Pc d _ => color_eqb d c
  | NO_PIECE => false
  end.

Definition type_on (pos : Position) (pt : PieceType) (s : Square) : bool :=
  match board pos s with
  | Pc _ t => ptype_eqb t pt
  | NO_PIECE => false
  end.

Definition colors : list Color := [WHITE; BLACK].
Definition piece_types : list PieceType :=
  [PAWN; KNIGHT; BISHOP; ROOK; QUEEN; KING].

Fixpoint nodupb (l : list Z) : bool :=
  match l with
  | [] => true
  | x :: r => negb (existsb (Z.eqb x) r) && nodupb r
  end.

(** The squares among [l] that hold the king of colour [c]. *)
Definition king_squares (l : list Square) (pos : Position) (c : Color)
  : list Square :=
  filter (fun s => piece_eqb (piece_on pos s) (make_piece c KING)) l.

(** Modelled from the spec: the validity assumptions on the position
    ([Position::pos_is_ok]): the
    bitboards, the pawn piece lists and the pawn counts agree with the
    board array; each colour has exactly one king; no pawn stands on the
    first or the eighth rank. *)
Definition pos_is_ok (pos : Position) : bool :=
  forallb (fun c => bb_okb (byColorBB pos c)) colors
  && forallb (fun pt => bb_okb (byTypeBB pos pt)) piece_types
  && forallb (fun s =>
       forallb (fun c =>
         Bool.eqb (Z.testbit (byColorBB pos c) s) (color_on pos c s)) colors
       && forallb (fun pt =>
         Bool.eqb (Z.testbit (byTypeBB pos pt) s) (type_on pos pt s))
         piece_types) squares
  && forallb (fun c =>
       forallb (fun s => is_ok s
                  && piece_eqb (piece_on pos s) (make_piece c PAWN))
               (pieceList pos c PAWN)
       && forallb (fun s =>
            implb (piece_eqb (piece_on pos s) (make_piece c PAWN))
                  (existsb (Z.eqb s) (pieceList pos c PAWN))) squares
       && nodupb (pieceList pos c PAWN)
       && (pieceCount pos c PAWN
           =? Z.of_nat (length (pieceList pos c PAWN)))
       && (Z.of_nat (length (king_squares squares pos c)) =? 1)) colors
  && forallb (fun s =>
       implb (type_on pos PAWN s)
             ((RANK_1 <? rank_of s) && (rank_of s <? RANK_8))) squares.

(* ================================================================== *)
(** ** Pawn hash table entries (pawns.h) *)
(* ================================================================== *)

(** Modelled from the spec: the [Pawns::Entry] record (pawns.h is not part
    of the sources), with the fields that pawns.cpp reads and writes. *)
Record Entry : Type := mk_entry {
  key : Key;
  scores : ByColor Score;
  passedPawns : ByColor Bitboard;
  pawnAttacks : ByColor Bitboard;
  pawnAttacksSpan : ByColor Bitboard;
  kingSquares : ByColor Square;
  kingSafety : ByColor Score;
  weakUnopposed : ByColor Z;
  castlingRights : ByColor Z;
  semiopenFiles : ByColor Z;
  pawnsOnSquares : ByColor (ByColor Z);
  asymmetry : Z;
  openFiles : Z
}.

Definition set_key (e : Entry) (v : Key) : Entry :=
  mk_entry v (scores e) (passedPawns e) (pawnAttacks e) (pawnAttacksSpan e)
    (kingSquares e) (kingSafety e) (weakUnopposed e) (castlingRights e)
    (semiopenFiles e) (pawnsOnSquares e) (asymmetry e) (openFiles e).
Definition set_scores (e : Entry) (v : ByColor Score) : Entry :=
  mk_entry (key e) v (passedPawns e) (pawnAttacks e) (pawnAttacksSpan e)
    (kingSquares e) (kingSafety e) (weakUnopposed e) (castlingRights e)
    (semiopenFiles e) (pawnsOnSquares e) (asymmetry e) (openFiles e).
Definition set_passedPawns (e : Entry) (v : ByColor Bitboard) : Entry :=
  mk_entry (key e) (scores e) v (pawnAttacks e) (pawnAttacksSpan e)
    (kingSquares e) (kingSafety e) (weakUnopposed e) (castlingRights e)
    (semiopenFiles e) (pawnsOnSquares e) (asymmetry e) (openFiles e).
Definition set_pawnAttacks (e : Entry) (v : ByColor Bitboard) : Entry :=
  mk_entry (key e) (scores e) (passedPawns e) v (pawnAttacksSpan e)
    (kingSquares e) (kingSafety e) (weakUnopposed e) (castlingRights e)
    (semiopenFiles e) (pawnsOnSquares e) (asymmetry e) (openFiles e).
Definition set_pawnAttacksSpan (e : Entry) (v : ByColor Bitboard) : Entry :=
  mk_entry (key e) (scores e) (passedPawns e) (pawnAttacks e) v
    (kingSquares e) (kingSafety e) (weakUnopposed e) (castlingRights e)
    (semiopenFiles e) (pawnsOnSquares e) (asymmetry e) (openFiles e).
Definition set_kingSquares (e : Entry) (v : ByColor Square) : Entry :=
  mk_entry (key e) (scores e) (passedPawns e) (pawnAttacks e)
    (pawnAttacksSpan e) v (kingSafety e) (weakUnopposed e) (castlingRights e)
    (semiopenFiles e) (pawnsOnSquares e) (asymmetry e) (openFiles e).
Definition set_weakUnopposed (e : Entry) (v : ByColor Z) : Entry :=
  mk_entry (key e) (scores e) (passedPawns e) (pawnAttacks e)
    (pawnAttacksSpan e) (kingSquares e) (kingSafety e) v (castlingRights e)
    (semiopenFiles e) (pawnsOnSquares e) (asymmetry e) (openFiles e).
Definition set_semiopenFiles (e : Entry) (v : ByColor Z) : Entry :=
  mk_entry (key e) (scores e) (passedPawns e) (pawnAttacks e)
    (pawnAttacksSpan e) (kingSquares e) (kingSafety e) (weakUnopposed e)
    (castlingRights e) v (pawnsOnSquares e) (asymmetry e) (openFiles e).
Definition set_pawnsOnSquares (e : Entry) (v : ByColor (ByColor Z)) : Entry :=
  mk_entry (key e) (scores e) (passedPawns e) (pawnAttacks e)
    (pawnAttacksSpan e) (kingSquares e) (kingSafety e) (weakUnopposed e)
    (castlingRights e) (semiopenFiles e) v (asymmetry e) (openFiles e).
Definition set_asymmetry (e : Entry) (v : Z) : Entry :=
  mk_entry (key e) (scores e) (passedPawns e) (pawnAttacks e)
    (pawnAttacksSpan e) (kingSquares e) (kingSafety e) (weakUnopposed e)
    (castlingRights e) (semiopenFiles e) (pawnsOnSquares e) v (openFiles e).
Definition set_openFiles (e : Entry) (v : Z) : Entry :=
  mk_entry (key e) (scores e) (passedPawns e) (pawnAttacks e)
    (pawnAttacksSpan e) (kingSquares e) (kingSafety e) (weakUnopposed e)
    (castlingRights e) (semiopenFiles e) (pawnsOnSquares e) (asymmetry e) v.

Definition zero_entry : Entry :=
  mk_entry 0 (by_color SCORE_ZERO SCORE_ZERO) (by_color 0 0) (by_color 0 0)
    (by_color 0 0) (by_color 0 0) (by_color SCORE_ZERO SCORE_ZERO)
    (by_color 0 0) (by_color 0 0) (by_color 0 0)
    (by_color (by_color 0 0) (by_color 0 0)) 0 0.

(* ================================================================== *)
(** ** Outcomes: assertions and the bounds of the board array *)
(* ================================================================== *)

(** The [assert]s of pawns.cpp. *)
Inductive assertion : Type :=
| A_pawn_on_square   (* assert(pos.piece_on(s) == make_piece(Us, PAWN)) *)
| A_rank_behind      (* assert(false) in the rank-behind computation *)
| A_king_on_board.   (* assert(UsKingSquare != SQUARE_NB) *)

(** A run of the classifier ends with a value, stops at a failed assertion
    (in a build that checks them) or reads the board array past its last
    square (in a build that does not). *)
Inductive outcome (A : Type) : Type :=
| Ok (a : A)
| AssertFailed (w : assertion)
| OffBoard.
Arguments Ok {A} _.
Arguments AssertFailed {A} _.
Arguments OffBoard {A}.

Definition bind {A B} (m : outcome A) (k : A -> outcome B) : outcome B :=
  match m with
  | Ok a => k a
  | AssertFailed w => AssertFailed w
  | OffBoard => OffBoard
  end.

Notation "x <- m ;; k" := (bind m (fun x => k))
  (at level 61, m at next level, right associativity).
Notation "m ;;; k" := (bind m (fun _ => k))
  (at level 61, right associativity).

(** [assert(cond)]: checked when [debug] is set, compiled out otherwise. *)
Definition assert_ (debug : bool) (w : assertion) (cond : bool)
  : outcome unit :=
  if debug && negb cond then AssertFailed w else Ok tt.

(** A loop over a piece list, stopping at the first abnormal outcome. *)
Fixpoint for_each {A S} (body : S -> A -> outcome S) (l : list A) (st : S)
  : outcome S :=
  match l with
  | [] => Ok st
  | x :: r => st' <- body st x ;; for_each body r st'
  end.

(* ================================================================== *)
(** ** Constants of pawns.cpp *)
(* ================================================================== *)

Definition Isolated : Score := make_score 13 16.
Definition Backward : Score := make_score 17 11.
Definition PawnScoresIsolatedRank3 : Score := make_score (-5) 0.
Definition PawnScoresConnectedPassed : Score := make_score (-16) 16.
Definition KingSafetyCompensationPawnScoresConnectedPassed : Score :=
  make_score (-5) 0.
Definition ProtectedPassedPawn : Score := make_score 5 5.
Definition Doubled : Score := make_score 13 40.

(** [ShelterStrength[distance from edge][rank]]; the entries the
    initialiser leaves out are zero. *)
Definition ShelterStrength (d r : Z) : Value :=
  nth (Z.to_nat r)
      (nth (Z.to_nat d)
           [ [ 7; 76; 84; 38; 7; 30; -19 ];
             [ -3; 93; 52; -17; 12; -22; -35 ];
             [ -6; 83; 25; -24; 15; 22; -39 ];
             [ 11; 83; 19; 8; 18; -21; -30 ] ] []) 0.

Definition UnBlocked : Z := 0.
Definition BlockedByPawn : Z := 1.

(** [StormDanger[type][distance from edge][rank]]. *)
Definition StormDanger (t d r : Z) : Value :=
  nth (Z.to_nat r)
      (nth (Z.to_nat d)
           (nth (Z.to_nat t)
                [ [ [ 25; 79; 107; 51; 27 ];
                    [ 15; 45; 131; 8; 25 ];
                    [ 0; 42; 118; 56; 27 ];
                    [ 3; 54; 110; 55; 26 ] ];
                  [ [ 0; 0; 37; 5; -48 ];
                    [ 0; 0; 68; -12; 13 ];
                    [ 0; 0; 111; -25; -3 ];
                    [ 0; 0; 108; 14; 21 ] ] ] []) []) 0.

(** The type of the [Connected[2][2][3][RANK_NB]] table. *)
Definition ConnectedTable := Z -> Z -> Z -> Z -> Score.

(* ================================================================== *)
(** ** The per-colour classifier: [evaluate<Us>] *)
(* ================================================================== *)

Definition Them (Us : Color) : Color := opp Us.
Definition Up (Us : Color) : Z :=
  match Us with WHITE => NORTH | BLACK => SOUTH end.
Definition UpD (Us : Color) : Direction :=
  match Us with WHITE => D_NORTH | BLACK => D_SOUTH end.

Section Evaluate.

Variable Connected : ConnectedTable.
Variable debug : bool.
Variable Us : Color.
Variable pos : Position.

Definition ourPawns : Bitboard := pieces pos Us PAWN.
Definition theirPawns : Bitboard := pieces pos (Them Us) PAWN.

(** *** The flags of one pawn (lines 123-135) *)

Definition opposed (s : Square) : bool :=
  bb_true (Z.land theirPawns (forward_file_bb Us s)).
Definition stoppers (s : Square) : Bitboard :=
  Z.land theirPawns (passed_pawn_mask Us s).
Definition lever (s : Square) : Bitboard :=
  Z.land theirPawns (PawnAttacks Us s).
Definition leverPush (s : Square) : Bitboard :=
  Z.land theirPawns (PawnAttacks Us (s + Up Us)).
Definition doubled (s : Square) : Bitboard :=
  Z.land ourPawns (SquareBB (s - Up Us)).
Definition neighbours (s : Square) : Bitboard :=
  Z.land ourPawns (adjacent_files_bb (file_of s)).
Definition phalanx (s : Square) : Bitboard :=
  Z.land (neighbours s) (rank_bb s).
Definition supported (s : Square) : Bitboard :=
  Z.land (neighbours s) (rank_bb (s - Up Us)).

Definition backward (s : Square) : bool :=
  negb (bb_true (Z.land ourPawns (pawn_attack_span (Them Us) (s + Up Us))))
  && bb_true (Z.land (stoppers s)
                     (Z.lor (leverPush s) (SquareBB (s + Up Us)))).

(** *** The passed-pawn test (lines 141-154) *)

(** The first condition (lines 141-144). *)
Definition passed_cond (s : Square) : bool :=
  negb (bb_true (Z.lxor (Z.lxor (stoppers s) (lever s)) (leverPush s)))
  && negb (bb_true (Z.land ourPawns (forward_file_bb Us s)))
  && (popcount (lever s) - 1 <=? popcount (supported s))
  && (popcount (leverPush s) <=? popcount (phalanx s)).

(** The guard of the second branch (lines 147-148). *)
Definition blocked_cond (s : Square) : bool :=
  (stoppers s =? SquareBB (s + Up Us))
  && (RANK_5 <=? relative_rank Us s).

(** The loop of lines 151-153: [b] loses its least significant square at
    each turn; a bitboard holds at most 64 squares. *)
Fixpoint sacrifice_loop (turns : nat) (s : Square) (b : Bitboard)
         (passed : Bitboard) : Bitboard :=
  match turns with
  | O => passed
  | S k =>
      if b =? 0 then passed
      else
        let sq := lsb b in
        let b' := Z.land b (b - 1) in
        sacrifice_loop k s b'
          (if negb (more_than_one (Z.land theirPawns (PawnAttacks Us sq)))
           then Z.lor passed (SquareBB s) else passed)
  end.

Definition flag_passed (s : Square) (passed : Bitboard) : Bitboard :=
  if passed_cond s then Z.lor passed (SquareBB s)
  else if blocked_cond s then
    let b := Z.land (shift (UpD Us) (supported s)) (bb_not theirPawns) in
    sacrifice_loop 64 s b passed
  else passed.

(** *** The structural score of one pawn (lines 157-176) *)

Definition structure_score (s : Square) (acc : Score * Z) : Score * Z :=
  let '(score, weak) := acc in
  let '(score, weak) :=
    if bb_true (Z.lor (supported s) (phalanx s)) then
      ((score + Connected (Z.b2z (opposed s))
                          (Z.b2z (bb_true (phalanx s)))
                          (popcount (supported s))
                          (relative_rank Us s))%score, weak)
    else if negb (bb_true (neighbours s)) then
      let score := (score - Isolated)%score in
      let weak := weak + Z.b2z (negb (opposed s)) in
      if relative_rank Us s =? RANK_3
      then ((score + PawnScoresIsolatedRank3)%score, weak)
      else (score, weak)
    else if backward s then
      ((score - Backward)%score, weak + Z.b2z (negb (opposed s)))
    else (score, weak) in
  if bb_true (doubled s) && negb (bb_true (supported s))
  then ((score - Doubled)%score, weak)
  else (score, weak).

(** *** The protected-passed-pawn term (lines 179-236) *)

Definition passed1 (s : Square) : bool :=
  bb_true (Z.land (passed_pawn_mask Us s) ourPawns).

Definition file_left (f : File) : File :=
  if FILE_A <? f then f - 1 else f.
Definition file_right (f : File) : File :=
  if f <? FILE_H then f + 1 else f.

(** The rank [rpp] one step behind the pawn (lines 199-218). *)
Definition rank_behind (rp1 : Rank) : outcome Rank :=
  match Us with
  | WHITE => Ok (if RANK_2 <? rp1 then rp1 - 1 else rp1)
  | BLACK =>
      if rp1 <? RANK_7 then Ok (rp1 + 1)
      else assert_ debug A_rank_behind false ;;; Ok rp1
  end.

Definition is_our_pawn (s : Square) : bool :=
  piece_eqb (make_piece Us PAWN) (piece_on pos s).

Definition protected_passed_pawn (s : Square) (rpp : Rank) : bool :=
  let f := file_of s in
  let fp0 := file_left f in
  let fp2 := file_right f in
  let p := false in
  let p := if negb (fp0 =? f) then is_our_pawn (make_square fp0 rpp)
           else p in
  let p := if negb (fp2 =? f) then p || is_our_pawn (make_square fp2 rpp)
           else p in
  p.

Definition protected_score (s : Square) (score : Score) : outcome Score :=
  let rp1 := rank_of s in
  rpp <- rank_behind rp1 ;;
  if negb (rpp =? rp1) then
    if passed1 s && protected_passed_pawn s rpp
    then Ok (score + ProtectedPassedPawn)%score
    else Ok score
  else Ok score.

(** *** The body of the first loop (lines 113-238) *)

Definition score_pawn (st : Score * Entry) (s : Square)
  : outcome (Score * Entry) :=
  let '(score, e) := st in
  assert_ debug A_pawn_on_square
          (piece_eqb (piece_on pos s) (make_piece Us PAWN)) ;;;
  let f := file_of s in
  let e := set_semiopenFiles e
             (set_color (semiopenFiles e) Us
                (Z.land (at_color (semiopenFiles e) Us)
                        (Z.lnot (Z.shiftl 1 f)))) in
  let e := set_pawnAttacksSpan e
             (set_color (pawnAttacksSpan e) Us
                (Z.lor (at_color (pawnAttacksSpan e) Us)
                       (pawn_attack_span Us s))) in
  let e := set_passedPawns e
             (set_color (passedPawns e) Us
                (flag_passed s (at_color (passedPawns e) Us))) in
  let '(score, weak) :=
    structure_score s (score, at_color (weakUnopposed e) Us) in
  let e := set_weakUnopposed e (set_color (weakUnopposed e) Us weak) in
  score <- protected_score s score ;;
  Ok (score, e).

(** *** The body of the second loop (lines 244-313) *)

(** The scan of file [f0] over ranks 2 to 7 (lines 271-284). *)
Fixpoint scan_partner (passed : Bitboard) (f0 : File) (ranks : list Rank)
         (passed0 : bool) : bool :=
  match ranks with
  | [] => passed0
  | r0 :: rest =>
      let s0 := make_square f0 r0 in
      if piece_eqb (piece_on pos s0) (make_piece Us PAWN) then
        let passed0 := bb_true (Z.land passed (SquareBB s0)) in
        if passed0 then passed0
        else scan_partner passed f0 rest passed0
      else scan_partner passed f0 rest passed0
  end.

Definition ranks_2_to_7 : list Rank :=
  [RANK_2; RANK_3; RANK_4; RANK_5; RANK_6; RANK_7].

(** The walk that locates the own king (lines 290-299).  [room] is the
    number of squares of the board array from [sq] on; once it is used
    up the next read lies past the array. *)
Fixpoint king_walk (room : nat) (sq : Square) : outcome Square :=
  match room with
  | O => OffBoard
  | S k =>
      if negb (piece_eqb (piece_on pos sq) (make_piece Us KING)) then
        let sq := sq + 1 in
        assert_ debug A_king_on_board (negb (sq =? SQUARE_NB)) ;;;
        king_walk k sq
      else Ok sq
  end.

Definition find_UsKingSquare : outcome Square := king_walk 64 SQ_A1.

Definition connected_passed_defend_king (UsKingFile f0 f2 : File) : bool :=
  (f0 <=? UsKingFile) && (UsKingFile <=? f2).

Definition score_connected_passed (e : Entry) (score : Score) (s : Square)
  : outcome Score :=
  assert_ debug A_pawn_on_square
          (piece_eqb (piece_on pos s) (make_piece Us PAWN)) ;;;
  let f := file_of s in
  let f0 := file_left f in
  let f2 := file_right f in
  if negb (f0 =? f) then
    if passed1 s then
      let passed0 :=
        scan_partner (at_color (passedPawns e) Us) f0 ranks_2_to_7 false in
      if passed0 && passed1 s then
        let score := (score + PawnScoresConnectedPassed)%score in
        UsKingSquare <- find_UsKingSquare ;;
        let UsKingFile := file_of UsKingSquare in
        if connected_passed_defend_king UsKingFile f0 f2
        then Ok (score
                 + KingSafetyCompensationPawnScoresConnectedPassed)%score
        else Ok score
      else Ok score
    else Ok score
  else Ok score.

(** *** The classifier *)

(** Lines 105-110. *)
Definition init_entry (e : Entry) : Entry :=
  let e := set_weakUnopposed e (set_color (weakUnopposed e) Us 0) in
  let e := set_pawnAttacksSpan e (set_color (pawnAttacksSpan e) Us 0) in
  let e := set_passedPawns e (set_color (passedPawns e) Us 0) in
  let e := set_semiopenFiles e (set_color (semiopenFiles e) Us 0xFF) in
  let e := set_kingSquares e (set_color (kingSquares e) Us SQ_NONE) in
  let e := set_pawnAttacks e
             (set_color (pawnAttacks e) Us (pawn_attacks_bb Us ourPawns)) in
  let dark := popcount (Z.land ourPawns DarkSquares) in
  let e := set_pawnsOnSquares e
             (set_color (pawnsOnSquares e) Us
                (set_color (at_color (pawnsOnSquares e) Us) BLACK dark)) in
  let e := set_pawnsOnSquares e
             (set_color (pawnsOnSquares e) Us
                (set_color (at_color (pawnsOnSquares e) Us) WHITE
                   (count pos Us PAWN
                    - at_color (at_color (pawnsOnSquares e) Us) BLACK))) in
  e.

Definition evaluate (e : Entry) : outcome (Score * Entry) :=
  let score := SCORE_ZERO in
  let pl := squares_of pos Us PAWN in
  let e := init_entry e in
  st <- for_each score_pawn pl (score, e) ;;
  let '(score, e) := st in
  let pl_1 := squares_of pos Us PAWN in
  score <- for_each (score_connected_passed e) pl_1 score ;;
  Ok (score, e).

End Evaluate.

(* ================================================================== *)
(** ** [Pawns::init]: the connected-pawn table *)
(* ================================================================== *)

Definition Seed (r : Z) : Z :=
  nth (Z.to_nat r) [0; 13; 24; 18; 65; 100; 175; 330] 0.

(** The table before [init] runs: a zero-initialised global. *)
Definition Connected_zero : ConnectedTable := fun _ _ _ _ => SCORE_ZERO.

(** [Connected[opposed][phalanx][support][r] = v]. *)
Definition table_set (t : ConnectedTable) (opposed phalanx support r : Z)
           (v : Score) : ConnectedTable :=
  fun o p s k =>
    if (o =? opposed) && (p =? phalanx) && (s =? support) && (k =? r)
    then v else t o p s k.

Definition init_cell (t : ConnectedTable) (opposed phalanx support r : Z)
  : ConnectedTable :=
  let v := 17 * support in
  let v := v + Z.shiftr (Seed r + (if negb (phalanx =? 0)
                                   then Z.quot (Seed (r + 1) - Seed r) 2
                                   else 0)) opposed in
  table_set t opposed phalanx support r
            (make_score v (Z.quot (v * (r - 2)) 4)).

Definition init (t : ConnectedTable) : ConnectedTable :=
  fold_left (fun t opposed =>
    fold_left (fun t phalanx =>
      fold_left (fun t support =>
        fold_left (fun t r => init_cell t opposed phalanx support r)
                  [RANK_2; RANK_3; RANK_4; RANK_5; RANK_6; RANK_7] t)
                [0; 1; 2] t)
              [0; 1] t)
            [0; 1] t.

(** The table every evaluation reads: [init] has run once. *)
Definition Connected : ConnectedTable := init Connected_zero.

(* ================================================================== *)
(** ** [Pawns::probe]: the pawn hash table *)
(* ================================================================== *)

(** Modelled from the spec: the direct-mapped table [Pawns::Table] of a
    search thread (pawns.h and misc.h are not part of the sources); the
    slot of a key is given by its low bits. *)
Definition TableSize : Z := 16384.

Definition slot_of (k : Key) : Z := Z.land (u64 k mod 2 ^ 32) (TableSize - 1).

(** The state of the search thread that owns the table.
    [classifier_runs] is a ghost counter of the calls to [evaluate]. *)
Record Thread : Type := mk_thread {
  pawnsTable : Z -> Entry;
  classifier_runs : nat
}.

Definition table_store (t : Z -> Entry) (i : Z) (e : Entry) : Z -> Entry :=
  fun j => if j =? i then e else t j.

Definition probe (tbl : ConnectedTable) (debug : bool) (pos : Position)
           (th : Thread) : outcome (Entry * Thread) :=
  let key_ := pawn_key pos in
  let i := slot_of key_ in
  let e := pawnsTable th i in
  if key e =? key_ then Ok (e, th)
  else
    let e := set_key e key_ in
    r <- evaluate tbl debug WHITE pos e ;;
    let e := set_scores (snd r) (set_color (scores (snd r)) WHITE (fst r)) in
    r <- evaluate tbl debug BLACK pos e ;;
    let e := set_scores (snd r) (set_color (scores (snd r)) BLACK (fst r)) in
    let e := set_openFiles e
               (popcount (Z.land (at_color (semiopenFiles e) WHITE)
                                 (at_color (semiopenFiles e) BLACK))) in
    let e := set_asymmetry e
               (popcount
                  (Z.lor (Z.lor (at_color (passedPawns e) WHITE)
                                (at_color (passedPawns e) BLACK))
                         (Z.lxor (at_color (semiopenFiles e) WHITE)
                                 (at_color (semiopenFiles e) BLACK)))) in
    Ok (e, mk_thread (table_store (pawnsTable th) i e)
                     (2 + classifier_runs th)).

(* ================================================================== *)
(** ** [Entry::evaluate_shelter] *)
(* ================================================================== *)

Definition BlockRanks (Us : Color) : Bitboard :=
  match Us with
  | WHITE => Z.lor (RankBB RANK_2) (RankBB RANK_3)
  | BLACK => Z.lor (RankBB RANK_7) (RankBB RANK_6)
  end.

Section Shelter.

Variable Us : Color.
Variable pos : Position.
Variable ksq : Square.

Definition shelter_pawns : Bitboard :=
  Z.land (pieces_p pos PAWN) (Z.lor (forward_ranks_bb Us ksq) (rank_bb ksq)).
Definition shelter_ourPawns : Bitboard :=
  Z.land shelter_pawns (pieces_c pos Us).
Definition shelter_theirPawns : Bitboard :=
  Z.land shelter_pawns (pieces_c pos (Them Us)).

(** Line 382. *)
Definition shelter_base : Value :=
  if bb_true (Z.land shelter_ourPawns (file_bb ksq)) then 5 else -5.

(** The condition of line 384.  For a king on its last rank the index
    [ksq + Up] is off the table [SquareBB].  The other factors then have
    no square in common (the pawns kept are those of the king's rank, and
    [BlockRanks] are two other ranks), so that the condition is false
    whatever the read returns, as it is with the empty set of the
    model. *)
Definition edge_blocker : bool :=
  bb_true (Z.land (Z.land (Z.land shelter_theirPawns
                                  (Z.lor FileABB FileHBB))
                          (BlockRanks Us))
                  (SquareBB (ksq + Up Us))).

(** The body of the loop over the three files (lines 390-400).  The
    operator [~f] on files comes from types.h, which is not part of the
    sources; it is taken to mirror the file, [f ^ FILE_H], so that
    [min(f, ~f)] is the distance from the nearer edge. *)
Definition shelter_file (safety : Value) (f : File) : Value :=
  let b := Z.land shelter_ourPawns (FileBB f) in
  let ourRank := if bb_true b then relative_rank Us (backmost_sq Us b)
                 else 0 in
  let b := Z.land shelter_theirPawns (FileBB f) in
  let theirRank :=
    if bb_true b then relative_rank Us (frontmost_sq (Them Us) b) else 0 in
  let d := Z.min f (Z.lxor f FILE_H) in
  let safety := safety + ShelterStrength d ourRank in
  if negb (ourRank =? 0) || negb (theirRank =? 0) then
    safety
    - StormDanger (if negb (ourRank =? 0) && (ourRank =? theirRank - 1)
                   then BlockedByPawn else UnBlocked) d theirRank
  else safety.

Definition shelter_center : File :=
  Z.max FILE_B (Z.min FILE_G (file_of ksq)).

Definition evaluate_shelter : Value :=
  let safety := shelter_base in
  let safety := if edge_blocker then safety + 374 else safety in
  let center := shelter_center in
  fold_left shelter_file [center - 1; center; center + 1] safety.

End Shelter.

(* ================================================================== *)
(** ** Squares and positions used in the examples *)
(* ================================================================== *)

Definition SQ_E1 : Square := 4.
Definition SQ_F1 : Square := 5.
Definition SQ_H1 : Square := 7.
Definition SQ_H2 : Square := 15.
Definition SQ_D3 : Square := 19.
Definition SQ_D4 : Square := 27.
Definition SQ_E4 : Square := 28.
Definition SQ_D5 : Square := 35.
Definition SQ_E5 : Square := 36.
Definition SQ_E6 : Square := 44.
Definition SQ_E7 : Square := 52.
Definition SQ_E8 : Square := 60.

(** Kings on e1 and e8, no pawns. *)
Definition bare_kings : Position :=
  set_pieces [ (Pc WHITE KING, SQ_E1); (Pc BLACK KING, SQ_E8) ].

(** The pawns and kings of the initial position of a game. *)
Definition start_position : Position :=
  set_pieces
    ([ (Pc WHITE KING, SQ_E1); (Pc BLACK KING, SQ_E8) ]
     ++ map (fun f => (Pc WHITE PAWN, make_square f RANK_2)) files
     ++ map (fun f => (Pc BLACK PAWN, make_square f RANK_7)) files).

(** White king h1; with and without a black pawn on h2. *)
Definition edge_pawn_position : Position :=
  set_pieces [ (Pc WHITE KING, SQ_H1); (Pc BLACK KING, SQ_E8);
               (Pc BLACK PAWN, SQ_H2) ].
Definition edge_free_position : Position :=
  set_pieces [ (Pc WHITE KING, SQ_H1); (Pc BLACK KING, SQ_E8) ].

(** White pawns e4 and d3, no black pawn. *)
Definition protected_position : Position :=
  set_pieces [ (Pc WHITE KING, SQ_E1); (Pc BLACK KING, SQ_E8);
               (Pc WHITE PAWN, SQ_E4); (Pc WHITE PAWN, SQ_D3) ].

(** White pawns e4 and d5, white king f1, no black pawn. *)
Definition duo_position : Position :=
  set_pieces [ (Pc WHITE KING, SQ_F1); (Pc BLACK KING, SQ_E8);
               (Pc WHITE PAWN, SQ_E4); (Pc WHITE PAWN, SQ_D5) ].

(** White pawns e5 and d4, white king e1, no black pawn. *)
Definition echelon_position : Position :=
  set_pieces [ (Pc WHITE KING, SQ_E1); (Pc BLACK KING, SQ_E8);
               (Pc WHITE PAWN, SQ_E5); (Pc WHITE PAWN, SQ_D4) ].

(** White pawns e5 and d4 against a black pawn on e6. *)
Definition blocked_position : Position :=
  set_pieces [ (Pc WHITE KING, SQ_E1); (Pc BLACK KING, SQ_E8);
               (Pc WHITE PAWN, SQ_E5); (Pc WHITE PAWN, SQ_D4);
               (Pc BLACK PAWN, SQ_E6) ].

(** A white pawn on e5 against a black pawn on e6, no other pawn. *)
Definition lone_blocked_position : Position :=
  set_pieces [ (Pc WHITE KING, SQ_E1); (Pc BLACK KING, SQ_E8);
               (Pc WHITE PAWN, SQ_E5); (Pc BLACK PAWN, SQ_E6) ].

(** A white pawn on e5 against a black pawn on e7. *)
Definition two_ahead_position : Position :=
  set_pieces [ (Pc WHITE KING, SQ_E1); (Pc BLACK KING, SQ_F1 + 56);
               (Pc WHITE PAWN, SQ_E5); (Pc BLACK PAWN, SQ_E7) ].

(* ================================================================== *)
(** ** Statements compared with the code *)
(* ================================================================== *)

(** The seed sequence indexed by board rank 1..8. *)
Definition seed_of_rank (k : Z) : Z := Seed (k - 1).

(** The cell of the connected-pawn table for board rank [k] as the
    specification words it: the shift applies to the whole sum and the
    endgame value uses [k - 2]. *)
Definition Connected_as_specified (opposed phalanx support k : Z) : Score :=
  let v := Z.shiftr (17 * support
                     + (seed_of_rank k
                        + (if phalanx =? 1
                           then Z.quot (seed_of_rank (k + 1) - seed_of_rank k) 2
                           else 0))) opposed in
  make_score v (Z.quot (v * (k - 2)) 4).

(** The cell for board rank [k] in closed form: the shift applies to the
    seed term only and the endgame value uses [k - 3]. *)
Definition Connected_closed_form (opposed phalanx support k : Z) : Score :=
  let v := 17 * support
           + Z.shiftr (seed_of_rank k
                       + (if phalanx =? 1
                          then Z.quot (seed_of_rank (k + 1) - seed_of_rank k) 2
                          else 0)) opposed in
  make_score v (Z.quot (v * (k - 3)) 4).

(** The shelter value with line 384-385 left out. *)
Definition shelter_without_edge_term (Us : Color) (pos : Position)
           (ksq : Square) : Value :=
  let center := shelter_center ksq in
  fold_left (shelter_file Us pos ksq) [center - 1; center; center + 1]
            (shelter_base Us pos ksq).

(** An enemy pawn stands directly ahead of the king, on file A or H, on
    the second or third rank counted from the king's side. *)
Definition edge_pawn_ahead (Us : Color) (pos : Position) (ksq : Square)
  : bool :=
  is_ok ksq && is_ok (ksq + Up Us)
  && piece_eqb (piece_on pos (ksq + Up Us)) (make_piece (Them Us) PAWN)
  && ((file_of ksq =? FILE_A) || (file_of ksq =? FILE_H))
  && ((relative_rank Us (ksq + Up Us) =? RANK_2)
      || (relative_rank Us (ksq + Up Us) =? RANK_3)).

(** The content of [pos_is_ok], field by field. *)
Record well_formed (pos : Position) : Prop := {
  wf_color_ok : forall c, bb_ok (byColorBB pos c);
  wf_type_ok : forall pt, bb_ok (byTypeBB pos pt);
  wf_color_bit : forall c s, 0 <= s < 64 ->
    Z.testbit (byColorBB pos c) s = color_on pos c s;
  wf_type_bit : forall pt s, 0 <= s < 64 ->
    Z.testbit (byTypeBB pos pt) s = type_on pos pt s;
  wf_list_board : forall c s, In s (pieceList pos c PAWN) ->
    0 <= s < 64 /\ piece_on pos s = make_piece c PAWN;
  wf_board_list : forall c s, 0 <= s < 64 ->
    piece_on pos s = make_piece c PAWN -> In s (pieceList pos c PAWN);
  wf_list_nodup : forall c, NoDup (pieceList pos c PAWN);
  wf_count : forall c,
    pieceCount pos c PAWN = Z.of_nat (length (pieceList pos c PAWN));
  wf_king : forall c, exists k,
    0 <= k < 64 /\ piece_on pos k = make_piece c KING
    /\ forall j, 0 <= j < 64 -> piece_on pos j = make_piece c KING -> j = k;
  wf_pawn_rank : forall s, 0 <= s < 64 -> type_on pos PAWN s = true ->
    RANK_1 < rank_of s < RANK_8
}.

(** White pawns e4, e5 and d3 against a black pawn on e6. *)
Definition stacked_position : Position :=
  set_pieces [ (Pc WHITE KING, SQ_E1); (Pc BLACK KING, SQ_E8);
               (Pc WHITE PAWN, SQ_E4); (Pc WHITE PAWN, SQ_E5);
               (Pc WHITE PAWN, SQ_D3); (Pc BLACK PAWN, SQ_E6) ].

(** A king of colour [c] stands on the board. *)
Definition king_on_board (pos : Position) (c : Color) : Prop :=
  exists k, 0 <= k < 64 /\ piece_on pos k = make_piece c KING.

(** The outcomes in which the king walk stayed on the board. *)
Definition walk_on_board {A} (o : outcome A) : Prop :=
  match o with
  | OffBoard => False
  | AssertFailed A_king_on_board => False
  | _ => True
  end.

(** An empty hash table. *)
Definition fresh_thread : Thread := mk_thread (fun _ => zero_entry) 0.

(** One rank forward, as a difference of rank numbers. *)
Definition rank_step (Us : Color) : Z :=
  match Us with WHITE => 1 | BLACK => -1 end.

(** The own pawn on [t] supports the pawn on [s]: it stands on an adjacent
    file, one rank behind. *)
Definition supports (Us : Color) (pos : Position) (s t : Square) : bool :=
  piece_eqb (piece_on pos t) (make_piece Us PAWN)
  && (Z.abs (file_of t - file_of s) =? 1)
  && (rank_of t =? rank_of s - rank_step Us).

(** The enemy pawn on [a] attacks the square [x]. *)
Definition attacks (Us : Color) (pos : Position) (a x : Square) : bool :=
  piece_eqb (piece_on pos a) (make_piece (Them Us) PAWN)
  && (Z.abs (file_of a - file_of x) =? 1)
  && (rank_of a =? rank_of x + rank_step Us).

(** Two enemy pawns attack the square [x]. *)
Definition attacked_twice (Us : Color) (pos : Position) (x : Square) : bool :=
  existsb (fun a =>
    existsb (fun a' => (a <? a') && attacks Us pos a x && attacks Us pos a' x)
            squares) squares.

(** Some supporter of the pawn on [s] can step forward to a square that
    holds no enemy pawn and that at most one enemy pawn attacks. *)
Definition sacrifice_opens (Us : Color) (pos : Position) (s : Square) : bool :=
  existsb (fun t =>
    supports Us pos s t
    && is_ok (t + Up Us)
    && negb (piece_eqb (piece_on pos (t + Up Us)) (make_piece (Them Us) PAWN))
    && negb (attacked_twice Us pos (t + Up Us))) squares.

(** The second passed-pawn condition as the specification words it: the
    only stopper is the enemy pawn two ranks ahead, the pawn stands on
    relative rank 5 or beyond, and no square on its way to promotion is
    attacked by two enemy pawns. *)
Definition path_squares (Us : Color) (s : Square) : list Square :=
  filter (fun x => bb_true (Z.land (forward_file_bb Us s) (SquareBB x)))
         squares.

Definition path_lightly_attacked (Us : Color) (pos : Position) (s : Square)
  : bool :=
  forallb (fun x => negb (attacked_twice Us pos x)) (path_squares Us s).

Definition second_condition_as_specified (Us : Color) (pos : Position)
           (s : Square) : bool :=
  (stoppers Us pos s =? SquareBB (s + Up Us + Up Us))
  && (RANK_5 <=? relative_rank Us s)
  && path_lightly_attacked Us pos s.

(* ================================================================== *)
(** ** Mirroring a position *)
(* ================================================================== *)

(** [operator~(Square)]: the vertical flip of a square, [s ^ SQ_A8]. *)
Definition flip_sq (s : Square) : Square := Z.lxor s 56.

(** The rank [r] of a bitboard, as a byte. *)
Definition rank_byte (b : Bitboard) (r : Z) : Z :=
  Z.land (Z.shiftr b (8 * r)) 0xFF.

(** The vertical flip of a bitboard: rank [r] goes to rank [7 - r]. *)
Definition flip_bb (b : Bitboard) : Bitboard :=
  fold_right (fun r acc => Z.lor (Z.shiftl (rank_byte b r) (8 * (7 - r))) acc)
             0 [0; 1; 2; 3; 4; 5; 6; 7].

(** [operator~(Piece)]: the same piece of the other colour. *)
Definition flip_piece (pc : Piece) : Piece :=
  match pc with
  | NO_PIECE => NO_PIECE
  | Pc c pt => Pc (opp c) pt
  end.

(** Castling rights of the two colours exchanged (two bits each). *)
Definition flip_castling (cr : Z) : Z :=
  Z.lor (Z.shiftl (Z.land cr 3) 2) (Z.land (Z.shiftr cr 2) 3).

(** The mirrored position: colours swapped and the board flipped
    vertically, in every representation the position keeps; [k] is the
    pawn hash key of the mirrored configuration. *)
Definition flip_position (k : Key) (pos : Position) : Position :=
  mk_position
    (fun s => flip_piece (board pos (flip_sq s)))
    (fun pt => flip_bb (byTypeBB pos pt))
    (fun c => flip_bb (byColorBB pos (opp c)))
    (fun c pt => pieceCount pos (opp c) pt)
    (fun c pt => map flip_sq (pieceList pos (opp c) pt))
    (flip_castling (st_castlingRights pos))
    k.

(** The fields that the classifier for colour [c] fills in [e] and the
    fields that the classifier for the other colour fills in [e'] are
    mirror images: bitboards flipped, file masks and counters equal,
    light and dark squares exchanged. *)
Definition mirrored (c : Color) (e e' : Entry) : Prop :=
  at_color (passedPawns e') (opp c) = flip_bb (at_color (passedPawns e) c)
  /\ at_color (pawnAttacks e') (opp c) = flip_bb (at_color (pawnAttacks e) c)
  /\ at_color (pawnAttacksSpan e') (opp c)
     = flip_bb (at_color (pawnAttacksSpan e) c)
  /\ at_color (semiopenFiles e') (opp c) = at_color (semiopenFiles e) c
  /\ at_color (weakUnopposed e') (opp c) = at_color (weakUnopposed e) c
  /\ at_color (at_color (pawnsOnSquares e') (opp c)) BLACK
     = at_color (at_color (pawnsOnSquares e) c) WHITE
  /\ at_color (at_color (pawnsOnSquares e') (opp c)) WHITE
     = at_color (at_color (pawnsOnSquares e) c) BLACK.

(** Two records agree on the fields of colour [c]. *)
Definition same_side (c : Color) (e e' : Entry) : Prop :=
  at_color (passedPawns e') c = at_color (passedPawns e) c
  /\ at_color (pawnAttacks e') c = at_color (pawnAttacks e) c
  /\ at_color (pawnAttacksSpan e') c = at_color (pawnAttacksSpan e) c
  /\ at_color (semiopenFiles e') c = at_color (semiopenFiles e) c
  /\ at_color (weakUnopposed e') c = at_color (weakUnopposed e) c
  /\ at_color (pawnsOnSquares e') c = at_color (pawnsOnSquares e) c.

(** An own pawn on file [f0], on one of the ranks 2 to 7, is flagged in
    [passedPawns]. *)
Definition passed_partner (Us : Color) (pos : Position) (e : Entry)
           (f0 : File) : bool :=
  existsb (fun r0 =>
    piece_eqb (piece_on pos (make_square f0 r0)) (make_piece Us PAWN)
    && bb_true (Z.land (at_color (passedPawns e) Us)
                       (SquareBB (make_square f0 r0)))) ranks_2_to_7.

(* ================================================================== *)
(** ** [Entry::do_king_safety] *)
(* ================================================================== *)

(** Modelled from the spec: the castling rights of types.h, one bit per
    colour and side, and [MakeCastling<C, S>::right]. *)
Definition WHITE_OO : Z := 1.
Definition WHITE_OOO : Z := 2.
Definition BLACK_OO : Z := 4.
Definition BLACK_OOO : Z := 8.

Inductive CastlingSide : Type := KING_SIDE | QUEEN_SIDE.

Definition MakeCastling_right (c : Color) (side : CastlingSide) : Z :=
  Z.shiftl WHITE_OO
           ((match side with QUEEN_SIDE => 1 | KING_SIDE => 0 end)
            + 2 * color_code c).

(** Modelled from the spec: [Position::can_castle(CastlingRight)] and
    [Position::can_castle(Color)] of position.h, the rights still held
    among those asked for. *)
Definition can_castle (pos : Position) (cr : Z) : Z :=
  Z.land (st_castlingRights pos) cr.
Definition can_castle_c (pos : Position) (c : Color) : Z :=
  Z.land (st_castlingRights pos)
         (Z.shiftl (Z.lor WHITE_OO WHITE_OOO) (2 * color_code c)).

(** Modelled from the spec: [relative_square] of types.h. *)
Definition relative_square (c : Color) (s : Square) : Square :=
  Z.lxor s (color_code c * 56).

(** Modelled from the spec: the distance of two squares in king moves
    ([SquareDistance] of bitboard.h). *)
Definition distance (s1 s2 : Square) : Z :=
  Z.max (Z.abs (file_of s1 - file_of s2)) (Z.abs (rank_of s1 - rank_of s2)).

(** Modelled from the spec: [DistanceRingBB[s][d]] of bitboard.h, the
    squares at distance [d + 1] from [s], built as in [Bitboards::init];
    the table has 64 rows of 8 rings. *)
Definition DistanceRingBB (s : Square) (d : Z) : Bitboard :=
  if is_ok s && (0 <=? d) && (d <? 8) then
    fold_right (fun s2 acc =>
                  if negb (s =? s2) && (distance s s2 - 1 =? d)
                  then Z.lor acc (SquareBB s2) else acc) 0 squares
  else 0.

Definition set_castlingRights (e : Entry) (v : ByColor Z) : Entry :=
  mk_entry (key e) (scores e) (passedPawns e) (pawnAttacks e)
    (pawnAttacksSpan e) (kingSquares e) (kingSafety e) (weakUnopposed e) v
    (semiopenFiles e) (pawnsOnSquares e) (asymmetry e) (openFiles e).

(** The loop of line 419: [d] is the ring to test next and [room] the
    number of rings of the table from [d] on; the counter is incremented
    at every test, the successful one included. *)
Fixpoint ring_walk (room : nat) (ksq : Square) (pawns : Bitboard) (d : Z)
  : outcome Z :=
  match room with
  | O => OffBoard
  | S k =>
      let ring := DistanceRingBB ksq d in
      let d := d + 1 in
      if negb (bb_true (Z.land ring pawns)) then ring_walk k ksq pawns d
      else Ok d
  end.

(** Lines 415-419. *)
Definition minKingPawnDistance (Us : Color) (pos : Position) (ksq : Square)
  : outcome Z :=
  let pawns := pieces pos Us PAWN in
  if bb_true pawns then ring_walk 8 ksq pawns 0 else Ok 0.

(** Lines 422-429. *)
Definition king_bonus (Us : Color) (pos : Position) (ksq : Square) : Value :=
  let bonus := evaluate_shelter Us pos ksq in
  let bonus :=
    if negb (can_castle pos (MakeCastling_right Us KING_SIDE) =? 0)
    then Z.max bonus (evaluate_shelter Us pos (relative_square Us SQ_G1))
    else bonus in
  let bonus :=
    if negb (can_castle pos (MakeCastling_right Us QUEEN_SIDE) =? 0)
    then Z.max bonus (evaluate_shelter Us pos (relative_square Us SQ_C1))
    else bonus in
  bonus.

Definition do_king_safety (Us : Color) (pos : Position) (ksq : Square)
           (e : Entry) : outcome (Score * Entry) :=
  let e := set_kingSquares e (set_color (kingSquares e) Us ksq) in
  let e := set_castlingRights e
             (set_color (castlingRights e) Us (can_castle_c pos Us)) in
  d <- minKingPawnDistance Us pos ksq ;;
  let bonus := king_bonus Us pos ksq in
  Ok (make_score bonus (-16 * d), e).

(* ================================================================== *)
(** ** Further statements about the code *)
(* ================================================================== *)

(** A pawn of the bitboard [pawns] stands on [p]. *)
Definition pawn_at (pawns : Bitboard) (p : Square) : Prop :=
  0 <= p < 64 /\ Z.testbit pawns p = true.

(** No pawn of either colour's piece list stands on file [f]. *)
Definition open_file (pos : Position) (f : File) : bool :=
  forallb (fun s => negb (file_of s =? f))
          (squares_of pos WHITE PAWN ++ squares_of pos BLACK PAWN).

(** The square [i] lies on a file next to that of [s], on a rank beyond
    [s] as seen from the side of colour [Us]. *)
Definition ahead_beside (Us : Color) (s i : Square) : bool :=
  (Z.abs (file_of i - file_of s) =? 1)
  && (0 <? (rank_of i - rank_of s) * rank_step Us).

(** The 72 cells that [init] writes. *)
Definition init_domain (opposed phalanx support r : Z) : Prop :=
  0 <= opposed <= 1 /\ 0 <= phalanx <= 1 /\ 0 <= support <= 2
  /\ RANK_2 <= r <= RANK_7.

(** White to castle either side; pawns on f2, g2 and h3, king on e1. *)
Definition castle_position : Position :=
  let p := set_pieces [ (Pc WHITE KING, SQ_E1); (Pc BLACK KING, SQ_E8);
                        (Pc WHITE PAWN, 13); (Pc WHITE PAWN, 14);
                        (Pc WHITE PAWN, 23); (Pc BLACK PAWN, SQ_E7) ] in
  mk_position (board p) (byTypeBB p) (byColorBB p) (pieceCount p)
              (pieceList p) (Z.lor WHITE_OO WHITE_OOO) (st_pawnKey p).

(** The pawn on [s] is counted in [weakUnopposed]: it is neither supported
    nor in a phalanx, it is isolated or backward, and no enemy pawn
    stands ahead of it on its file. *)
Definition weak_unopposed_pawn (Us : Color) (pos : Position) (s : Square)
  : bool :=
  negb (bb_true (Z.lor (supported Us pos s) (phalanx Us pos s)))
  && (negb (bb_true (neighbours Us pos s)) || backward Us pos s)
  && negb (opposed Us pos s).

(** The position [pos] with other piece lists: the same board, bitboards
    and counts. *)
Definition with_piece_list (pos : Position)
           (pl : Color -> PieceType -> list Square) : Position :=
  mk_position (board pos) (byTypeBB pos) (byColorBB pos) (pieceCount pos)
              pl (st_castlingRights pos) (st_pawnKey pos).

(** Two connected white pawns and no king on the board. *)
Definition kingless_position : Position :=
  set_pieces [ (Pc WHITE PAWN, SQ_E4); (Pc WHITE PAWN, SQ_D5) ].

(** The condition of line 384 with the value read from
    [SquareBB[ksq + Up]] left open. *)
Definition edge_blocker_reading (Us : Color) (pos : Position) (ksq : Square)
           (read : Bitboard) : bool :=
  bb_true (Z.land (Z.land (Z.land (shelter_theirPawns Us pos ksq)
                                  (Z.lor FileABB FileHBB))
                          (BlockRanks Us))
                  read).

(* ================================================================== *)
(** * Properties *)
(* ================================================================== *)

(** ** Squares, pieces and checks by enumeration *)

Lemma In_squares (s : Z) : In s squares <-> 0 <= s < 64.
Proof.
  unfold squares. rewrite in_map_iff. split.
  - intros (n & <- & Hn). apply in_seq in Hn. lia.
  - intros Hs. exists (Z.to_nat s). split; [lia|]. apply in_seq. lia.
Qed.

Lemma is_ok_spec (s : Z) : is_ok s = true <-> 0 <= s < 64.
Proof. unfold is_ok, SQ_A1, SQ_H8. lia. Qed.

(** A decidable property checked on the 64 squares holds on the board. *)
Lemma on_all_squares (P : Z -> bool) :
  forallb P squares = true -> forall s, 0 <= s < 64 -> P s = true.
Proof.
  intros H s Hs. rewrite forallb_forall in H. apply H, In_squares, Hs.
Qed.

Lemma color_eqb_eq (a b : Color) : color_eqb a b = true <-> a = b.
Proof. destruct a, b; simpl; split; congruence. Qed.

Lemma ptype_eqb_eq (a b : PieceType) : ptype_eqb a b = true <-> a = b.
Proof. destruct a, b; simpl; split; congruence. Qed.

Lemma piece_eqb_eq (a b : Piece) : piece_eqb a b = true <-> a = b.
Proof.
  destruct a as [|c pt], b as [|c' pt']; simpl; try (split; congruence).
  rewrite andb_true_iff, color_eqb_eq, ptype_eqb_eq.
  split; [intros [-> ->]; reflexivity | intros [= -> ->]; auto].
Qed.

Lemma piece_eqb_refl (a : Piece) : piece_eqb a a = true.
Proof. apply piece_eqb_eq. reflexivity. Qed.

Lemma piece_eqb_sym (a b : Piece) : piece_eqb a b = piece_eqb b a.
Proof.
  destruct (piece_eqb a b) eqn:E.
  - apply piece_eqb_eq in E. subst. symmetry. apply piece_eqb_refl.
  - destruct (piece_eqb b a) eqn:E'; [|reflexivity].
    apply piece_eqb_eq in E'. subst. rewrite piece_eqb_refl in E. discriminate.
Qed.

Lemma opp_involutive (c : Color) : opp (opp c) = c.
Proof. destruct c; reflexivity. Qed.

(** ** The connected-pawn table *)

(** C4, as amended.  After [init], the cell of the connected-pawn table
    for [opposed], [phalanx] in {0,1}, [support] in {0,1,2} and board rank
    [k] in 2..7 is [ScorePair(v, v*(k-3)/4)], the division truncating
    toward zero, where
    [v = 17*support + ((seed[k] + (phalanx ? (seed[k+1]-seed[k])/2 : 0)) >> opposed)]:
    the shift applies to the seed term only, and the rank factor of the
    endgame value is the zero-based rank minus two. *)
Theorem Connected_init_closed_form (opposed phalanx support k : Z) :
  0 <= opposed <= 1 -> 0 <= phalanx <= 1 -> 0 <= support <= 2 ->
  2 <= k <= 7 ->
  init Connected_zero opposed phalanx support (k - 1)
  = Connected_closed_form opposed phalanx support k.
Proof.
  intros Ho Hp Hs Hk.
  assert (Eo : opposed = 0 \/ opposed = 1) by lia.
  assert (Ep : phalanx = 0 \/ phalanx = 1) by lia.
  assert (Es : support = 0 \/ support = 1 \/ support = 2) by lia.
  assert (Ek : k = 2 \/ k = 3 \/ k = 4 \/ k = 5 \/ k = 6 \/ k = 7) by lia.
  destruct Eo as [-> | ->], Ep as [-> | ->], Es as [-> | [-> | ->]];
    destruct Ek as [-> | [-> | [-> | [-> | [-> | ->]]]]];
    vm_compute; reflexivity.
Qed.

Lemma Connected_init_closed_form_witness :
  init Connected_zero 1 1 2 (5 - 1) = Connected_closed_form 1 1 2 5.
Proof. apply (Connected_init_closed_form 1 1 2 5); lia. Defined.

(** C4, as stated, fails: with an opposed, once-supported pawn on board
    rank 2 the code shifts the seed term only (23, not 15), and for an
    unsupported unopposed pawn on rank 2 the endgame value is
    [13 * (-1) / 4 = -3], not 0. *)
Lemma Connected_as_specified_fails :
  init Connected_zero 1 0 1 (2 - 1) = make_score 23 (-5)
  /\ Connected_as_specified 1 0 1 2 = make_score 15 0
  /\ init Connected_zero 0 0 0 (2 - 1) = make_score 13 (-3)
  /\ Connected_as_specified 0 0 0 2 = make_score 13 0
  /\ ~ (forall opposed phalanx support k,
          0 <= opposed <= 1 -> 0 <= phalanx <= 1 -> 0 <= support <= 2 ->
          2 <= k <= 7 ->
          init Connected_zero opposed phalanx support (k - 1)
          = Connected_as_specified opposed phalanx support k).
Proof.
  repeat split; try (vm_compute; reflexivity).
  intros H.
  assert (E := H 1 0 1 2 ltac:(lia) ltac:(lia) ltac:(lia) ltac:(lia)).
  vm_compute in E. discriminate E.
Qed.

(** ** Well-formed positions *)

Lemma nodupb_NoDup (l : list Z) : nodupb l = true -> NoDup l.
Proof.
  induction l as [|x r IH]; simpl; intros H; constructor.
  - apply andb_true_iff in H. destruct H as [H _].
    intros Hin. apply negb_true_iff in H.
    assert (E : existsb (Z.eqb x) r = true).
    { apply existsb_exists. exists x. split; [assumption | apply Z.eqb_refl]. }
    congruence.
  - apply IH. apply andb_true_iff in H. tauto.
Qed.

Lemma forallb_colors (P : Color -> bool) :
  forallb P colors = true -> forall c, P c = true.
Proof.
  simpl. rewrite !andb_true_iff. intros (Hw & Hb & _) []; assumption.
Qed.

Lemma forallb_piece_types (P : PieceType -> bool) :
  forallb P piece_types = true -> forall pt, P pt = true.
Proof.
  simpl. rewrite !andb_true_iff. intros H []; tauto.
Qed.

Lemma bb_okb_ok (b : Z) : bb_okb b = true -> bb_ok b.
Proof. unfold bb_okb, bb_ok. lia. Qed.

Lemma single_king (l : list Square) (pos : Position) (c : Color) :
  length (king_squares l pos c) = 1%nat ->
  exists k, In k l /\ piece_on pos k = make_piece c KING
            /\ forall j, In j l -> piece_on pos j = make_piece c KING -> j = k.
Proof.
  intros Hlen.
  destruct (king_squares l pos c) as [|k [|k' r]] eqn:E; try discriminate.
  assert (Hk : In k (king_squares l pos c)) by (rewrite E; apply in_eq).
  apply filter_In in Hk. destruct Hk as [Hk Hp]. exists k.
  split; [assumption|]. split; [apply piece_eqb_eq, Hp|].
  intros j Hj Hpj.
  assert (Hin : In j (king_squares l pos c)).
  { apply filter_In. split; [assumption|]. apply piece_eqb_eq, Hpj. }
  rewrite E in Hin. destruct Hin as [-> | []]. reflexivity.
Qed.

Lemma pos_is_ok_well_formed (pos : Position) :
  pos_is_ok pos = true -> well_formed pos.
Proof.
  unfold pos_is_ok. rewrite !andb_true_iff.
  intros ((((Hc & Ht) & Hbits) & Hlists) & Hranks).
  pose proof (on_all_squares _ Hbits) as Hb.
  pose proof (forallb_colors _ Hlists) as Hl.
  pose proof (on_all_squares _ Hranks) as Hr.
  constructor.
  - intros c. apply bb_okb_ok, (forallb_colors _ Hc).
  - intros pt. apply bb_okb_ok, (forallb_piece_types _ Ht).
  - intros c s Hs. specialize (Hb s Hs). apply andb_true_iff in Hb.
    destruct Hb as [Hb _]. pose proof (forallb_colors _ Hb c) as E.
    apply eqb_prop in E. exact E.
  - intros pt s Hs. specialize (Hb s Hs). apply andb_true_iff in Hb.
    destruct Hb as [_ Hb]. pose proof (forallb_piece_types _ Hb pt) as E.
    apply eqb_prop in E. exact E.
  - intros c s Hin. specialize (Hl c). rewrite !andb_true_iff in Hl.
    destruct Hl as ((((Hl & _) & _) & _) & _).
    rewrite forallb_forall in Hl. specialize (Hl s Hin).
    apply andb_true_iff in Hl. destruct Hl as [Hok Hp].
    split; [apply is_ok_spec, Hok | apply piece_eqb_eq, Hp].
  - intros c s Hs Hp. specialize (Hl c). rewrite !andb_true_iff in Hl.
    destruct Hl as ((((_ & Hl) & _) & _) & _).
    pose proof (on_all_squares _ Hl s Hs) as E. cbv beta in E.
    rewrite Hp, piece_eqb_refl in E. simpl in E.
    apply existsb_exists in E. destruct E as (x & Hx & Heq).
    apply Z.eqb_eq in Heq. subst. assumption.
  - intros c. specialize (Hl c). rewrite !andb_true_iff in Hl.
    apply nodupb_NoDup. tauto.
  - intros c. specialize (Hl c). rewrite !andb_true_iff in Hl.
    destruct Hl as ((_ & Hl) & _). apply Z.eqb_eq, Hl.
  - intros c. specialize (Hl c). rewrite !andb_true_iff in Hl.
    destruct Hl as (_ & Hl). apply Z.eqb_eq in Hl.
    destruct (single_king squares pos c) as (k & Hk & Hp & Hu); [lia|].
    exists k. split; [apply In_squares, Hk|]. split; [assumption|].
    intros j Hj. apply Hu, In_squares, Hj.
  - intros s Hs Hp. specialize (Hr s Hs). cbv beta in Hr.
    rewrite Hp in Hr. simpl in Hr.
    unfold RANK_1, RANK_8 in *. lia.
Qed.

(** ** Bits of 64-bit values *)

Lemma testbit_high (b i : Z) : bb_ok b -> 64 <= i -> Z.testbit b i = false.
Proof.
  intros Hb Hi. rewrite <- (Z.mod_small b (2 ^ 64)) by exact Hb.
  apply Z.mod_pow2_bits_high. lia.
Qed.

(** Two 64-bit values with the same 64 bits are equal. *)
Lemma bb_ext (a b : Z) :
  bb_ok a -> bb_ok b ->
  (forall i, 0 <= i < 64 -> Z.testbit a i = Z.testbit b i) -> a = b.
Proof.
  intros Ha Hb H. apply Z.bits_inj'. intros i Hi.
  destruct (Z.lt_ge_cases i 64) as [Hlt | Hge].
  - apply H. lia.
  - rewrite !testbit_high by assumption. reflexivity.
Qed.

Lemma bb_ok_bits (b : Z) :
  0 <= b -> (forall i, 64 <= i -> Z.testbit b i = false) -> bb_ok b.
Proof.
  intros H0 Hhi. split; [assumption|].
  destruct (Z.eq_dec b 0) as [-> | Hne]; [lia|].
  assert (Hpos : 0 < b) by lia.
  apply Z.log2_lt_pow2; [assumption|].
  destruct (Z.lt_ge_cases (Z.log2 b) 64) as [Hl | Hg]; [assumption|].
  pose proof (Z.bit_log2 b Hpos) as E. rewrite Hhi in E by assumption.
  discriminate.
Qed.

Lemma bb_ok_land (a b : Z) : bb_ok a -> bb_ok (Z.land a b).
Proof.
  intros Ha. apply bb_ok_bits.
  - apply Z.land_nonneg. left. apply Ha.
  - intros i Hi. rewrite Z.land_spec, (testbit_high a) by assumption.
    reflexivity.
Qed.

Lemma bb_ok_land_r (a b : Z) : bb_ok b -> bb_ok (Z.land a b).
Proof. rewrite Z.land_comm. apply bb_ok_land. Qed.

Lemma bb_ok_lor (a b : Z) : bb_ok a -> bb_ok b -> bb_ok (Z.lor a b).
Proof.
  intros Ha Hb. apply bb_ok_bits.
  - apply Z.lor_nonneg. split; [apply Ha | apply Hb].
  - intros i Hi. rewrite Z.lor_spec, !testbit_high by assumption.
    reflexivity.
Qed.

Lemma bb_ok_lxor (a b : Z) : bb_ok a -> bb_ok b -> bb_ok (Z.lxor a b).
Proof.
  intros Ha Hb. apply bb_ok_bits.
  - apply Z.lxor_nonneg. split; intros _; [apply Hb | apply Ha].
  - intros i Hi. rewrite Z.lxor_spec, !testbit_high by assumption.
    reflexivity.
Qed.

Lemma bb_ok_0 : bb_ok 0.
Proof. unfold bb_ok. lia. Qed.

Lemma testbit_SquareBB (s i : Z) :
  0 <= s < 64 -> Z.testbit (SquareBB s) i = (i =? s).
Proof.
  intros Hs. unfold SquareBB.
  rewrite (proj2 (is_ok_spec s) Hs), Z.shiftl_1_l.
  rewrite Z.pow2_bits_eqb by lia. apply Z.eqb_sym.
Qed.

Lemma SquareBB_off (s : Z) : ~ (0 <= s < 64) -> SquareBB s = 0.
Proof.
  intros Hs. unfold SquareBB. destruct (is_ok s) eqn:E; [|reflexivity].
  apply is_ok_spec in E. contradiction.
Qed.

Lemma bb_ok_SquareBB (s : Z) : bb_ok (SquareBB s).
Proof.
  destruct (is_ok s) eqn:E.
  - apply is_ok_spec in E. apply bb_ok_bits.
    + unfold SquareBB. destruct (is_ok s); [apply Z.shiftl_nonneg|]; lia.
    + intros i Hi. rewrite testbit_SquareBB by assumption. lia.
  - rewrite SquareBB_off; [apply bb_ok_0|].
    rewrite <- is_ok_spec. congruence.
Qed.

(** A 64-bit value is non-zero exactly when one of its 64 bits is set. *)
Lemma bb_true_exists (b : Z) :
  bb_ok b -> (bb_true b = true <-> exists i, 0 <= i < 64 /\ Z.testbit b i = true).
Proof.
  intros Hb. unfold bb_true. rewrite negb_true_iff, Z.eqb_neq. split.
  - intros Hne. destruct (Z.eq_dec b 0) as [|_]; [contradiction|].
    exists (Z.log2 b). assert (0 < b) by (destruct Hb; lia). split.
    + split; [apply Z.log2_nonneg|]. apply Z.log2_lt_pow2; [lia | apply Hb].
    + apply Z.bit_log2. assumption.
  - intros (i & _ & Hi) ->. rewrite Z.bits_0 in Hi. discriminate.
Qed.

Lemma bb_true_false (b : Z) :
  bb_ok b ->
  (bb_true b = false <-> forall i, 0 <= i < 64 -> Z.testbit b i = false).
Proof.
  intros Hb. split.
  - intros H i Hi. destruct (Z.testbit b i) eqn:E; [|reflexivity].
    assert (T : bb_true b = true) by (apply bb_true_exists; eauto).
    congruence.
  - intros H. destruct (bb_true b) eqn:E; [|reflexivity].
    apply bb_true_exists in E; [|assumption]. destruct E as (i & Hi & E).
    rewrite H in E by assumption. discriminate.
Qed.

(** [b & s] as a condition tests the bit of square [s]. *)
Lemma bb_true_land_SquareBB (b s : Z) :
  0 <= s < 64 -> bb_true (Z.land b (SquareBB s)) = Z.testbit b s.
Proof.
  intros Hs. destruct (Z.testbit b s) eqn:E.
  - apply bb_true_exists; [apply bb_ok_land_r, bb_ok_SquareBB|].
    exists s. split; [assumption|].
    rewrite Z.land_spec, testbit_SquareBB, E, Z.eqb_refl by assumption.
    reflexivity.
  - apply bb_true_false; [apply bb_ok_land_r, bb_ok_SquareBB|].
    intros i Hi. rewrite Z.land_spec, testbit_SquareBB by assumption.
    destruct (Z.eqb_spec i s) as [-> | _]; [rewrite E|]; auto using andb_false_r.
Qed.

(** The pawns of one colour, as bits and on the board. *)
Lemma testbit_pawns (pos : Position) (c : Color) (s : Z) :
  well_formed pos -> 0 <= s < 64 ->
  Z.testbit (pieces pos c PAWN) s
  = piece_eqb (piece_on pos s) (make_piece c PAWN).
Proof.
  intros W Hs. unfold pieces.
  rewrite Z.land_spec, (wf_color_bit _ W), (wf_type_bit _ W) by assumption.
  unfold color_on, type_on, piece_on, make_piece.
  destruct (board pos s) as [|d t]; simpl; [reflexivity|].
  reflexivity.
Qed.

Lemma bb_ok_pieces (pos : Position) (c : Color) (pt : PieceType) :
  well_formed pos -> bb_ok (pieces pos c pt).
Proof. intros W. apply bb_ok_land, (wf_color_ok _ W). Qed.

(** ** The king shelter *)

Lemma shelter_file_shift (Us : Color) (pos : Position) (ksq : Square)
      (a c : Value) (f : File) :
  shelter_file Us pos ksq (a + c) f = shelter_file Us pos ksq a f + c.
Proof.
  unfold shelter_file.
  repeat match goal with
         | |- context [if ?b then _ else _] => destruct b
         end; lia.
Qed.

Lemma shelter_edge_term (Us : Color) (pos : Position) (ksq : Square) :
  evaluate_shelter Us pos ksq
  = shelter_without_edge_term Us pos ksq
    + (if edge_blocker Us pos ksq then 374 else 0).
Proof.
  unfold evaluate_shelter, shelter_without_edge_term.
  destruct (edge_blocker Us pos ksq); simpl.
  - rewrite !shelter_file_shift. reflexivity.
  - lia.
Qed.

(** The three masks of line 384 all contain the square ahead of a king
    that stands on an edge file on its first or second rank. *)
Lemma edge_masks (Us : Color) (ksq : Square) :
  0 <= ksq < 64 ->
  (is_ok (ksq + Up Us)
   && ((file_of ksq =? FILE_A) || (file_of ksq =? FILE_H))
   && ((relative_rank Us (ksq + Up Us) =? RANK_2)
       || (relative_rank Us (ksq + Up Us) =? RANK_3))) = true ->
  Z.testbit (Z.lor (forward_ranks_bb Us ksq) (rank_bb ksq)) (ksq + Up Us)
  && Z.testbit (Z.lor FileABB FileHBB) (ksq + Up Us)
  && Z.testbit (BlockRanks Us) (ksq + Up Us) = true.
Proof.
  intros Hk Hg.
  pose (P := fun Us ksq =>
    implb (is_ok (ksq + Up Us)
           && ((file_of ksq =? FILE_A) || (file_of ksq =? FILE_H))
           && ((relative_rank Us (ksq + Up Us) =? RANK_2)
               || (relative_rank Us (ksq + Up Us) =? RANK_3)))
          (Z.testbit (Z.lor (forward_ranks_bb Us ksq) (rank_bb ksq))
                     (ksq + Up Us)
           && Z.testbit (Z.lor FileABB FileHBB) (ksq + Up Us)
           && Z.testbit (BlockRanks Us) (ksq + Up Us))).
  assert (HP : P Us ksq = true).
  { destruct Us; apply on_all_squares; try assumption;
      vm_compute; reflexivity. }
  unfold P in HP. rewrite Hg in HP. exact HP.
Qed.

(** C5, as amended.  When an enemy pawn stands directly ahead of the king
    on file A or H, on the second or third rank counted from the king's
    side, [evaluate_shelter] adds 374: the value returned is 374 higher
    than the same computation without that term. *)
Theorem evaluate_shelter_edge_pawn (Us : Color) (pos : Position)
        (ksq : Square) :
  pos_is_ok pos = true ->
  edge_pawn_ahead Us pos ksq = true ->
  evaluate_shelter Us pos ksq = shelter_without_edge_term Us pos ksq + 374.
Proof.
  intros Hok Hedge. apply pos_is_ok_well_formed in Hok.
  unfold edge_pawn_ahead in Hedge. rewrite !andb_true_iff in Hedge.
  destruct Hedge as ((((Hk & Hup) & Hpawn) & Hfile) & Hrank).
  apply is_ok_spec in Hk. pose proof Hup as Hup'. apply is_ok_spec in Hup'.
  apply piece_eqb_eq in Hpawn.
  rewrite shelter_edge_term.
  assert (E : edge_blocker Us pos ksq = true).
  { unfold edge_blocker. rewrite bb_true_land_SquareBB by assumption.
    pose proof (edge_masks Us ksq Hk) as M.
    rewrite Hup, Hfile, Hrank in M. specialize (M eq_refl).
    rewrite !andb_true_iff in M. destruct M as ((M1 & M2) & M3).
    unfold shelter_theirPawns, shelter_pawns, pieces_p, pieces_c.
    rewrite !Z.land_spec, M1, M2, M3.
    rewrite (wf_type_bit _ Hok), (wf_color_bit _ Hok) by assumption.
    unfold type_on, color_on. unfold piece_on in Hpawn. rewrite Hpawn.
    simpl. destruct Us; reflexivity. }
  rewrite E. reflexivity.
Qed.

Lemma evaluate_shelter_edge_pawn_witness :
  evaluate_shelter WHITE edge_pawn_position SQ_H1
  = shelter_without_edge_term WHITE edge_pawn_position SQ_H1 + 374.
Proof.
  apply (evaluate_shelter_edge_pawn WHITE edge_pawn_position SQ_H1);
    vm_compute; reflexivity.
Defined.

(** C5, as stated, fails: with the white king on h1, the black pawn on h2
    meets the condition and the shelter value is 288, against -7 for the
    same position without that pawn; the term itself contributes +374. *)
Lemma evaluate_shelter_edge_pawn_not_lower :
  edge_pawn_ahead WHITE edge_pawn_position SQ_H1 = true
  /\ evaluate_shelter WHITE edge_pawn_position SQ_H1 = 288
  /\ shelter_without_edge_term WHITE edge_pawn_position SQ_H1 = -86
  /\ evaluate_shelter WHITE edge_free_position SQ_H1 = -7
  /\ ~ (evaluate_shelter WHITE edge_pawn_position SQ_H1
        < evaluate_shelter WHITE edge_free_position SQ_H1)
  /\ ~ (evaluate_shelter WHITE edge_pawn_position SQ_H1
        < shelter_without_edge_term WHITE edge_pawn_position SQ_H1).
Proof.
  repeat split; try (vm_compute; reflexivity);
    vm_compute; intros H; discriminate H.
Qed.

(** ** Loops over piece lists *)

Arguments popcount : simpl never.
Arguments flag_passed : simpl never.
Arguments structure_score : simpl never.
Arguments init_entry : simpl never.
Arguments passed1 : simpl never.
Arguments protected_passed_pawn : simpl never.
Arguments scan_partner : simpl never.
Arguments find_UsKingSquare : simpl never.
Arguments file_of : simpl never.
Arguments rank_of : simpl never.
Arguments piece_eqb : simpl never.

Lemma for_each_ext {A S} (f g : S -> A -> outcome S) (l : list A) (st : S) :
  (forall st x, In x l -> f st x = g st x) ->
  for_each f l st = for_each g l st.
Proof.
  revert st. induction l as [|x r IH]; intros st H; simpl; [reflexivity|].
  rewrite (H st x) by (left; reflexivity).
  destruct (g st x) as [st' | w |]; simpl; try reflexivity.
  apply IH. intros st0 y Hy. apply H. right. assumption.
Qed.

(** A loop whose body always returns a value returns a value, and an
    invariant of the body holds at the end. *)
Lemma for_each_ok {A S} (body : S -> A -> outcome S) (Inv : S -> Prop)
      (l : list A) (st : S) :
  (forall st x, In x l -> Inv st -> exists st', body st x = Ok st' /\ Inv st') ->
  Inv st ->
  exists st', for_each body l st = Ok st' /\ Inv st'.
Proof.
  revert st. induction l as [|x r IH]; intros st H Hinv; simpl.
  - exists st. auto.
  - destruct (H st x (or_introl eq_refl) Hinv) as (st1 & E & Hinv1).
    rewrite E. simpl. apply IH; [|assumption].
    intros st0 y Hy. apply H. right. assumption.
Qed.

Lemma for_each_walk_on_board {A S} (body : S -> A -> outcome S)
      (l : list A) (st : S) :
  (forall st x, walk_on_board (body st x)) ->
  walk_on_board (for_each body l st).
Proof.
  intros H. revert st. induction l as [|x r IH]; intros st; simpl.
  - exact I.
  - specialize (H st x). destruct (body st x) as [st' | w |]; simpl in *;
      [apply IH | exact H | exact H].
Qed.

(** ** The king walk *)

Section KingWalk.

Variable debug : bool.
Variable Us : Color.
Variable pos : Position.

Lemma king_walk_finds (room : nat) (sq : Square) :
  sq + Z.of_nat room <= 64 ->
  (exists k, sq <= k < sq + Z.of_nat room
             /\ piece_on pos k = make_piece Us KING) ->
  exists k, king_walk debug Us pos room sq = Ok k
            /\ sq <= k < sq + Z.of_nat room
            /\ piece_on pos k = make_piece Us KING
            /\ forall j, sq <= j < k -> piece_on pos j <> make_piece Us KING.
Proof.
  revert sq. induction room as [|room IH]; intros sq Hroom (k & Hk & Hking).
  - lia.
  - simpl king_walk.
    destruct (piece_eqb (piece_on pos sq) (make_piece Us KING)) eqn:E.
    + apply piece_eqb_eq in E. exists sq. simpl.
      split; [reflexivity|]. split; [lia|]. split; [assumption|].
      intros j Hj. lia.
    + simpl.
      assert (Hne : k <> sq).
      { intros ->. rewrite Hking, piece_eqb_refl in E. discriminate. }
      assert (Hassert : assert_ debug A_king_on_board
                          (negb (sq + 1 =? SQUARE_NB)) = Ok tt).
      { unfold assert_, SQUARE_NB.
        destruct (Z.eqb_spec (sq + 1) 64); [lia|].
        simpl. rewrite andb_false_r. reflexivity. }
      rewrite Hassert. simpl.
      destruct (IH (sq + 1)) as (k' & Ek & Hk' & Hking' & Hfirst).
      * lia.
      * exists k. split; [lia | assumption].
      * exists k'. repeat split; try assumption; try lia.
        intros j Hj. destruct (Z.eq_dec j sq) as [-> | Hjs].
        -- intros Hj'. rewrite Hj', piece_eqb_refl in E. discriminate.
        -- apply Hfirst. lia.
Qed.

Lemma find_UsKingSquare_ok :
  king_on_board pos Us ->
  exists k, find_UsKingSquare debug Us pos = Ok k
            /\ 0 <= k < 64
            /\ piece_on pos k = make_piece Us KING
            /\ forall j, 0 <= j < k -> piece_on pos j <> make_piece Us KING.
Proof.
  intros (k & Hk & Hking). unfold find_UsKingSquare, SQ_A1.
  destruct (king_walk_finds 64 0) as (k' & E & Hk' & H1 & H2).
  - simpl. lia.
  - exists k. split; [simpl; lia | assumption].
  - exists k'. repeat split; try assumption; simpl in Hk'; lia.
Qed.

End KingWalk.

Lemma well_formed_king (pos : Position) (c : Color) :
  well_formed pos -> king_on_board pos c.
Proof.
  intros W. destruct (wf_king _ W c) as (k & Hk & Hp & _).
  exists k. auto.
Qed.

(** ** The classifier returns *)

Section Totality.

Variable tbl : ConnectedTable.
Variable Us : Color.
Variable pos : Position.

Lemma score_pawn_release (st : Score * Entry) (s : Square) :
  exists st', score_pawn tbl false Us pos st s = Ok st'.
Proof.
  destruct st as [score e]. unfold score_pawn. simpl.
  destruct (structure_score tbl Us pos s _) as [sc wk].
  unfold protected_score, rank_behind.
  destruct Us; simpl;
    repeat match goal with
           | |- context [if ?b then _ else _] => destruct b; simpl
           end; eexists; reflexivity.
Qed.

Lemma score_connected_passed_release (e : Entry) (score : Score)
      (s : Square) :
  king_on_board pos Us ->
  exists score', score_connected_passed false Us pos e score s = Ok score'.
Proof.
  intros HK. unfold score_connected_passed. simpl.
  destruct (find_UsKingSquare_ok false Us pos HK) as (k & -> & _).
  simpl.
  repeat match goal with
         | |- context [if ?b then _ else _] => destruct b; simpl
         end; eexists; reflexivity.
Qed.

Lemma score_pawn_walk (debug : bool) (st : Score * Entry) (s : Square) :
  walk_on_board (score_pawn tbl debug Us pos st s).
Proof.
  destruct st as [score e]. unfold score_pawn, assert_.
  destruct (debug && negb _); cbn [bind walk_on_board]; [exact I|].
  destruct (structure_score tbl Us pos s _) as [sc wk].
  unfold protected_score, rank_behind, assert_.
  destruct Us, debug; cbn [bind andb negb];
    repeat match goal with
           | |- context [if ?b then _ else _] => destruct b; cbn [bind]
           end; exact I.
Qed.

Lemma score_connected_passed_walk (debug : bool) (e : Entry)
      (score : Score) (s : Square) :
  king_on_board pos Us ->
  walk_on_board (score_connected_passed debug Us pos e score s).
Proof.
  intros HK. unfold score_connected_passed.
  destruct (find_UsKingSquare_ok debug Us pos HK) as (k & -> & _).
  unfold assert_.
  repeat match goal with
         | |- context [if ?b then _ else _] => destruct b; simpl
         end; exact I.
Qed.

End Totality.

Lemma evaluate_release_returns (tbl : ConnectedTable) (Us : Color)
      (pos : Position) (e : Entry) :
  king_on_board pos Us -> exists r, evaluate tbl false Us pos e = Ok r.
Proof.
  intros HK. unfold evaluate.
  destruct (for_each_ok (score_pawn tbl false Us pos) (fun _ => True)
              (squares_of pos Us PAWN) (SCORE_ZERO, init_entry Us pos e))
    as (st & -> & _).
  { intros st x _ _. destruct (score_pawn_release tbl Us pos st x) as [st' E].
    exists st'. auto. }
  { exact I. }
  cbn [bind]. destruct st as [score e1].
  destruct (for_each_ok (score_connected_passed false Us pos e1)
              (fun _ => True) (squares_of pos Us PAWN) score)
    as (sc & -> & _).
  { intros sc x _ _.
    destruct (score_connected_passed_release Us pos e1 sc x HK) as [sc' E].
    exists sc'. auto. }
  { exact I. }
  cbn [bind]. eexists. reflexivity.
Qed.

Lemma evaluate_walk_on_board (tbl : ConnectedTable) (debug : bool)
      (Us : Color) (pos : Position) (e : Entry) :
  king_on_board pos Us -> walk_on_board (evaluate tbl debug Us pos e).
Proof.
  intros HK. unfold evaluate.
  pose proof (for_each_walk_on_board (score_pawn tbl debug Us pos)
                (squares_of pos Us PAWN) (SCORE_ZERO, init_entry Us pos e)
                (score_pawn_walk tbl Us pos debug)) as H1.
  destruct (for_each (score_pawn tbl debug Us pos)
              (squares_of pos Us PAWN) (SCORE_ZERO, init_entry Us pos e))
    as [[sc e1] | w |];
    cbn [bind walk_on_board] in *; try exact H1.
  pose proof (for_each_walk_on_board (score_connected_passed debug Us pos e1)
                (squares_of pos Us PAWN) sc
                (fun st x =>
                   score_connected_passed_walk Us pos debug e1 st x HK))
    as H2.
  destruct (for_each (score_connected_passed debug Us pos e1)
              (squares_of pos Us PAWN) sc)
    as [sc' | w |]; cbn [bind walk_on_board] in *; first [exact H2 | exact I].
Qed.

(** C10.  When a king of the evaluated colour stands on the board, the
    walk from A1 that locates it returns a square of the board holding
    that king, whether assertions are checked or not, so it never reads
    past the last square; the classifier then returns a result in a build
    without assertions, and in no build does it leave the board or fail
    the assertion of the walk. *)
Theorem king_walk_terminates (tbl : ConnectedTable) (debug : bool)
        (Us : Color) (pos : Position) (e : Entry) :
  king_on_board pos Us ->
  (exists k, find_UsKingSquare debug Us pos = Ok k
             /\ 0 <= k < 64
             /\ piece_on pos k = make_piece Us KING)
  /\ (exists r, evaluate tbl false Us pos e = Ok r)
  /\ walk_on_board (evaluate tbl debug Us pos e).
Proof.
  intros HK. split; [|split].
  - destruct (find_UsKingSquare_ok debug Us pos HK) as (k & E & Hk & Hp & _).
    exists k. auto.
  - apply evaluate_release_returns, HK.
  - apply evaluate_walk_on_board, HK.
Qed.

Lemma king_walk_terminates_witness :
  (exists k, find_UsKingSquare true BLACK start_position = Ok k
             /\ 0 <= k < 64
             /\ piece_on start_position k = make_piece BLACK KING)
  /\ (exists r, evaluate Connected false BLACK start_position zero_entry = Ok r)
  /\ walk_on_board (evaluate Connected true BLACK start_position zero_entry).
Proof.
  apply (king_walk_terminates Connected true BLACK start_position zero_entry).
  exists SQ_E8. split; [unfold SQ_E8; lia | reflexivity].
Defined.

(** ** A colour without pawns *)

Lemma no_pawns (pos : Position) (c : Color) :
  well_formed pos -> count pos c PAWN = 0 ->
  squares_of pos c PAWN = [] /\ pieces pos c PAWN = 0.
Proof.
  intros W H0. unfold count in H0. rewrite (wf_count _ W) in H0.
  assert (Hl : pieceList pos c PAWN = []).
  { destruct (pieceList pos c PAWN); [reflexivity | simpl in H0; lia]. }
  split; [exact Hl|].
  apply bb_ext; [apply bb_ok_pieces, W | apply bb_ok_0 |].
  intros i Hi. rewrite Z.bits_0, testbit_pawns by assumption.
  destruct (piece_eqb _ _) eqn:E; [|reflexivity].
  apply piece_eqb_eq in E. apply (wf_board_list _ W) in E; [|assumption].
  rewrite Hl in E. destruct E.
Qed.

Lemma pawn_attacks_bb_0 (c : Color) : pawn_attacks_bb c 0 = 0.
Proof. destruct c; reflexivity. Qed.

(** C8.  When a colour has no pawn, the classifier for that colour returns
    the zero score, leaves its [passedPawns], [pawnAttacks] and
    [pawnAttacksSpan] empty, its [weakUnopposed] counter at zero, and sets
    all eight bits of its [semiopenFiles] mask. *)
Theorem evaluate_zero_pawns (tbl : ConnectedTable) (debug : bool)
        (Us : Color) (pos : Position) (e : Entry) :
  pos_is_ok pos = true -> count pos Us PAWN = 0 ->
  exists e', evaluate tbl debug Us pos e = Ok (SCORE_ZERO, e')
             /\ at_color (passedPawns e') Us = 0
             /\ at_color (pawnAttacks e') Us = 0
             /\ at_color (pawnAttacksSpan e') Us = 0
             /\ at_color (weakUnopposed e') Us = 0
             /\ at_color (semiopenFiles e') Us = 0xFF.
Proof.
  intros Hok H0. apply pos_is_ok_well_formed in Hok.
  destruct (no_pawns pos Us Hok H0) as [Hl Hb].
  unfold evaluate. rewrite Hl. cbn [for_each bind].
  eexists. split; [reflexivity|].
  unfold init_entry, ourPawns. rewrite Hb, pawn_attacks_bb_0.
  destruct Us; cbn; repeat split; reflexivity.
Qed.

Lemma evaluate_zero_pawns_witness :
  exists e', evaluate Connected true BLACK bare_kings zero_entry
             = Ok (SCORE_ZERO, e')
             /\ at_color (passedPawns e') BLACK = 0
             /\ at_color (pawnAttacks e') BLACK = 0
             /\ at_color (pawnAttacksSpan e') BLACK = 0
             /\ at_color (weakUnopposed e') BLACK = 0
             /\ at_color (semiopenFiles e') BLACK = 0xFF.
Proof.
  apply (evaluate_zero_pawns Connected true BLACK bare_kings zero_entry);
    vm_compute; reflexivity.
Defined.

(** ** Assertions of the first loop *)

Section Assertions.

Variable tbl : ConnectedTable.
Variable pos : Position.

Lemma assert_holds (debug : bool) (w : assertion) :
  assert_ debug w true = Ok tt.
Proof. unfold assert_. rewrite andb_false_r. reflexivity. Qed.

Lemma score_pawn_black_debug (st : Score * Entry) (s : Square) :
  piece_on pos s = make_piece BLACK PAWN ->
  if rank_of s <? RANK_7
  then exists st', score_pawn tbl true BLACK pos st s = Ok st'
  else score_pawn tbl true BLACK pos st s = AssertFailed A_rank_behind.
Proof.
  intros Hp. destruct st as [score e]. unfold score_pawn.
  rewrite Hp, piece_eqb_refl, assert_holds. cbn [bind].
  destruct (structure_score tbl BLACK pos s _) as [sc wk].
  unfold protected_score, rank_behind.
  destruct (rank_of s <? RANK_7); cbn [bind].
  - repeat match goal with
           | |- context [if ?b then _ else _] => destruct b; cbn [bind]
           end; eexists; reflexivity.
  - reflexivity.
Qed.

Lemma first_loop_black_debug (l : list Square) (st : Score * Entry) :
  (forall x, In x l -> piece_on pos x = make_piece BLACK PAWN) ->
  (exists s, In s l /\ rank_of s = RANK_7) ->
  for_each (score_pawn tbl true BLACK pos) l st
  = AssertFailed A_rank_behind.
Proof.
  revert st. induction l as [|x r IH]; intros st Hall (s & Hin & Hr).
  - destruct Hin.
  - cbn [for_each].
    pose proof (score_pawn_black_debug st x (Hall x (or_introl eq_refl)))
      as Hx.
    destruct (rank_of x <? RANK_7) eqn:Ex.
    + destruct Hx as [st' ->]. cbn [bind]. apply IH.
      * intros y Hy. apply Hall. right. assumption.
      * exists s. split; [|assumption].
        destruct Hin as [<- | Hin]; [|assumption].
        rewrite Hr in Ex. discriminate Ex.
    + rewrite Hx. reflexivity.
Qed.

Lemma score_pawn_white_debug (st : Score * Entry) (s : Square) :
  piece_on pos s = make_piece WHITE PAWN ->
  score_pawn tbl true WHITE pos st s = score_pawn tbl false WHITE pos st s.
Proof.
  intros Hp. destruct st as [score e]. unfold score_pawn.
  rewrite Hp, piece_eqb_refl, !assert_holds. reflexivity.
Qed.

Lemma find_UsKingSquare_debug (Us : Color) :
  king_on_board pos Us ->
  find_UsKingSquare true Us pos = find_UsKingSquare false Us pos.
Proof.
  intros HK.
  destruct (find_UsKingSquare_ok true Us pos HK) as (k & -> & Hk & Hp & Hf).
  destruct (find_UsKingSquare_ok false Us pos HK)
    as (k' & -> & Hk' & Hp' & Hf').
  f_equal. destruct (Z.lt_trichotomy k k') as [H | [H | H]].
  - exfalso. apply (Hf' k); [lia | assumption].
  - assumption.
  - exfalso. apply (Hf k'); [lia | assumption].
Qed.

Lemma score_connected_passed_debug (Us : Color) (e : Entry)
      (score : Score) (s : Square) :
  king_on_board pos Us ->
  piece_on pos s = make_piece Us PAWN ->
  score_connected_passed true Us pos e score s
  = score_connected_passed false Us pos e score s.
Proof.
  intros HK Hp. unfold score_connected_passed.
  rewrite Hp, piece_eqb_refl, !assert_holds, find_UsKingSquare_debug
    by assumption.
  reflexivity.
Qed.

Lemma evaluate_white_debug (e : Entry) :
  well_formed pos ->
  evaluate tbl true WHITE pos e = evaluate tbl false WHITE pos e.
Proof.
  intros W. unfold evaluate.
  rewrite (for_each_ext (score_pawn tbl true WHITE pos)
                        (score_pawn tbl false WHITE pos)).
  2:{ intros st x Hx. apply score_pawn_white_debug.
      apply (wf_list_board _ W), Hx. }
  destruct (for_each (score_pawn tbl false WHITE pos)
              (squares_of pos WHITE PAWN)
              (SCORE_ZERO, init_entry WHITE pos e))
    as [[sc e1] | w |]; cbn [bind]; [| reflexivity | reflexivity].
  rewrite (for_each_ext (score_connected_passed true WHITE pos e1)
                        (score_connected_passed false WHITE pos e1)).
  2:{ intros st x Hx. apply score_connected_passed_debug.
      - apply well_formed_king, W.
      - apply (wf_list_board _ W), Hx. }
  reflexivity.
Qed.

End Assertions.

(** C9.  On every well-formed position in which Black has a pawn on the
    seventh rank, the classifier for Black reaches the unconditional
    [assert(false)] of the rank-behind computation when assertions are
    checked; without assertions it returns a result, the protected-pawn
    check being skipped for a black pawn on the seventh rank.  For White
    the two builds agree, and a white pawn on the second rank skips the
    check with no assertion. *)
Theorem black_seventh_rank_assertion (tbl : ConnectedTable)
        (pos : Position) (e : Entry) :
  pos_is_ok pos = true ->
  (exists s, In s (squares_of pos BLACK PAWN) /\ rank_of s = RANK_7) ->
  evaluate tbl true BLACK pos e = AssertFailed A_rank_behind
  /\ (exists r, evaluate tbl false BLACK pos e = Ok r)
  /\ (forall s score, rank_of s = RANK_7 ->
        protected_score false BLACK pos s score = Ok score)
  /\ evaluate tbl true WHITE pos e = evaluate tbl false WHITE pos e
  /\ (forall debug s score, rank_of s = RANK_2 ->
        protected_score debug WHITE pos s score = Ok score).
Proof.
  intros Hok Hs. apply pos_is_ok_well_formed in Hok.
  split; [|split; [|split; [|split]]].
  - unfold evaluate. rewrite first_loop_black_debug; [reflexivity | | exact Hs].
    intros x Hx. apply (wf_list_board _ Hok), Hx.
  - apply evaluate_release_returns, well_formed_king, Hok.
  - intros s score Hr. unfold protected_score, rank_behind.
    rewrite Hr. reflexivity.
  - apply evaluate_white_debug, Hok.
  - intros debug s score Hr. unfold protected_score, rank_behind.
    rewrite Hr. reflexivity.
Qed.

Lemma black_seventh_rank_assertion_witness :
  evaluate Connected true BLACK start_position zero_entry
  = AssertFailed A_rank_behind
  /\ (exists r, evaluate Connected false BLACK start_position zero_entry
                = Ok r)
  /\ (forall s score, rank_of s = RANK_7 ->
        protected_score false BLACK start_position s score = Ok score)
  /\ evaluate Connected true WHITE start_position zero_entry
     = evaluate Connected false WHITE start_position zero_entry
  /\ (forall debug s score, rank_of s = RANK_2 ->
        protected_score debug WHITE start_position s score = Ok score).
Proof.
  apply (black_seventh_rank_assertion Connected start_position zero_entry).
  - vm_compute. reflexivity.
  - exists (make_square FILE_A RANK_7). split; [left|]; reflexivity.
Defined.

(** ** What the classifier leaves untouched *)

Lemma for_each_inv {A S} (body : S -> A -> outcome S) (Inv : S -> Prop)
      (l : list A) (st st' : S) :
  (forall st x st', body st x = Ok st' -> Inv st -> Inv st') ->
  Inv st -> for_each body l st = Ok st' -> Inv st'.
Proof.
  intros Hstep. revert st. induction l as [|x r IH]; intros st Hinv E.
  - cbn [for_each] in E. injection E as <-. assumption.
  - cbn [for_each] in E. destruct (body st x) as [st1 | w |] eqn:E1;
      cbn [bind] in E; try discriminate E.
    apply (IH st1); [|assumption]. apply (Hstep st x); assumption.
Qed.

Lemma score_pawn_frame (tbl : ConnectedTable) (debug : bool) (Us : Color)
      (pos : Position) (st st' : Score * Entry) (s : Square) :
  score_pawn tbl debug Us pos st s = Ok st' ->
  key (snd st') = key (snd st) /\ scores (snd st') = scores (snd st).
Proof.
  destruct st as [score e]. unfold score_pawn.
  destruct (assert_ debug A_pawn_on_square
              (piece_eqb (piece_on pos s) (make_piece Us PAWN)));
    cbn [bind]; try discriminate.
  destruct (structure_score tbl Us pos s _) as [sc wk].
  destruct (protected_score debug Us pos s sc); cbn [bind]; try discriminate.
  intros [= <-]. split; reflexivity.
Qed.

Lemma evaluate_frame (tbl : ConnectedTable) (debug : bool) (Us : Color)
      (pos : Position) (e e' : Entry) (sc : Score) :
  evaluate tbl debug Us pos e = Ok (sc, e') ->
  key e' = key e /\ scores e' = scores e.
Proof.
  unfold evaluate.
  destruct (for_each (score_pawn tbl debug Us pos) (squares_of pos Us PAWN)
              (SCORE_ZERO, init_entry Us pos e)) as [[sc1 e1] | w |] eqn:E1;
    cbn [bind]; try discriminate.
  destruct (for_each (score_connected_passed debug Us pos e1)
              (squares_of pos Us PAWN) sc1) as [sc2 | w |];
    cbn [bind]; try discriminate.
  intros [= <- <-].
  apply (for_each_inv _ (fun st => key (snd st) = key e
                                   /\ scores (snd st) = scores e)) in E1.
  - exact E1.
  - intros st x st' Hs [Hk Hsc]. apply score_pawn_frame in Hs.
    destruct Hs as [-> ->]. auto.
  - split; reflexivity.
Qed.

(** ** The pawn hash table *)

(** C1.  On a well-formed position, [probe] returns a record whose key is
    the position's pawn key, and that record is the one stored in the
    key's slot afterwards.  On a hit the stored record is returned as it
    is: the table is unchanged and the classifier is not run.  On a miss
    the classifier is run for both colours, and the key, the two scores,
    [openFiles] and [asymmetry] are set from its results.  In any build,
    a record returned by [probe] carries the position's key. *)
Theorem probe_returns_record_of_key (tbl : ConnectedTable) (pos : Position)
        (th : Thread) :
  pos_is_ok pos = true ->
  let stored := pawnsTable th (slot_of (pawn_key pos)) in
  (exists e th',
     probe tbl false pos th = Ok (e, th')
     /\ key e = pawn_key pos
     /\ pawnsTable th' (slot_of (pawn_key pos)) = e
     /\ (key stored = pawn_key pos -> e = stored /\ th' = th)
     /\ (key stored <> pawn_key pos ->
         exists sw ew sb eb,
           evaluate tbl false WHITE pos (set_key stored (pawn_key pos))
           = Ok (sw, ew)
           /\ evaluate tbl false BLACK pos
                (set_scores ew (set_color (scores ew) WHITE sw))
              = Ok (sb, eb)
           /\ at_color (scores e) WHITE = sw
           /\ at_color (scores e) BLACK = sb
           /\ openFiles e
              = popcount (Z.land (at_color (semiopenFiles eb) WHITE)
                                 (at_color (semiopenFiles eb) BLACK))
           /\ asymmetry e
              = popcount
                  (Z.lor (Z.lor (at_color (passedPawns eb) WHITE)
                                (at_color (passedPawns eb) BLACK))
                         (Z.lxor (at_color (semiopenFiles eb) WHITE)
                                 (at_color (semiopenFiles eb) BLACK)))
           /\ classifier_runs th' = (2 + classifier_runs th)%nat))
  /\ (forall debug e th',
        probe tbl debug pos th = Ok (e, th') -> key e = pawn_key pos).
Proof.
  intros Hok stored. apply pos_is_ok_well_formed in Hok. split.
  - unfold probe. fold stored.
    destruct (Z.eqb_spec (key stored) (pawn_key pos)) as [Hhit | Hmiss].
    + exists stored, th. repeat split; try assumption; try reflexivity.
      intros Hne. contradiction.
    + destruct (evaluate_release_returns tbl WHITE pos
                  (set_key stored (pawn_key pos))
                  (well_formed_king pos WHITE Hok))
        as [[sw ew] Ew].
      rewrite Ew. cbn [bind fst snd].
      destruct (evaluate_release_returns tbl BLACK pos
                  (set_scores ew (set_color (scores ew) WHITE sw))
                  (well_formed_king pos BLACK Hok))
        as [[sb eb] Eb].
      rewrite Eb. cbn [bind fst snd].
      destruct (evaluate_frame _ _ _ _ _ _ _ Ew) as [Kw Sw].
      destruct (evaluate_frame _ _ _ _ _ _ _ Eb) as [Kb Sb].
      eexists. eexists. split; [reflexivity|].
      split; [cbn; rewrite Kb; cbn; rewrite Kw; reflexivity|].
      split; [cbn; unfold table_store; rewrite Z.eqb_refl; reflexivity|].
      split; [intros Hk; contradiction|].
      intros _. exists sw, ew, sb, eb.
      split; [first [exact Ew | reflexivity]|].
      split; [first [exact Eb | reflexivity]|].
      split; [cbn; rewrite Sb; reflexivity|].
      split; [reflexivity|]. split; [reflexivity|].
      split; reflexivity.
  - intros debug e th'. unfold probe. fold stored.
    destruct (Z.eqb_spec (key stored) (pawn_key pos)) as [Hhit | Hmiss].
    + intros [= <- <-]. assumption.
    + destruct (evaluate tbl debug WHITE pos (set_key stored (pawn_key pos)))
        as [[sw ew] | w |] eqn:Ew; cbn [bind fst snd]; try discriminate.
      destruct (evaluate tbl debug BLACK pos
                  (set_scores ew (set_color (scores ew) WHITE sw)))
        as [[sb eb] | w |] eqn:Eb; cbn [bind fst snd]; try discriminate.
      intros [= <- <-].
      destruct (evaluate_frame _ _ _ _ _ _ _ Ew) as [Kw _].
      destruct (evaluate_frame _ _ _ _ _ _ _ Eb) as [Kb _].
      cbn. rewrite Kb. cbn. rewrite Kw. reflexivity.
Qed.

Lemma probe_returns_record_of_key_witness :
  exists e th',
    probe Connected false (with_pawn_key start_position 77) fresh_thread
    = Ok (e, th')
    /\ key e = 77.
Proof.
  destruct (probe_returns_record_of_key Connected
              (with_pawn_key start_position 77) fresh_thread)
    as [(e & th' & E & K & _) _]; [vm_compute; reflexivity|].
  exists e, th'. split; [exact E | exact K].
Defined.

(** ** The protected-passed-pawn term *)

(** C3, the code at the failing inputs.  With white pawns on e4 and d3 and
    no black pawn, e4 has no enemy pawn in its corridor and d3 stands
    diagonally behind it, yet [passed1] is false and no bonus is added: the
    score is the connected bonus (35, 8) alone.  With white pawns on e4,
    e5, d3 and a black pawn on e6, e4 has an enemy pawn in its corridor and
    is not in [passedPawns], yet [passed1] is true and the bonus is
    added. *)
Lemma protected_passed_pawn_tests_own_pawns :
  stoppers WHITE protected_position SQ_E4 = 0
  /\ is_our_pawn WHITE protected_position SQ_D3 = true
  /\ file_of SQ_D3 = file_of SQ_E4 - 1
  /\ rank_of SQ_D3 = rank_of SQ_E4 - 1
  /\ passed1 WHITE protected_position SQ_E4 = false
  /\ protected_score false WHITE protected_position SQ_E4 SCORE_ZERO
     = Ok SCORE_ZERO
  /\ (exists e', evaluate Connected false WHITE protected_position zero_entry
                 = Ok (make_score 35 8, e')
                 /\ Z.testbit (at_color (passedPawns e') WHITE) SQ_E4 = true)
  /\ stoppers WHITE stacked_position SQ_E4 = SquareBB SQ_E6
  /\ passed1 WHITE stacked_position SQ_E4 = true
  /\ protected_score false WHITE stacked_position SQ_E4 SCORE_ZERO
     = Ok ProtectedPassedPawn
  /\ (exists sc e', evaluate Connected false WHITE stacked_position zero_entry
                    = Ok (sc, e')
                    /\ Z.testbit (at_color (passedPawns e') WHITE) SQ_E4
                       = false).
Proof.
  repeat split; try (vm_compute; reflexivity).
  - eexists. split; vm_compute; reflexivity.
  - eexists. eexists. split; vm_compute; reflexivity.
Qed.

(** ** The connected-passed-pawns term *)

Lemma file_of_range (s : Square) : 0 <= file_of s <= 7.
Proof.
  unfold file_of.
  assert (E : Z.land s 7 = s mod 8).
  { change 7 with (Z.ones 3). apply Z.land_ones. lia. }
  rewrite E. pose proof (Z.mod_pos_bound s 8 ltac:(lia)). lia.
Qed.

Lemma scan_partner_cons (Us : Color) (pos : Position) (passed : Bitboard)
      (f0 : File) (r0 : Rank) (rest : list Rank) (passed0 : bool) :
  scan_partner Us pos passed f0 (r0 :: rest) passed0
  = if piece_eqb (piece_on pos (make_square f0 r0)) (make_piece Us PAWN)
    then if bb_true (Z.land passed (SquareBB (make_square f0 r0)))
         then true
         else scan_partner Us pos passed f0 rest false
    else scan_partner Us pos passed f0 rest passed0.
Proof.
  change (scan_partner Us pos passed f0 (r0 :: rest) passed0)
    with (let s0 := make_square f0 r0 in
          if piece_eqb (piece_on pos s0) (make_piece Us PAWN)
          then let p := bb_true (Z.land passed (SquareBB s0)) in
               if p then p else scan_partner Us pos passed f0 rest p
          else scan_partner Us pos passed f0 rest passed0).
  cbv zeta. destruct (piece_eqb _ _); [|reflexivity].
  destruct (bb_true _); reflexivity.
Qed.

(** The scan of lines 271-284 finds out whether a pawn of the file is
    flagged as passed. *)
Lemma scan_partner_spec (Us : Color) (pos : Position) (passed : Bitboard)
      (f0 : File) (ranks : list Rank) :
  scan_partner Us pos passed f0 ranks false
  = existsb (fun r0 =>
      piece_eqb (piece_on pos (make_square f0 r0)) (make_piece Us PAWN)
      && bb_true (Z.land passed (SquareBB (make_square f0 r0)))) ranks.
Proof.
  induction ranks as [|r0 rest IH]; [reflexivity|].
  rewrite scan_partner_cons. cbn [existsb].
  destruct (piece_eqb (piece_on pos (make_square f0 r0)) (make_piece Us PAWN));
    cbn [andb orb]; [|exact IH].
  destruct (bb_true (Z.land passed (SquareBB (make_square f0 r0))));
    cbn [orb]; [reflexivity | exact IH].
Qed.

(** C6, as amended.  In the second pass, when an own pawn on file [f]
    that is flagged as passed, and that the pass's own test of line 263
    takes as passed too, has a partner flagged as passed on file [f - 1]
    (on one of the ranks 2 to 7), the connected-passed-pawns bonus is
    added, and the king-safety compensation term is added if and only if
    the file of the own king lies between [f - 1] and [f + 1] inclusive
    ([f + 1] capped at file H). *)
Theorem connected_passed_king_window (debug : bool) (Us : Color)
        (pos : Position) (e : Entry) (score : Score) (s : Square) :
  king_on_board pos Us ->
  piece_on pos s = make_piece Us PAWN ->
  Z.testbit (at_color (passedPawns e) Us) s = true ->
  passed1 Us pos s = true ->
  FILE_A < file_of s ->
  passed_partner Us pos e (file_of s - 1) = true ->
  exists k,
    find_UsKingSquare debug Us pos = Ok k
    /\ piece_on pos k = make_piece Us KING
    /\ (file_of s - 1 <= file_of k <= Z.min (file_of s + 1) FILE_H ->
        score_connected_passed debug Us pos e score s
        = Ok (score + PawnScoresConnectedPassed
              + KingSafetyCompensationPawnScoresConnectedPassed)%score)
    /\ (~ (file_of s - 1 <= file_of k <= Z.min (file_of s + 1) FILE_H) ->
        score_connected_passed debug Us pos e score s
        = Ok (score + PawnScoresConnectedPassed)%score).
Proof.
  intros HK Hp _ Hp1 Ha Hpartner.
  destruct (find_UsKingSquare_ok debug Us pos HK) as (k & Ek & _ & Hk & _).
  exists k. split; [assumption|]. split; [assumption|].
  unfold score_connected_passed.
  rewrite Hp, piece_eqb_refl, assert_holds, Ek, Hp1. cbn [bind].
  unfold file_left, file_right, connected_passed_defend_king.
  pose proof (file_of_range s) as Hf. pose proof (file_of_range k) as Hkf.
  unfold FILE_A, FILE_H in *.
  destruct (Z.ltb_spec 0 (file_of s)) as [_ | Hno]; [|lia].
  destruct (Z.eqb_spec (file_of s - 1) (file_of s)) as [Habs | _]; [lia|].
  cbn [negb].
  rewrite scan_partner_spec. fold (passed_partner Us pos e (file_of s - 1)).
  rewrite Hpartner. cbn [andb].
  destruct (Z.ltb_spec (file_of s) 7) as [Hh | Hh];
    destruct (Z.leb_spec (file_of s - 1) (file_of k)) as [H1 | H1];
    cbn [andb].
  - destruct (Z.leb_spec (file_of k) (file_of s + 1)) as [H2 | H2];
      split; intros Hw; first [reflexivity | lia].
  - split; intros Hw; first [reflexivity | lia].
  - destruct (Z.leb_spec (file_of k) (file_of s)) as [H2 | H2];
      split; intros Hw; first [reflexivity | lia].
  - split; intros Hw; first [reflexivity | lia].
Qed.

Lemma connected_passed_king_window_witness :
  exists sc e1,
    evaluate Connected false WHITE duo_position zero_entry = Ok (sc, e1)
    /\ passed1 WHITE duo_position SQ_E4 = true
    /\ passed_partner WHITE duo_position e1 (file_of SQ_E4 - 1) = true
    /\ find_UsKingSquare false WHITE duo_position = Ok SQ_F1
    /\ file_of SQ_E4 - 1 <= file_of SQ_F1 <= Z.min (file_of SQ_E4 + 1) FILE_H
    /\ score_connected_passed false WHITE duo_position e1 SCORE_ZERO SQ_E4
       = Ok (SCORE_ZERO + PawnScoresConnectedPassed
             + KingSafetyCompensationPawnScoresConnectedPassed)%score.
Proof.
  eexists. eexists. split; [vm_compute; reflexivity|].
  split; [vm_compute; reflexivity|].
  split; [vm_compute; reflexivity|].
  split; [vm_compute; reflexivity|].
  assert (Hw : file_of SQ_E4 - 1 <= file_of SQ_F1
               <= Z.min (file_of SQ_E4 + 1) FILE_H)
    by (vm_compute; split; discriminate).
  split; [exact Hw|].
  match goal with
  | |- score_connected_passed _ _ _ ?e _ _ = _ =>
      destruct (connected_passed_king_window false WHITE duo_position e
                  SCORE_ZERO SQ_E4) as (k & Ek & _ & Hin & _)
  end.
  - exists SQ_F1. split; [unfold SQ_F1; lia | reflexivity].
  - reflexivity.
  - vm_compute. reflexivity.
  - vm_compute. reflexivity.
  - vm_compute. reflexivity.
  - vm_compute. reflexivity.
  - apply Hin.
    assert (Ef : find_UsKingSquare false WHITE duo_position = Ok SQ_F1)
      by (vm_compute; reflexivity).
    rewrite Ef in Ek. injection Ek as <-. exact Hw.
Defined.

(** C6, as stated, fails: with white pawns on e4 and d5 (both passed, no
    black pawn) and the white king on f1, the second pass adds the bonus
    for e4 with its partner d5 and adds the compensation term, although
    the king's file F lies outside the span D..E of the two pawns.
    Besides, with white pawns on e5 and d4 (both passed, no black pawn),
    the test of line 263 does not take e5 as passed, no own pawn standing
    in its corridor, and the second pass adds nothing for e5 although its
    partner d4 is flagged as passed. *)
Lemma connected_passed_king_outside_span :
  (exists sc e1,
      evaluate Connected false WHITE duo_position zero_entry = Ok (sc, e1)
      /\ Z.testbit (at_color (passedPawns e1) WHITE) SQ_E4 = true
      /\ Z.testbit (at_color (passedPawns e1) WHITE) SQ_D5 = true
      /\ stoppers WHITE duo_position SQ_E4 = 0
      /\ stoppers WHITE duo_position SQ_D5 = 0
      /\ file_of SQ_D5 = file_of SQ_E4 - 1
      /\ find_UsKingSquare false WHITE duo_position = Ok SQ_F1
      /\ ~ (file_of SQ_E4 - 1 <= file_of SQ_F1 <= file_of SQ_E4)
      /\ score_connected_passed false WHITE duo_position e1 SCORE_ZERO SQ_E4
         = Ok (SCORE_ZERO + PawnScoresConnectedPassed
               + KingSafetyCompensationPawnScoresConnectedPassed)%score)
  /\ (exists sc e2,
         evaluate Connected false WHITE echelon_position zero_entry
         = Ok (sc, e2)
         /\ Z.testbit (at_color (passedPawns e2) WHITE) SQ_E5 = true
         /\ Z.testbit (at_color (passedPawns e2) WHITE) SQ_D4 = true
         /\ stoppers WHITE echelon_position SQ_E5 = 0
         /\ stoppers WHITE echelon_position SQ_D4 = 0
         /\ file_of SQ_D4 = file_of SQ_E5 - 1
         /\ passed_partner WHITE echelon_position e2 (file_of SQ_E5 - 1)
            = true
         /\ passed1 WHITE echelon_position SQ_E5 = false
         /\ score_connected_passed false WHITE echelon_position e2
              SCORE_ZERO SQ_E5 = Ok SCORE_ZERO).
Proof.
  split.
  - eexists. eexists. split; [vm_compute; reflexivity|].
    repeat split; try (vm_compute; reflexivity).
    vm_compute. intros [_ H]. apply H. reflexivity.
  - eexists. eexists. split; [vm_compute; reflexivity|].
    repeat split; vm_compute; reflexivity.
Qed.

(** ** Bits of the bitboard operations *)

Lemma testbit_u64 (z j : Z) : 0 <= j < 64 -> Z.testbit (u64 z) j = Z.testbit z j.
Proof. intros Hj. unfold u64. apply Z.mod_pow2_bits_low. lia. Qed.

Lemma bb_ok_u64 (z : Z) : bb_ok (u64 z).
Proof. unfold bb_ok, u64. apply Z.mod_pos_bound. lia. Qed.

Lemma testbit_AllSquares (j : Z) : 0 <= j < 64 -> Z.testbit AllSquares j = true.
Proof.
  intros Hj. change AllSquares with (Z.ones 64). apply Z.ones_spec_low. lia.
Qed.

Lemma bb_ok_AllSquares : bb_ok AllSquares.
Proof. unfold bb_ok, AllSquares. lia. Qed.

Lemma testbit_bb_not (b j : Z) :
  0 <= j < 64 -> Z.testbit (bb_not b) j = negb (Z.testbit b j).
Proof.
  intros Hj. unfold bb_not. rewrite Z.lxor_spec, testbit_AllSquares by lia.
  apply xorb_true_r.
Qed.

Lemma bb_ok_bb_not (b : Z) : bb_ok b -> bb_ok (bb_not b).
Proof. intros Hb. apply bb_ok_lxor; [assumption | apply bb_ok_AllSquares]. Qed.

Lemma bb_ok_shiftr (b n : Z) : bb_ok b -> 0 <= n -> bb_ok (Z.shiftr b n).
Proof.
  intros Hb Hn. apply bb_ok_bits.
  - apply Z.shiftr_nonneg, Hb.
  - intros i Hi. rewrite Z.shiftr_spec by lia. apply testbit_high; [assumption|lia].
Qed.

Lemma bb_ok_shift (d : Direction) (b : Z) : bb_ok b -> bb_ok (shift d b).
Proof.
  intros Hb. destruct d; unfold shift; try apply bb_ok_u64;
    apply bb_ok_shiftr; try lia; try assumption; apply bb_ok_land, Hb.
Qed.

(** A push moves every square one rank toward the far side. *)
Lemma testbit_shift_up (Us : Color) (b j : Z) :
  0 <= j < 64 -> Z.testbit (shift (UpD Us) b) j = Z.testbit b (j - Up Us).
Proof.
  intros Hj. destruct Us; unfold UpD, Up, shift, NORTH, SOUTH.
  - rewrite testbit_u64, Z.shiftl_spec by lia. reflexivity.
  - rewrite Z.shiftr_spec by lia. reflexivity.
Qed.

(** *** The least significant square *)

Lemma pos_ctz_nonneg (p : positive) : 0 <= pos_ctz p.
Proof. induction p; cbn [pos_ctz]; lia. Qed.

Lemma pos_ctz_spec (p : positive) :
  Z.testbit (Zpos p) (pos_ctz p) = true
  /\ forall i, 0 <= i < pos_ctz p -> Z.testbit (Zpos p) i = false.
Proof.
  induction p as [p IH | p IH |].
  - split; [reflexivity|]. cbn [pos_ctz]. intros i Hi. lia.
  - destruct IH as [IH1 IH2]. pose proof (pos_ctz_nonneg p) as Hn.
    cbn [pos_ctz]. rewrite Pos2Z.inj_xO. split.
    + replace (1 + pos_ctz p) with (Z.succ (pos_ctz p)) by lia.
      rewrite Z.testbit_even_succ by assumption. assumption.
    + intros i Hi. destruct (Z.eq_dec i 0) as [-> | Hi0].
      * apply Z.testbit_even_0.
      * replace i with (Z.succ (i - 1)) by lia.
        rewrite Z.testbit_even_succ by lia. apply IH2. lia.
  - split; [reflexivity|]. cbn [pos_ctz]. intros i Hi. lia.
Qed.

Lemma lsb_spec (b : Z) :
  0 < b ->
  0 <= lsb b /\ Z.testbit b (lsb b) = true
  /\ forall i, 0 <= i < lsb b -> Z.testbit b i = false.
Proof.
  intros Hb. destruct b as [|p|p]; try lia. unfold lsb.
  split; [apply pos_ctz_nonneg | apply pos_ctz_spec].
Qed.

(** [b & (b - 1)] clears the least significant square of [b]. *)
Lemma pop_lsb_bits_pos (p : positive) (i : Z) :
  0 <= i ->
  Z.testbit (Z.land (Zpos p) (Zpos p - 1)) i
  = Z.testbit (Zpos p) i && negb (i =? pos_ctz p).
Proof.
  revert i. induction p as [p IH | p IH |]; intros i Hi.
  - cbn [pos_ctz]. rewrite Pos2Z.inj_xI.
    replace (2 * Z.pos p + 1 - 1) with (2 * Z.pos p) by lia.
    rewrite Z.land_spec. destruct (Z.eq_dec i 0) as [-> | Hi0].
    + rewrite Z.testbit_even_0. simpl. rewrite ?andb_false_r. reflexivity.
    + replace i with (Z.succ (i - 1)) by lia.
      rewrite Z.testbit_odd_succ, Z.testbit_even_succ by lia.
      destruct (Z.eqb_spec (Z.succ (i - 1)) 0); [lia|].
      simpl. rewrite andb_true_r. apply andb_diag.
  - cbn [pos_ctz]. rewrite Pos2Z.inj_xO. pose proof (pos_ctz_nonneg p) as Hn.
    replace (2 * Z.pos p - 1) with (2 * (Z.pos p - 1) + 1) by lia.
    rewrite Z.land_spec. destruct (Z.eq_dec i 0) as [-> | Hi0].
    + rewrite Z.testbit_even_0. reflexivity.
    + replace i with (Z.succ (i - 1)) by lia.
      rewrite Z.testbit_odd_succ, Z.testbit_even_succ by lia.
      rewrite <- Z.land_spec, IH by lia. f_equal. f_equal.
      destruct (Z.eqb_spec (i - 1) (pos_ctz p)),
               (Z.eqb_spec (Z.succ (i - 1)) (1 + pos_ctz p)); lia || reflexivity.
  - cbn [pos_ctz]. change (Z.land 1 (1 - 1)) with 0. rewrite Z.bits_0.
    destruct (Z.eq_dec i 0) as [-> | Hi0]; [reflexivity|].
    replace i with (Z.succ (i - 1)) by lia.
    change 1 with (2 * 0 + 1) at 1.
    rewrite Z.testbit_odd_succ, Z.bits_0 by lia. reflexivity.
Qed.

Lemma pop_lsb_bits (b i : Z) :
  0 < b -> 0 <= i ->
  Z.testbit (Z.land b (b - 1)) i = Z.testbit b i && negb (i =? lsb b).
Proof.
  intros Hb Hi. destruct b as [|p|p]; try lia.
  apply pop_lsb_bits_pos, Hi.
Qed.

Lemma lsb_range (b : Z) : bb_ok b -> 0 < b -> 0 <= lsb b < 64.
Proof.
  intros Hok Hb. destruct (lsb_spec b Hb) as (H0 & H1 & _).
  split; [assumption|]. destruct (Z.lt_ge_cases (lsb b) 64); [assumption|].
  rewrite testbit_high in H1 by assumption. discriminate.
Qed.

(** [more_than_one]: two different squares are in the set. *)
Lemma more_than_one_spec (b : Z) :
  bb_ok b ->
  (more_than_one b = true
   <-> exists i j, 0 <= i < j /\ j < 64
                   /\ Z.testbit b i = true /\ Z.testbit b j = true).
Proof.
  intros Hok. unfold more_than_one. fold (bb_true (Z.land b (b - 1))).
  rewrite bb_true_exists by (apply bb_ok_land, Hok).
  destruct (Z.eq_dec b 0) as [-> | Hne].
  - split.
    + intros (i & Hi & E). rewrite Z.land_0_l, Z.bits_0 in E. discriminate.
    + intros (i & j & _ & _ & E & _). rewrite Z.bits_0 in E. discriminate.
  - assert (Hb : 0 < b) by (destruct Hok; lia).
    destruct (lsb_spec b Hb) as (H0 & H1 & H2). split.
    + intros (j & Hj & E). rewrite pop_lsb_bits in E by lia.
      apply andb_true_iff in E. destruct E as [Ej En].
      apply negb_true_iff, Z.eqb_neq in En.
      exists (lsb b), j. repeat split; try assumption; try lia.
      destruct (Z.lt_ge_cases j (lsb b)) as [Hlt | Hge]; [|lia].
      rewrite H2 in Ej by lia. discriminate.
    + intros (i & j & Hij & Hj & Ei & Ej). exists j. split; [lia|].
      rewrite pop_lsb_bits, Ej by lia. simpl.
      apply negb_true_iff, Z.eqb_neq. intros ->.
      rewrite H2 in Ei by lia. discriminate.
Qed.

(** ** The second passed-pawn condition *)

Lemma on_all_pairs (P : Z -> Z -> bool) :
  forallb (fun s => forallb (P s) squares) squares = true ->
  forall s t, 0 <= s < 64 -> 0 <= t < 64 -> P s t = true.
Proof.
  intros H s t Hs Ht.
  pose proof (on_all_squares _ H s Hs) as H1. cbv beta in H1.
  apply (on_all_squares _ H1 t Ht).
Qed.

(** The mask of the supporters of a pawn, square by square. *)
Lemma support_mask_bits (Us : Color) (s t : Square) :
  0 <= s < 64 -> 0 <= t < 64 ->
  Z.testbit (Z.land (adjacent_files_bb (file_of s)) (rank_bb (s - Up Us))) t
  = (Z.abs (file_of t - file_of s) =? 1)
    && (rank_of t =? rank_of s - rank_step Us).
Proof.
  intros Hs Ht.
  pose (P := fun Us s t =>
    Bool.eqb
      (Z.testbit (Z.land (adjacent_files_bb (file_of s))
                         (rank_bb (s - Up Us))) t)
      ((Z.abs (file_of t - file_of s) =? 1)
       && (rank_of t =? rank_of s - rank_step Us))).
  assert (HP : P Us s t = true).
  { destruct Us; apply on_all_pairs; try assumption; vm_compute; reflexivity. }
  apply eqb_prop in HP. exact HP.
Qed.

(** The squares from which an enemy pawn attacks [x]. *)
Lemma PawnAttacks_bits (Us : Color) (x a : Square) :
  0 <= x < 64 -> 0 <= a < 64 ->
  Z.testbit (PawnAttacks Us x) a
  = (Z.abs (file_of a - file_of x) =? 1)
    && (rank_of a =? rank_of x + rank_step Us).
Proof.
  intros Hx Ha.
  pose (P := fun Us x a =>
    Bool.eqb (Z.testbit (PawnAttacks Us x) a)
             ((Z.abs (file_of a - file_of x) =? 1)
              && (rank_of a =? rank_of x + rank_step Us))).
  assert (HP : P Us x a = true).
  { destruct Us; apply on_all_pairs; try assumption; vm_compute; reflexivity. }
  apply eqb_prop in HP. exact HP.
Qed.

Ltac case_existsb E :=
  match goal with
  | |- context [existsb ?f squares] => destruct (existsb f squares) eqn:E
  end.

Section SecondCondition.

Variable Us : Color.
Variable pos : Position.
Hypothesis W : well_formed pos.

Lemma bb_ok_theirPawns : bb_ok (theirPawns Us pos).
Proof. apply bb_ok_pieces, W. Qed.

Lemma bb_ok_ourPawns : bb_ok (ourPawns Us pos).
Proof. apply bb_ok_pieces, W. Qed.

Lemma testbit_theirPawns (a : Square) :
  0 <= a < 64 ->
  Z.testbit (theirPawns Us pos) a
  = piece_eqb (piece_on pos a) (make_piece (Them Us) PAWN).
Proof. intros Ha. apply testbit_pawns; assumption. Qed.

Lemma testbit_attackers (x a : Square) :
  0 <= x < 64 -> 0 <= a < 64 ->
  Z.testbit (Z.land (theirPawns Us pos) (PawnAttacks Us x)) a
  = attacks Us pos a x.
Proof.
  intros Hx Ha. unfold attacks.
  rewrite Z.land_spec, testbit_theirPawns, PawnAttacks_bits by assumption.
  apply andb_assoc.
Qed.

Lemma more_than_one_attackers (x : Square) :
  0 <= x < 64 ->
  more_than_one (Z.land (theirPawns Us pos) (PawnAttacks Us x))
  = attacked_twice Us pos x.
Proof.
  intros Hx. apply eq_iff_eq_true.
  rewrite more_than_one_spec by (apply bb_ok_land, bb_ok_theirPawns).
  unfold attacked_twice. rewrite existsb_exists. split.
  - intros (i & j & Hij & Hj & Ei & Ej).
    rewrite testbit_attackers in Ei, Ej by lia.
    exists i. split; [apply In_squares; lia|].
    apply existsb_exists. exists j. split; [apply In_squares; lia|].
    rewrite Ei, Ej. rewrite !andb_true_r. lia.
  - intros (i & Hi & E). apply existsb_exists in E.
    destruct E as (j & Hj & E). apply In_squares in Hi, Hj.
    rewrite !andb_true_iff in E. destruct E as ((Hij & Ei) & Ej).
    exists i, j. rewrite !testbit_attackers by assumption.
    repeat split; try assumption; lia.
Qed.

(** The loop of lines 151-153 marks the pawn when one square of [b]
    passes the test of line 152. *)
Lemma sacrifice_loop_spec (s : Square) (turns : nat) :
  forall b passed,
    bb_ok b ->
    (forall i, 0 <= i < 64 - Z.of_nat turns -> Z.testbit b i = false) ->
    sacrifice_loop Us pos turns s b passed
    = if existsb (fun j =>
           Z.testbit b j
           && negb (more_than_one
                      (Z.land (theirPawns Us pos) (PawnAttacks Us j))))
         squares
      then Z.lor passed (SquareBB s) else passed.
Proof.
  induction turns as [|k IH]; intros b passed Hok Hlow.
  - cbn [sacrifice_loop].
    case_existsb E; [|reflexivity].
    apply existsb_exists in E. destruct E as (j & Hj & E).
    apply In_squares in Hj. rewrite Hlow in E by (simpl; lia). discriminate.
  - cbn [sacrifice_loop]. destruct (Z.eqb_spec b 0) as [-> | Hne].
    + case_existsb E; [|reflexivity].
      apply existsb_exists in E. destruct E as (j & Hj & E).
      rewrite Z.bits_0 in E. discriminate.
    + assert (Hb : 0 < b) by (destruct Hok; lia).
      destruct (lsb_spec b Hb) as (H0 & H1 & H2).
      pose proof (lsb_range b Hok Hb) as Hr.
      assert (Hsq : 63 - Z.of_nat k <= lsb b).
      { destruct (Z.lt_ge_cases (lsb b) (63 - Z.of_nat k)); [|lia].
        rewrite Hlow in H1 by lia. discriminate. }
      rewrite IH.
      2:{ apply bb_ok_land, Hok. }
      2:{ intros i Hi. rewrite pop_lsb_bits by lia.
          destruct (Z.eqb_spec i (lsb b)) as [-> | Hil];
            [apply andb_false_r|].
          rewrite andb_true_r.
          destruct (Z.lt_ge_cases i (lsb b)); [apply H2; lia|].
          apply Hlow. lia. }
      set (good := fun j =>
             negb (more_than_one
                     (Z.land (theirPawns Us pos) (PawnAttacks Us j)))).
      assert (Hex : existsb (fun j => Z.testbit b j && good j) squares
                    = good (lsb b)
                      || existsb (fun j => Z.testbit (Z.land b (b - 1)) j
                                           && good j) squares).
      { apply eq_iff_eq_true.
        rewrite orb_true_iff, !existsb_exists. split.
        - intros (j & Hj & E). apply andb_true_iff in E.
          destruct E as [Ej Eg].
          destruct (Z.eq_dec j (lsb b)) as [-> | Hjl]; [left; assumption|].
          right. exists j. split; [assumption|]. apply In_squares in Hj.
          rewrite pop_lsb_bits, Ej, Eg by lia.
          destruct (Z.eqb_spec j (lsb b)); [contradiction | reflexivity].
        - intros [Eg | (j & Hj & E)].
          + exists (lsb b). split; [apply In_squares, Hr|].
            rewrite H1, Eg. reflexivity.
          + exists j. split; [assumption|]. apply In_squares in Hj.
            rewrite pop_lsb_bits in E by lia.
            rewrite !andb_true_iff in E. rewrite andb_true_iff. tauto. }
      fold (good (lsb b)).
      change (existsb (fun j => Z.testbit (Z.land b (b - 1)) j
                 && negb (more_than_one
                           (Z.land (theirPawns Us pos) (PawnAttacks Us j))))
                squares)
        with (existsb (fun j => Z.testbit (Z.land b (b - 1)) j && good j)
                squares).
      change (existsb (fun j => Z.testbit b j
                 && negb (more_than_one
                           (Z.land (theirPawns Us pos) (PawnAttacks Us j))))
                squares)
        with (existsb (fun j => Z.testbit b j && good j) squares).
      rewrite Hex.
      destruct (good (lsb b)); cbn [negb orb].
      * case_existsb E; [|reflexivity].
        rewrite <- Z.lor_assoc, Z.lor_diag. reflexivity.
      * reflexivity.
Qed.

End SecondCondition.

Section SecondConditionSpec.

Variable Us : Color.
Variable pos : Position.
Hypothesis W : well_formed pos.

Lemma bb_ok_supported (s : Square) : bb_ok (supported Us pos s).
Proof.
  unfold supported, neighbours. apply bb_ok_land, bb_ok_land.
  apply bb_ok_ourPawns, W.
Qed.

Lemma supported_bits (s t : Square) :
  0 <= s < 64 -> 0 <= t < 64 ->
  Z.testbit (supported Us pos s) t = supports Us pos s t.
Proof.
  intros Hs Ht. unfold supported, neighbours, supports.
  rewrite <- Z.land_assoc, Z.land_spec, support_mask_bits by assumption.
  unfold ourPawns. rewrite testbit_pawns by assumption.
  apply andb_assoc.
Qed.

Lemma supported_on_board (s t : Square) :
  Z.testbit (supported Us pos s) t = true -> 0 <= t < 64.
Proof.
  intros E. split.
  - destruct (Z.lt_ge_cases t 0) as [Hneg | Hpos]; [|assumption].
    rewrite Z.testbit_neg_r in E by assumption. discriminate.
  - destruct (Z.lt_ge_cases t 64) as [Hlt | Hge]; [assumption|].
    rewrite testbit_high in E by (try apply bb_ok_supported; assumption).
    discriminate.
Qed.

Lemma flag_passed_spec (s : Square) (passed : Bitboard) :
  0 <= s < 64 ->
  passed_cond Us pos s = false ->
  flag_passed Us pos s passed
  = if blocked_cond Us pos s && sacrifice_opens Us pos s
    then Z.lor passed (SquareBB s) else passed.
Proof.
  intros Hs Hpc. unfold flag_passed. rewrite Hpc.
  destruct (blocked_cond Us pos s); cbn [andb]; [|reflexivity].
  rewrite (sacrifice_loop_spec Us pos).
  2:{ apply bb_ok_land, bb_ok_shift, bb_ok_supported. }
  2:{ intros i Hi. simpl in Hi. lia. }
  assert (E : existsb (fun j =>
                Z.testbit (Z.land (shift (UpD Us) (supported Us pos s))
                                  (bb_not (theirPawns Us pos))) j
                && negb (more_than_one
                           (Z.land (theirPawns Us pos) (PawnAttacks Us j))))
              squares
              = sacrifice_opens Us pos s).
  { apply eq_iff_eq_true. unfold sacrifice_opens.
    rewrite !existsb_exists. split.
    - intros (j & Hj & E). apply In_squares in Hj.
      rewrite Z.land_spec, testbit_shift_up, testbit_bb_not in E by assumption.
      rewrite !andb_true_iff in E. destruct E as ((Esup & Efree) & Egood).
      pose proof (supported_on_board _ _ Esup) as Ht.
      exists (j - Up Us). split; [apply In_squares, Ht|].
      replace (j - Up Us + Up Us) with j by lia.
      rewrite <- supported_bits, Esup by assumption.
      rewrite (proj2 (is_ok_spec j) Hj).
      rewrite <- (testbit_theirPawns Us pos W), Efree by assumption.
      rewrite <- (more_than_one_attackers Us pos W), Egood by assumption.
      reflexivity.
    - intros (t & Ht & E). apply In_squares in Ht.
      rewrite !andb_true_iff in E.
      destruct E as (((Esup & Eok) & Efree) & Egood).
      apply is_ok_spec in Eok.
      exists (t + Up Us). split; [apply In_squares, Eok|].
      rewrite Z.land_spec, testbit_shift_up, testbit_bb_not by assumption.
      replace (t + Up Us - Up Us) with t by lia.
      rewrite supported_bits, Esup by assumption.
      rewrite (testbit_theirPawns Us pos W), Efree by assumption.
      rewrite (more_than_one_attackers Us pos W), Egood by assumption.
      reflexivity. }
  rewrite E. reflexivity.
Qed.

End SecondConditionSpec.

(** C2, as amended.  A pawn of the scanned colour that fails the first
    passed-pawn condition is added to [passedPawns] exactly when its only
    stopper is the enemy pawn directly ahead of it (one rank ahead), it
    stands on relative rank 5 or beyond, and at least one own pawn that
    supports it (adjacent file, one rank behind) can step forward to a
    square that holds no enemy pawn and that at most one enemy pawn
    attacks; otherwise [passedPawns] is left as it is. *)
Theorem flag_passed_second_condition (Us : Color) (pos : Position)
        (s : Square) (passed : Bitboard) :
  pos_is_ok pos = true ->
  In s (squares_of pos Us PAWN) ->
  passed_cond Us pos s = false ->
  flag_passed Us pos s passed
  = if (stoppers Us pos s =? SquareBB (s + Up Us))
       && (RANK_5 <=? relative_rank Us s)
       && sacrifice_opens Us pos s
    then Z.lor passed (SquareBB s) else passed.
Proof.
  intros Hok Hin Hpc. apply pos_is_ok_well_formed in Hok.
  destruct (wf_list_board _ Hok Us s Hin) as [Hs _].
  apply (flag_passed_spec Us pos Hok s passed Hs Hpc).
Qed.

Lemma flag_passed_second_condition_witness :
  flag_passed WHITE blocked_position SQ_E5 0
  = if (stoppers WHITE blocked_position SQ_E5 =? SquareBB (SQ_E5 + Up WHITE))
       && (RANK_5 <=? relative_rank WHITE SQ_E5)
       && sacrifice_opens WHITE blocked_position SQ_E5
    then Z.lor 0 (SquareBB SQ_E5) else 0.
Proof.
  apply (flag_passed_second_condition WHITE blocked_position SQ_E5 0).
  - vm_compute. reflexivity.
  - left. reflexivity.
  - vm_compute. reflexivity.
Defined.

(** C2, as stated, fails in both directions.  With white pawns on e5 and
    d4 against a black pawn on e6, the pawn on e5 fails the first
    condition, its stopper stands one rank ahead (not two), and it is
    marked passed.  With a white pawn on e5 against a black pawn on e7,
    the only stopper stands two ranks ahead, the pawn is on rank 5 and no
    square on its way is attacked by two pawns, and it is not marked.
    With a lone white pawn on e5 against a black pawn on e6, no square on
    the way is attacked by two pawns either, but no supporter can step
    forward, and the pawn is not marked. *)
Lemma second_condition_not_as_specified :
  passed_cond WHITE blocked_position SQ_E5 = false
  /\ stoppers WHITE blocked_position SQ_E5 = SquareBB (SQ_E5 + 8)
  /\ second_condition_as_specified WHITE blocked_position SQ_E5 = false
  /\ flag_passed WHITE blocked_position SQ_E5 0 = SquareBB SQ_E5
  /\ (exists sc e', evaluate Connected false WHITE blocked_position zero_entry
                    = Ok (sc, e')
                    /\ Z.testbit (at_color (passedPawns e') WHITE) SQ_E5
                       = true)
  /\ passed_cond WHITE two_ahead_position SQ_E5 = false
  /\ stoppers WHITE two_ahead_position SQ_E5 = SquareBB (SQ_E5 + 16)
  /\ second_condition_as_specified WHITE two_ahead_position SQ_E5 = true
  /\ flag_passed WHITE two_ahead_position SQ_E5 0 = 0
  /\ (exists sc e', evaluate Connected false WHITE two_ahead_position
                      zero_entry = Ok (sc, e')
                    /\ Z.testbit (at_color (passedPawns e') WHITE) SQ_E5
                       = false)
  /\ passed_cond WHITE lone_blocked_position SQ_E5 = false
  /\ stoppers WHITE lone_blocked_position SQ_E5 = SquareBB (SQ_E5 + 8)
  /\ (RANK_5 <=? relative_rank WHITE SQ_E5) = true
  /\ path_lightly_attacked WHITE lone_blocked_position SQ_E5 = true
  /\ sacrifice_opens WHITE lone_blocked_position SQ_E5 = false
  /\ flag_passed WHITE lone_blocked_position SQ_E5 0 = 0.
Proof.
  repeat split; try (vm_compute; reflexivity).
  - eexists. eexists. split; vm_compute; reflexivity.
  - eexists. eexists. split; vm_compute; reflexivity.
Qed.

(** ** The vertical flip *)

Lemma flip_sq_involutive (s : Square) : flip_sq (flip_sq s) = s.
Proof.
  unfold flip_sq. rewrite Z.lxor_assoc, Z.lxor_nilpotent. apply Z.lxor_0_r.
Qed.

(** A square in coordinates: [s = 8 * rank + file]. *)
Lemma square_coords (s : Square) :
  0 <= s < 64 ->
  0 <= file_of s <= 7 /\ 0 <= rank_of s <= 7
  /\ s = 8 * rank_of s + file_of s
  /\ flip_sq s = 8 * (7 - rank_of s) + file_of s.
Proof.
  intros Hs.
  pose (P := fun s =>
    (0 <=? file_of s) && (file_of s <=? 7)
    && (0 <=? rank_of s) && (rank_of s <=? 7)
    && (s =? 8 * rank_of s + file_of s)
    && (flip_sq s =? 8 * (7 - rank_of s) + file_of s)).
  assert (HP : P s = true).
  { apply on_all_squares; [vm_compute; reflexivity | assumption]. }
  unfold P in HP. rewrite !andb_true_iff in HP. lia.
Qed.

Lemma coords_square (f r : Z) :
  0 <= f <= 7 -> 0 <= r <= 7 ->
  file_of (8 * r + f) = f /\ rank_of (8 * r + f) = r
  /\ flip_sq (8 * r + f) = 8 * (7 - r) + f.
Proof.
  intros Hf Hr.
  assert (Hs : 0 <= 8 * r + f < 64) by lia.
  destruct (square_coords _ Hs) as (H1 & H2 & H3 & H4).
  assert (rank_of (8 * r + f) = r) by lia.
  assert (file_of (8 * r + f) = f) by lia.
  repeat split; try assumption. lia.
Qed.

Lemma flip_sq_range (s : Square) : 0 <= s < 64 -> 0 <= flip_sq s < 64.
Proof. intros Hs. destruct (square_coords s Hs) as (? & ? & ? & ->). lia. Qed.

Lemma file_of_flip (s : Square) :
  0 <= s < 64 -> file_of (flip_sq s) = file_of s.
Proof.
  intros Hs. destruct (square_coords s Hs) as (Hf & Hr & _ & ->).
  apply coords_square; lia.
Qed.

Lemma rank_of_flip (s : Square) :
  0 <= s < 64 -> rank_of (flip_sq s) = 7 - rank_of s.
Proof.
  intros Hs. destruct (square_coords s Hs) as (Hf & Hr & _ & ->).
  apply coords_square; lia.
Qed.

(** Flipping exchanges the two forward directions. *)
Lemma Up_opp (c : Color) : Up (opp c) = - Up c.
Proof. destruct c; reflexivity. Qed.

Lemma flip_sq_up (c : Color) (s : Square) :
  0 <= s < 64 -> 0 <= s + Up c < 64 ->
  flip_sq (s + Up c) = flip_sq s + Up (opp c).
Proof.
  intros Hs Hu.
  destruct (square_coords s Hs) as (Hf & Hr & Es & Efs).
  destruct (square_coords _ Hu) as (Hf' & Hr' & Es' & ->).
  rewrite Efs, Up_opp.
  assert (Hu8 : Up c = 8 \/ Up c = -8) by (destruct c; auto).
  lia.
Qed.

(** *** Bits of a flipped bitboard *)

Lemma testbit_255 (j : Z) : Z.testbit 255 j = (0 <=? j) && (j <? 8).
Proof.
  change 255 with (Z.ones 8).
  destruct (Z.leb_spec 0 j) as [Hj | Hj].
  - rewrite Z.testbit_ones_nonneg by lia. reflexivity.
  - apply Z.testbit_neg_r. assumption.
Qed.

(** One rank of the flipped board. *)
Lemma flip_term_bit (b r i : Z) :
  0 <= r <= 7 -> 0 <= i ->
  Z.testbit (Z.shiftl (rank_byte b r) (8 * (7 - r))) i
  = (8 * (7 - r) <=? i) && (i <? 8 * (7 - r) + 8)
    && Z.testbit b (i - 56 + 16 * r).
Proof.
  intros Hr Hi. rewrite Z.shiftl_spec by assumption. unfold rank_byte.
  rewrite Z.land_spec, testbit_255.
  destruct (Z.leb_spec (8 * (7 - r)) i) as [H1 | H1].
  - rewrite Z.shiftr_spec by lia.
    replace (i - 8 * (7 - r) + 8 * r) with (i - 56 + 16 * r) by lia.
    destruct (Z.leb_spec 0 (i - 8 * (7 - r))); [|lia].
    destruct (Z.ltb_spec (i - 8 * (7 - r)) 8),
             (Z.ltb_spec i (8 * (7 - r) + 8)); try lia;
      simpl; rewrite ?andb_true_r, ?andb_false_r; reflexivity.
  - destruct (Z.leb_spec 0 (i - 8 * (7 - r))); [lia|].
    simpl. rewrite andb_false_r. reflexivity.
Qed.

Lemma testbit_flip_bb_gen (b i : Z) :
  0 <= i ->
  Z.testbit (flip_bb b) i = (i <? 64) && Z.testbit b (flip_sq i).
Proof.
  intros Hi. unfold flip_bb. cbn [fold_right].
  rewrite !Z.lor_spec, Z.bits_0, !flip_term_bit by lia.
  destruct (Z.ltb_spec i 64) as [Hlt | Hge].
  - destruct (square_coords i (conj Hi Hlt)) as (Hf & Hr & Ei & Efl).
    rewrite Efl. cbn [andb].
    assert (Hrow : rank_of i = 0 \/ rank_of i = 1 \/ rank_of i = 2
                   \/ rank_of i = 3 \/ rank_of i = 4 \/ rank_of i = 5
                   \/ rank_of i = 6 \/ rank_of i = 7) by lia.
    repeat match goal with
           | |- context [?a <=? ?b] => destruct (Z.leb_spec a b); try lia
           | |- context [?a <? ?b] => destruct (Z.ltb_spec a b); try lia
           end;
      cbn [andb orb]; rewrite ?orb_false_r; f_equal; lia.
  - cbn [andb].
    repeat match goal with
           | |- context [?a <? ?b] => destruct (Z.ltb_spec a b); try lia
           end;
      rewrite ?andb_false_r; reflexivity.
Qed.

Lemma testbit_flip_bb (b i : Z) :
  0 <= i < 64 -> Z.testbit (flip_bb b) i = Z.testbit b (flip_sq i).
Proof.
  intros Hi. rewrite testbit_flip_bb_gen by lia.
  destruct (Z.ltb_spec i 64); [reflexivity | lia].
Qed.

Lemma bb_ok_flip_bb (b : Z) : bb_ok (flip_bb b).
Proof.
  apply bb_ok_bits.
  - unfold flip_bb, rank_byte. cbn [fold_right].
    repeat (apply Z.lor_nonneg; split); try lia;
      apply Z.shiftl_nonneg, Z.land_nonneg; right; lia.
  - intros i Hi. rewrite testbit_flip_bb_gen by lia.
    destruct (Z.ltb_spec i 64); [lia | reflexivity].
Qed.

(** *** The flip and the set operations *)

Lemma flip_bb_involutive (b : Z) : bb_ok b -> flip_bb (flip_bb b) = b.
Proof.
  intros Hb. apply bb_ext; [apply bb_ok_flip_bb | assumption |].
  intros i Hi. rewrite !testbit_flip_bb, flip_sq_involutive;
    auto using flip_sq_range.
Qed.

Lemma flip_bb_land (a b : Z) :
  flip_bb (Z.land a b) = Z.land (flip_bb a) (flip_bb b).
Proof.
  apply bb_ext; [apply bb_ok_flip_bb | apply bb_ok_land, bb_ok_flip_bb |].
  intros i Hi. rewrite Z.land_spec, !testbit_flip_bb, Z.land_spec by assumption.
  reflexivity.
Qed.

Lemma flip_bb_lor (a b : Z) :
  flip_bb (Z.lor a b) = Z.lor (flip_bb a) (flip_bb b).
Proof.
  apply bb_ext; [apply bb_ok_flip_bb | apply bb_ok_lor; apply bb_ok_flip_bb |].
  intros i Hi. rewrite Z.lor_spec, !testbit_flip_bb, Z.lor_spec by assumption.
  reflexivity.
Qed.

Lemma flip_bb_lxor (a b : Z) :
  flip_bb (Z.lxor a b) = Z.lxor (flip_bb a) (flip_bb b).
Proof.
  apply bb_ext; [apply bb_ok_flip_bb | apply bb_ok_lxor; apply bb_ok_flip_bb |].
  intros i Hi. rewrite Z.lxor_spec, !testbit_flip_bb, Z.lxor_spec by assumption.
  reflexivity.
Qed.

Lemma flip_bb_0 : flip_bb 0 = 0.
Proof. reflexivity. Qed.

Lemma flip_bb_AllSquares : flip_bb AllSquares = AllSquares.
Proof. vm_compute. reflexivity. Qed.

Lemma flip_bb_bb_not (b : Z) : flip_bb (bb_not b) = bb_not (flip_bb b).
Proof. unfold bb_not. rewrite flip_bb_lxor, flip_bb_AllSquares. reflexivity. Qed.

Lemma flip_bb_inj (a b : Z) :
  bb_ok a -> bb_ok b -> flip_bb a = flip_bb b -> a = b.
Proof.
  intros Ha Hb E. rewrite <- (flip_bb_involutive a Ha), E.
  apply flip_bb_involutive, Hb.
Qed.

Lemma flip_bb_eqb (a b : Z) :
  bb_ok a -> bb_ok b -> (flip_bb a =? flip_bb b) = (a =? b).
Proof.
  intros Ha Hb. destruct (Z.eqb_spec a b) as [-> | Hne].
  - apply Z.eqb_refl.
  - apply Z.eqb_neq. intros E. apply Hne, flip_bb_inj; assumption.
Qed.

Lemma bb_true_flip (b : Z) : bb_ok b -> bb_true (flip_bb b) = bb_true b.
Proof.
  intros Hb. unfold bb_true. f_equal.
  rewrite <- flip_bb_0 at 1. apply flip_bb_eqb; [assumption | apply bb_ok_0].
Qed.

(** Flipping keeps the number of squares. *)
Lemma popcount_flip (b : Z) : popcount (flip_bb b) = popcount b.
Proof.
  unfold popcount, squares.
  cbn [seq map fold_right Z.of_nat Pos.of_succ_nat Pos.succ].
  rewrite !testbit_flip_bb by lia.
  repeat match goal with
         | |- context [flip_sq ?k] =>
             let v := eval vm_compute in (flip_sq k) in
             change (flip_sq k) with v
         end.
  lia.
Qed.

Lemma more_than_one_sym (b : Z) :
  bb_ok b ->
  (more_than_one b = true
   <-> exists i j, 0 <= i < 64 /\ 0 <= j < 64 /\ i <> j
                   /\ Z.testbit b i = true /\ Z.testbit b j = true).
Proof.
  intros Hb. rewrite more_than_one_spec by assumption. split.
  - intros (i & j & Hij & Hj & Ei & Ej). exists i, j.
    repeat split; try assumption; lia.
  - intros (i & j & Hi & Hj & Hne & Ei & Ej).
    destruct (Z.lt_ge_cases i j).
    + exists i, j. repeat split; try assumption; lia.
    + exists j, i. repeat split; try assumption; lia.
Qed.

Lemma more_than_one_flip (b : Z) :
  bb_ok b -> more_than_one (flip_bb b) = more_than_one b.
Proof.
  intros Hb. apply eq_iff_eq_true.
  rewrite !more_than_one_sym by (try apply bb_ok_flip_bb; assumption).
  split; intros (i & j & Hi & Hj & Hne & Ei & Ej);
    exists (flip_sq i), (flip_sq j);
    (split; [apply flip_sq_range, Hi|]);
    (split; [apply flip_sq_range, Hj|]);
    (split; [intros E; apply Hne;
             rewrite <- (flip_sq_involutive i), E; apply flip_sq_involutive|]).
  - rewrite <- !testbit_flip_bb by assumption. auto.
  - rewrite !testbit_flip_bb, !flip_sq_involutive
      by (apply flip_sq_range; assumption). auto.
Qed.

(** A push commutes with the flip, the direction being reversed. *)
Lemma flip_bb_shift_up (c : Color) (b : Z) :
  bb_ok b -> flip_bb (shift (UpD c) b) = shift (UpD (opp c)) (flip_bb b).
Proof.
  intros Hb.
  apply bb_ext; [apply bb_ok_flip_bb | apply bb_ok_shift, bb_ok_flip_bb |].
  intros i Hi. pose proof (flip_sq_range i Hi) as Hfi.
  rewrite testbit_flip_bb, !testbit_shift_up by assumption.
  assert (Hu8 : Up c = 8 \/ Up c = -8) by (destruct c; auto).
  rewrite Up_opp.
  destruct (Z.lt_ge_cases (i - - Up c) 0) as [Hneg | Hpos].
  - rewrite (Z.testbit_neg_r _ (i - - Up c)) by assumption.
    destruct (square_coords i Hi) as (Hf & Hr & Ei & Efl).
    apply testbit_high; [assumption | lia].
  - destruct (Z.lt_ge_cases (i - - Up c) 64) as [Hlt | Hge].
    + rewrite testbit_flip_bb by lia. f_equal.
      replace (i - - Up c) with (i + Up c) by lia.
      rewrite flip_sq_up, Up_opp by lia. reflexivity.
    + rewrite (testbit_high (flip_bb b)) by (try apply bb_ok_flip_bb; lia).
      destruct (square_coords i Hi) as (Hf & Hr & Ei & Efl).
      apply Z.testbit_neg_r. lia.
Qed.

(** *** Pawn attacks *)

Lemma masked_bit (b m k : Z) (cond : bool) :
  bb_ok b -> (0 <= k < 64 -> Z.testbit m k = cond) ->
  Z.testbit (Z.land b m) k = Z.testbit b k && cond.
Proof.
  intros Hb Hm. rewrite Z.land_spec.
  destruct (Z.lt_ge_cases k 0) as [Hneg | Hpos].
  - rewrite (Z.testbit_neg_r b) by assumption. reflexivity.
  - destruct (Z.lt_ge_cases k 64) as [Hlt | Hge].
    + rewrite Hm by lia. reflexivity.
    + rewrite (testbit_high b) by assumption. reflexivity.
Qed.

Lemma not_file_A_bits (k : Z) :
  0 <= k < 64 -> Z.testbit (bb_not FileABB) k = negb (file_of k =? FILE_A).
Proof.
  intros Hk.
  pose (P := fun k => Bool.eqb (Z.testbit (bb_not FileABB) k)
                               (negb (file_of k =? FILE_A))).
  assert (HP : P k = true)
    by (apply on_all_squares; [vm_compute; reflexivity | assumption]).
  apply eqb_prop in HP. exact HP.
Qed.

Lemma not_file_H_bits (k : Z) :
  0 <= k < 64 -> Z.testbit (bb_not FileHBB) k = negb (file_of k =? FILE_H).
Proof.
  intros Hk.
  pose (P := fun k => Bool.eqb (Z.testbit (bb_not FileHBB) k)
                               (negb (file_of k =? FILE_H))).
  assert (HP : P k = true)
    by (apply on_all_squares; [vm_compute; reflexivity | assumption]).
  apply eqb_prop in HP. exact HP.
Qed.

(** A pawn one file to the right of file A attacks toward file A, and so
    on: the file of the source decides the file of the target. *)
Lemma file_A_source (k j : Z) :
  0 <= j < 64 -> 0 <= k < 64 -> j = k + 7 \/ j = k - 9 ->
  (file_of k =? FILE_A) = (file_of j =? FILE_H).
Proof.
  intros Hj Hk Hjk.
  destruct (square_coords j Hj) as (Hfj & Hrj & Ej & _).
  destruct (square_coords k Hk) as (Hfk & Hrk & Ek & _).
  unfold FILE_A, FILE_H.
  destruct (Z.eqb_spec (file_of k) 0), (Z.eqb_spec (file_of j) 7);
    try reflexivity; lia.
Qed.

Lemma file_H_source (k j : Z) :
  0 <= j < 64 -> 0 <= k < 64 -> j = k + 9 \/ j = k - 7 ->
  (file_of k =? FILE_H) = (file_of j =? FILE_A).
Proof.
  intros Hj Hk Hjk.
  destruct (square_coords j Hj) as (Hfj & Hrj & Ej & _).
  destruct (square_coords k Hk) as (Hfk & Hrk & Ek & _).
  unfold FILE_A, FILE_H.
  destruct (Z.eqb_spec (file_of k) 7), (Z.eqb_spec (file_of j) 0);
    try reflexivity; lia.
Qed.

Lemma source_bit_A (b j k : Z) :
  bb_ok b -> 0 <= j < 64 -> j = k + 7 \/ j = k - 9 ->
  Z.testbit (Z.land b (bb_not FileABB)) k
  = Z.testbit b k && negb (file_of j =? FILE_H).
Proof.
  intros Hb Hj Hjk. apply masked_bit; [assumption|].
  intros Hk. rewrite not_file_A_bits by assumption. f_equal.
  apply file_A_source; assumption.
Qed.

Lemma source_bit_H (b j k : Z) :
  bb_ok b -> 0 <= j < 64 -> j = k + 9 \/ j = k - 7 ->
  Z.testbit (Z.land b (bb_not FileHBB)) k
  = Z.testbit b k && negb (file_of j =? FILE_A).
Proof.
  intros Hb Hj Hjk. apply masked_bit; [assumption|].
  intros Hk. rewrite not_file_H_bits by assumption. f_equal.
  apply file_H_source; assumption.
Qed.

(** The square [j] is attacked from the two squares diagonally behind
    it. *)
Lemma pawn_attacks_bits (c : Color) (b j : Z) :
  bb_ok b -> 0 <= j < 64 ->
  Z.testbit (pawn_attacks_bb c b) j
  = (Z.testbit b (j - Up c + 1) && negb (file_of j =? FILE_H))
    || (Z.testbit b (j - Up c - 1) && negb (file_of j =? FILE_A)).
Proof.
  intros Hb Hj. destruct c; unfold pawn_attacks_bb, shift, Up, NORTH, SOUTH;
    rewrite Z.lor_spec.
  - rewrite !testbit_u64, !Z.shiftl_spec by lia.
    rewrite (source_bit_A b j), (source_bit_H b j) by (assumption || lia).
    replace (j - 8 + 1) with (j - 7) by lia.
    replace (j - 8 - 1) with (j - 9) by lia. reflexivity.
  - rewrite !Z.shiftr_spec by lia.
    rewrite (source_bit_A b j), (source_bit_H b j) by (assumption || lia).
    replace (j - -8 + 1) with (j + 9) by lia.
    replace (j - -8 - 1) with (j + 7) by lia. reflexivity.
Qed.

Lemma bb_ok_pawn_attacks (c : Color) (b : Z) :
  bb_ok b -> bb_ok (pawn_attacks_bb c b).
Proof.
  intros Hb. destruct c; unfold pawn_attacks_bb;
    apply bb_ok_lor; apply bb_ok_shift; assumption.
Qed.

Lemma Up_step (c : Color) : exists u, (u = 1 \/ u = -1) /\ Up c = 8 * u.
Proof. destruct c; [exists 1 | exists (-1)]; split; auto. Qed.

Lemma flip_diag_bit (c : Color) (b i d : Z) :
  bb_ok b -> 0 <= i < 64 ->
  (d = 1 /\ file_of i <= 6) \/ (d = -1 /\ 1 <= file_of i) ->
  Z.testbit (flip_bb b) (i - Up (opp c) + d)
  = Z.testbit b (flip_sq i - Up c + d).
Proof.
  intros Hb Hi Hd.
  destruct (square_coords i Hi) as (Hf & Hr & Ei & Efl).
  destruct (Up_step c) as (u & Hu & EU).
  rewrite Up_opp, EU. set (k := i - - (8 * u) + d).
  assert (Ek : k = 8 * (rank_of i + u) + (file_of i + d)) by (unfold k; lia).
  destruct (Z.lt_ge_cases k 0) as [Hneg | Hpos].
  - rewrite (Z.testbit_neg_r _ k) by assumption. symmetry.
    apply testbit_high; [assumption | lia].
  - destruct (Z.lt_ge_cases k 64) as [Hlt | Hge].
    + rewrite testbit_flip_bb by lia. f_equal.
      assert (Hrk : 0 <= rank_of i + u <= 7) by lia.
      rewrite Ek.
      destruct (coords_square (file_of i + d) (rank_of i + u))
        as (_ & _ & ->); [lia | lia |].
      lia.
    + rewrite (testbit_high (flip_bb b)) by (try apply bb_ok_flip_bb; lia).
      symmetry. apply Z.testbit_neg_r. lia.
Qed.

Lemma flip_pawn_attacks (c : Color) (b : Z) :
  bb_ok b ->
  flip_bb (pawn_attacks_bb c b) = pawn_attacks_bb (opp c) (flip_bb b).
Proof.
  intros Hb.
  apply bb_ext;
    [apply bb_ok_flip_bb | apply bb_ok_pawn_attacks, bb_ok_flip_bb |].
  intros i Hi. pose proof (flip_sq_range i Hi) as Hfi.
  pose proof (file_of_range i) as Hf.
  rewrite testbit_flip_bb, !pawn_attacks_bits, file_of_flip
    by (try apply bb_ok_flip_bb; assumption).
  unfold FILE_A, FILE_H.
  destruct (Z.eqb_spec (file_of i) 7) as [H7 | H7];
    destruct (Z.eqb_spec (file_of i) 0) as [H0 | H0];
    cbn [negb]; rewrite ?andb_false_r, ?andb_true_r, ?orb_false_r;
    cbn [orb]; try lia.
  - symmetry. apply flip_diag_bit; [assumption | assumption | right; lia].
  - symmetry. apply flip_diag_bit; [assumption | assumption | left; lia].
  - f_equal; symmetry; apply flip_diag_bit; try assumption; [left | right]; lia.
Qed.

(** ** The mask tables under the flip *)

Lemma flip_masks (c : Color) (s : Square) :
  0 <= s < 64 ->
  SquareBB (flip_sq s) = flip_bb (SquareBB s)
  /\ forward_file_bb (opp c) (flip_sq s) = flip_bb (forward_file_bb c s)
  /\ pawn_attack_span (opp c) (flip_sq s) = flip_bb (pawn_attack_span c s)
  /\ passed_pawn_mask (opp c) (flip_sq s) = flip_bb (passed_pawn_mask c s)
  /\ PawnAttacks (opp c) (flip_sq s) = flip_bb (PawnAttacks c s)
  /\ rank_bb (flip_sq s) = flip_bb (rank_bb s)
  /\ adjacent_files_bb (file_of (flip_sq s))
     = flip_bb (adjacent_files_bb (file_of s))
  /\ relative_rank (opp c) (flip_sq s) = relative_rank c s.
Proof.
  intros Hs.
  pose (P := fun c s =>
    (SquareBB (flip_sq s) =? flip_bb (SquareBB s))
    && (forward_file_bb (opp c) (flip_sq s) =? flip_bb (forward_file_bb c s))
    && (pawn_attack_span (opp c) (flip_sq s)
        =? flip_bb (pawn_attack_span c s))
    && (passed_pawn_mask (opp c) (flip_sq s)
        =? flip_bb (passed_pawn_mask c s))
    && (PawnAttacks (opp c) (flip_sq s) =? flip_bb (PawnAttacks c s))
    && (rank_bb (flip_sq s) =? flip_bb (rank_bb s))
    && (adjacent_files_bb (file_of (flip_sq s))
        =? flip_bb (adjacent_files_bb (file_of s)))
    && (relative_rank (opp c) (flip_sq s) =? relative_rank c s)).
  assert (HP : P c s = true).
  { destruct c; apply on_all_squares; try assumption; vm_compute; reflexivity. }
  unfold P in HP. rewrite !andb_true_iff, !Z.eqb_eq in HP.
  repeat match goal with H : _ /\ _ |- _ => destruct H end.
  repeat split; assumption.
Qed.

Lemma flip_DarkSquares : flip_bb DarkSquares = bb_not DarkSquares.
Proof. vm_compute. reflexivity. Qed.

(** ** The mirrored position *)

Section Mirror.

Variable c : Color.
Variable pos : Position.
Variable mkey : Key.
Hypothesis W : well_formed pos.

Lemma pieces_flip (pt : PieceType) :
  pieces (flip_position mkey pos) (opp c) pt = flip_bb (pieces pos c pt).
Proof.
  unfold pieces, flip_position. cbn [byColorBB byTypeBB].
  rewrite opp_involutive, flip_bb_land. reflexivity.
Qed.

Lemma ourPawns_flip :
  ourPawns (opp c) (flip_position mkey pos) = flip_bb (ourPawns c pos).
Proof. apply pieces_flip. Qed.

Lemma theirPawns_flip :
  theirPawns (opp c) (flip_position mkey pos) = flip_bb (theirPawns c pos).
Proof.
  unfold theirPawns, Them, pieces, flip_position. cbn [byColorBB byTypeBB].
  rewrite flip_bb_land, opp_involutive. reflexivity.
Qed.

Lemma piece_on_flip (s : Square) :
  piece_on (flip_position mkey pos) (flip_sq s) = flip_piece (piece_on pos s).
Proof.
  unfold piece_on, flip_position. cbn [board].
  rewrite flip_sq_involutive. reflexivity.
Qed.

Lemma squares_of_flip :
  squares_of (flip_position mkey pos) (opp c) PAWN
  = map flip_sq (squares_of pos c PAWN).
Proof.
  unfold squares_of, flip_position. cbn [pieceList].
  rewrite opp_involutive. reflexivity.
Qed.

Lemma count_flip :
  count (flip_position mkey pos) (opp c) PAWN = count pos c PAWN.
Proof.
  unfold count, flip_position. cbn [pieceCount].
  rewrite opp_involutive. reflexivity.
Qed.

Lemma piece_eqb_flip (d : Color) (pt : PieceType) (pc : Piece) :
  piece_eqb (flip_piece pc) (make_piece (opp d) pt)
  = piece_eqb pc (make_piece d pt).
Proof. destruct pc as [|d' pt']; [reflexivity|]. destruct d, d'; reflexivity. Qed.

(** A pawn of colour [c] stands on [s]: the squares before and behind it
    are on the board. *)
Variable s : Square.
Hypothesis Hin : In s (squares_of pos c PAWN).

Lemma pawn_square : 0 <= s < 64 /\ RANK_1 < rank_of s < RANK_8.
Proof.
  destruct (wf_list_board _ W c s Hin) as [Hs Hp]. split; [assumption|].
  apply (wf_pawn_rank _ W); [assumption|].
  unfold type_on. unfold piece_on in Hp. rewrite Hp. reflexivity.
Qed.

Lemma pawn_square_up : 0 <= s + Up c < 64 /\ 0 <= s - Up c < 64.
Proof.
  destruct pawn_square as [Hs Hr]. unfold RANK_1, RANK_8 in Hr.
  destruct (square_coords s Hs) as (Hf & _ & Es & _).
  destruct (Up_step c) as (u & Hu & ->). lia.
Qed.

Lemma flip_up : flip_sq s + Up (opp c) = flip_sq (s + Up c).
Proof.
  symmetry. apply flip_sq_up; [apply pawn_square | apply pawn_square_up].
Qed.

Lemma flip_down : flip_sq s - Up (opp c) = flip_sq (s - Up c).
Proof.
  destruct pawn_square as [Hs _]. destruct pawn_square_up as [_ Hd].
  rewrite Up_opp.
  replace (s - Up c) with (s + Up (opp c)) by (rewrite Up_opp; lia).
  rewrite flip_sq_up, opp_involutive by (rewrite ?Up_opp; lia || assumption).
  lia.
Qed.

(** *** The flags of the mirrored pawn *)

Let pos' := flip_position mkey pos.
Let s' := flip_sq s.

Lemma stoppers_flip :
  stoppers (opp c) pos' s' = flip_bb (stoppers c pos s).
Proof.
  destruct pawn_square as [Hs _].
  destruct (flip_masks c s Hs) as (_ & _ & _ & E & _).
  unfold stoppers, pos', s'. rewrite theirPawns_flip, E, flip_bb_land.
  reflexivity.
Qed.

Lemma lever_flip : lever (opp c) pos' s' = flip_bb (lever c pos s).
Proof.
  destruct pawn_square as [Hs _].
  destruct (flip_masks c s Hs) as (_ & _ & _ & _ & E & _).
  unfold lever, pos', s'. rewrite theirPawns_flip, E, flip_bb_land.
  reflexivity.
Qed.

Lemma leverPush_flip :
  leverPush (opp c) pos' s' = flip_bb (leverPush c pos s).
Proof.
  destruct pawn_square_up as [Hu _].
  destruct (flip_masks c _ Hu) as (_ & _ & _ & _ & E & _).
  unfold leverPush, pos', s'. rewrite theirPawns_flip, flip_up, E, flip_bb_land.
  reflexivity.
Qed.

Lemma doubled_flip : doubled (opp c) pos' s' = flip_bb (doubled c pos s).
Proof.
  destruct pawn_square_up as [_ Hd].
  destruct (flip_masks c _ Hd) as (E & _).
  unfold doubled, pos', s'. rewrite ourPawns_flip, flip_down, E, flip_bb_land.
  reflexivity.
Qed.

Lemma neighbours_flip :
  neighbours (opp c) pos' s' = flip_bb (neighbours c pos s).
Proof.
  destruct pawn_square as [Hs _].
  destruct (flip_masks c s Hs) as (_ & _ & _ & _ & _ & _ & E & _).
  unfold neighbours, pos', s'. rewrite ourPawns_flip, E, flip_bb_land.
  reflexivity.
Qed.

Lemma phalanx_flip : phalanx (opp c) pos' s' = flip_bb (phalanx c pos s).
Proof.
  destruct pawn_square as [Hs _].
  destruct (flip_masks c s Hs) as (_ & _ & _ & _ & _ & E & _).
  unfold phalanx. rewrite neighbours_flip. unfold s'.
  rewrite E, flip_bb_land. reflexivity.
Qed.

Lemma supported_flip :
  supported (opp c) pos' s' = flip_bb (supported c pos s).
Proof.
  destruct pawn_square_up as [_ Hd].
  destruct (flip_masks c _ Hd) as (_ & _ & _ & _ & _ & E & _).
  unfold supported. rewrite neighbours_flip. unfold s'.
  rewrite flip_down, E, flip_bb_land. reflexivity.
Qed.

Lemma opposed_flip : opposed (opp c) pos' s' = opposed c pos s.
Proof.
  destruct pawn_square as [Hs _].
  destruct (flip_masks c s Hs) as (_ & E & _).
  unfold opposed, pos', s'. rewrite theirPawns_flip, E, <- flip_bb_land.
  apply bb_true_flip, bb_ok_land, bb_ok_theirPawns, W.
Qed.

Lemma backward_flip : backward (opp c) pos' s' = backward c pos s.
Proof.
  destruct pawn_square_up as [Hu _].
  destruct (flip_masks (Them c) _ Hu) as (_ & _ & Espan & _).
  destruct (flip_masks c _ Hu) as (Esq & _).
  unfold backward. rewrite stoppers_flip, leverPush_flip.
  unfold pos', s'. rewrite ourPawns_flip, flip_up, Esq.
  unfold Them in *. rewrite Espan.
  rewrite <- flip_bb_lor, <- !flip_bb_land.
  rewrite !bb_true_flip; [reflexivity | |].
  - apply bb_ok_land. unfold stoppers. apply bb_ok_land, bb_ok_theirPawns, W.
  - apply bb_ok_land, bb_ok_ourPawns, W.
Qed.

Lemma passed_cond_flip : passed_cond (opp c) pos' s' = passed_cond c pos s.
Proof.
  destruct pawn_square as [Hs _].
  destruct (flip_masks c s Hs) as (_ & Eff & _).
  unfold passed_cond.
  rewrite stoppers_flip, lever_flip, leverPush_flip, supported_flip,
    phalanx_flip, !popcount_flip.
  unfold pos', s'. rewrite ourPawns_flip, Eff.
  rewrite <- !flip_bb_lxor, <- flip_bb_land.
  rewrite !bb_true_flip; [reflexivity | |].
  - apply bb_ok_land, bb_ok_ourPawns, W.
  - unfold stoppers, lever, leverPush.
    repeat apply bb_ok_lxor; apply bb_ok_land, bb_ok_theirPawns, W.
Qed.

Lemma blocked_cond_flip : blocked_cond (opp c) pos' s' = blocked_cond c pos s.
Proof.
  destruct pawn_square as [Hs _]. destruct pawn_square_up as [Hu _].
  destruct (flip_masks c s Hs) as (_ & _ & _ & _ & _ & _ & _ & Err).
  destruct (flip_masks c _ Hu) as (Esq & _).
  unfold blocked_cond. rewrite stoppers_flip. unfold s'.
  rewrite flip_up, Esq, Err, flip_bb_eqb; [reflexivity | |].
  - unfold stoppers. apply bb_ok_land, bb_ok_theirPawns, W.
  - apply bb_ok_SquareBB.
Qed.

End Mirror.

(** ** The passed-pawn flag of the mirrored pawn *)

Lemma existsb_ext_in {A} (f g : A -> bool) (l : list A) :
  (forall x, In x l -> f x = g x) -> existsb f l = existsb g l.
Proof.
  induction l as [|x r IH]; intros H; [reflexivity|]. cbn [existsb].
  rewrite (H x) by (left; reflexivity). f_equal.
  apply IH. intros y Hy. apply H. right. assumption.
Qed.

(** A search over the board may visit the flipped squares instead. *)
Lemma existsb_flip (g : Z -> bool) :
  existsb (fun j => g (flip_sq j)) squares = existsb g squares.
Proof.
  apply eq_iff_eq_true. rewrite !existsb_exists. split.
  - intros (j & Hj & E). exists (flip_sq j). split; [|assumption].
    apply In_squares, flip_sq_range, In_squares, Hj.
  - intros (j & Hj & E). exists (flip_sq j). split.
    + apply In_squares, flip_sq_range, In_squares, Hj.
    + rewrite flip_sq_involutive. assumption.
Qed.

Section MirrorPawn.

Variable tbl : ConnectedTable.
Variable c : Color.
Variable pos : Position.
Variable mkey : Key.
Hypothesis W : well_formed pos.
Variable s : Square.
Hypothesis Hin : In s (squares_of pos c PAWN).

Let pos' := flip_position mkey pos.
Let s' := flip_sq s.

Lemma flag_passed_flip (passed : Bitboard) :
  flag_passed (opp c) pos' s' (flip_bb passed)
  = flip_bb (flag_passed c pos s passed).
Proof.
  destruct (pawn_square c pos W s Hin) as [Hs _].
  destruct (flip_masks c s Hs) as (Esq & _).
  unfold flag_passed, pos', s'.
  rewrite passed_cond_flip, blocked_cond_flip by assumption.
  destruct (passed_cond c pos s).
  { rewrite flip_bb_lor, Esq. reflexivity. }
  destruct (blocked_cond c pos s); [|reflexivity].
  rewrite supported_flip, theirPawns_flip by assumption.
  rewrite <- flip_bb_shift_up by (apply bb_ok_supported, W).
  rewrite <- flip_bb_bb_not, <- flip_bb_land.
  rewrite !sacrifice_loop_spec.
  2:{ apply bb_ok_land, bb_ok_shift, bb_ok_supported, W. }
  2:{ intros i Hi. simpl in Hi. lia. }
  2:{ apply bb_ok_flip_bb. }
  2:{ intros i Hi. simpl in Hi. lia. }
  rewrite theirPawns_flip.
  set (b := Z.land (shift (UpD c) (supported c pos s))
                   (bb_not (theirPawns c pos))).
  set (G := fun j =>
         Z.testbit b j
         && negb (more_than_one
                    (Z.land (theirPawns c pos) (PawnAttacks c j)))).
  assert (E : existsb (fun j =>
                Z.testbit (flip_bb b) j
                && negb (more_than_one
                           (Z.land (flip_bb (theirPawns c pos))
                                   (PawnAttacks (opp c) j)))) squares
              = existsb G squares).
  { rewrite <- (existsb_flip G). apply existsb_ext_in.
    intros j Hj. apply In_squares in Hj. unfold G.
    rewrite testbit_flip_bb by assumption. f_equal. f_equal.
    destruct (flip_masks c (flip_sq j) (flip_sq_range j Hj))
      as (_ & _ & _ & _ & EPA & _).
    rewrite flip_sq_involutive in EPA. rewrite EPA, <- flip_bb_land.
    apply more_than_one_flip, bb_ok_land, bb_ok_theirPawns, W. }
  rewrite E.
  change (existsb (fun j => Z.testbit b j
            && negb (more_than_one
                      (Z.land (theirPawns c pos) (PawnAttacks c j))))
            squares) with (existsb G squares).
  destruct (existsb G squares); [|reflexivity].
  rewrite flip_bb_lor, Esq. reflexivity.
Qed.

End MirrorPawn.

(** ** The scores of the mirrored pawn *)

Lemma at_set_color {T} (a : ByColor T) (c : Color) (x : T) :
  at_color (set_color a c x) c = x.
Proof. destruct c; reflexivity. Qed.

Lemma make_square_coords (f r : Z) : make_square f r = 8 * r + f.
Proof. unfold make_square. rewrite Z.shiftl_mul_pow2 by lia. lia. Qed.

Lemma flip_make_square (f r : Z) :
  0 <= f <= 7 -> 0 <= r <= 7 ->
  flip_sq (make_square f r) = make_square f (7 - r).
Proof.
  intros Hf Hr. rewrite !make_square_coords.
  destruct (coords_square f r Hf Hr) as (_ & _ & ->). reflexivity.
Qed.

Lemma file_left_range (f : File) : 0 <= f <= 7 -> 0 <= file_left f <= 7.
Proof. unfold file_left, FILE_A. destruct (Z.ltb_spec 0 f); lia. Qed.

Lemma file_right_range (f : File) : 0 <= f <= 7 -> 0 <= file_right f <= 7.
Proof. unfold file_right, FILE_H. destruct (Z.ltb_spec f 7); lia. Qed.

Section MirrorScore.

Variable tbl : ConnectedTable.
Variable c : Color.
Variable pos : Position.
Variable mkey : Key.
Hypothesis W : well_formed pos.
Variable s : Square.
Hypothesis Hin : In s (squares_of pos c PAWN).

Let pos' := flip_position mkey pos.
Let s' := flip_sq s.

Lemma structure_score_flip (acc : Score * Z) :
  structure_score tbl (opp c) pos' s' acc = structure_score tbl c pos s acc.
Proof.
  destruct (pawn_square c pos W s Hin) as [Hs _].
  destruct (flip_masks c s Hs) as (_ & _ & _ & _ & _ & _ & _ & Err).
  unfold structure_score, pos', s'.
  rewrite supported_flip, phalanx_flip, neighbours_flip, doubled_flip,
    opposed_flip, backward_flip, Err, popcount_flip by assumption.
  rewrite <- flip_bb_lor.
  assert (Hsup : bb_ok (supported c pos s)) by (apply bb_ok_supported, W).
  assert (Hnb : bb_ok (neighbours c pos s))
    by (apply bb_ok_land, bb_ok_ourPawns, W).
  assert (Hph : bb_ok (phalanx c pos s)) by (apply bb_ok_land, Hnb).
  assert (Hdb : bb_ok (doubled c pos s))
    by (apply bb_ok_land, bb_ok_ourPawns, W).
  rewrite !bb_true_flip by (try apply bb_ok_lor; assumption).
  reflexivity.
Qed.

Lemma passed1_flip : passed1 (opp c) pos' s' = passed1 c pos s.
Proof.
  destruct (pawn_square c pos W s Hin) as [Hs _].
  destruct (flip_masks c s Hs) as (_ & _ & _ & E & _).
  unfold passed1, pos', s'. rewrite ourPawns_flip, E, <- flip_bb_land.
  apply bb_true_flip, bb_ok_land_r, bb_ok_ourPawns, W.
Qed.

Lemma rank_behind_flip (r : Rank) :
  0 <= r <= 7 ->
  exists rpp, rank_behind false c r = Ok rpp
              /\ rank_behind false (opp c) (7 - r) = Ok (7 - rpp)
              /\ 0 <= rpp <= 7.
Proof.
  intros Hr. unfold rank_behind, assert_, RANK_2, RANK_7.
  destruct c; cbn [opp andb bind].
  - destruct (Z.ltb_spec 1 r), (Z.ltb_spec (7 - r) 6); try lia;
      eexists; (split; [reflexivity|]); (split; [f_equal; lia | lia]).
  - destruct (Z.ltb_spec r 6), (Z.ltb_spec 1 (7 - r)); try lia;
      eexists; (split; [reflexivity|]); (split; [f_equal; lia | lia]).
Qed.

Lemma is_our_pawn_flip (f r : Z) :
  0 <= f <= 7 -> 0 <= r <= 7 ->
  is_our_pawn (opp c) pos' (make_square f (7 - r))
  = is_our_pawn c pos (make_square f r).
Proof.
  intros Hf Hr. unfold is_our_pawn, pos'.
  rewrite <- flip_make_square, piece_on_flip by assumption.
  rewrite piece_eqb_sym, piece_eqb_flip. apply piece_eqb_sym.
Qed.

Lemma protected_passed_pawn_flip (rpp : Rank) :
  0 <= rpp <= 7 ->
  protected_passed_pawn (opp c) pos' s' (7 - rpp)
  = protected_passed_pawn c pos s rpp.
Proof.
  intros Hr. destruct (pawn_square c pos W s Hin) as [Hs _].
  pose proof (file_of_range s) as Hf.
  unfold protected_passed_pawn, s'. rewrite file_of_flip by assumption.
  rewrite !is_our_pawn_flip
    by (assumption || exact (file_left_range _ Hf)
        || exact (file_right_range _ Hf)).
  reflexivity.
Qed.

Lemma protected_score_flip (score : Score) :
  protected_score false (opp c) pos' s' score
  = protected_score false c pos s score.
Proof.
  destruct (pawn_square c pos W s Hin) as [Hs _].
  destruct (square_coords s Hs) as (_ & Hr & _).
  unfold protected_score. unfold s'.
  rewrite rank_of_flip by assumption.
  destruct (rank_behind_flip (rank_of s) Hr) as (rpp & -> & -> & Hrpp).
  cbn [bind]. change (flip_sq s) with s'.
  rewrite passed1_flip, protected_passed_pawn_flip by assumption.
  replace (7 - rpp =? 7 - rank_of s) with (rpp =? rank_of s); [reflexivity|].
  destruct (Z.eqb_spec rpp (rank_of s)), (Z.eqb_spec (7 - rpp) (7 - rank_of s));
    try reflexivity; lia.
Qed.

(** One turn of the first loop keeps the two records mirrored and adds the
    same score. *)
Lemma score_pawn_flip (score : Score) (e e' : Entry) :
  mirrored c e e' ->
  exists score2 e2 e2',
    score_pawn tbl false c pos (score, e) s = Ok (score2, e2)
    /\ score_pawn tbl false (opp c) pos' (score, e') s' = Ok (score2, e2')
    /\ mirrored c e2 e2'.
Proof.
  intros (Mp & Ma & Msp & Mso & Mw & Mb & Mwh).
  destruct (pawn_square c pos W s Hin) as [Hs _].
  destruct (flip_masks c s Hs) as (_ & _ & Espan & _).
  unfold score_pawn, assert_. cbn [andb bind].
  cbn [weakUnopposed set_passedPawns set_pawnAttacksSpan set_semiopenFiles].
  rewrite Mw, structure_score_flip.
  destruct (structure_score tbl c pos s (score, at_color (weakUnopposed e) c))
    as [sc wk].
  rewrite protected_score_flip.
  destruct (protected_score false c pos s sc) as [sc2 | w |] eqn:Ep.
  2:{ unfold protected_score in Ep.
      destruct (rank_behind_flip (rank_of s)) as (rpp & Er & _).
      { apply square_coords, Hs. }
      rewrite Er in Ep. cbn [bind] in Ep.
      repeat match type of Ep with
             | context [if ?b then _ else _] => destruct b
             end; discriminate Ep. }
  2:{ unfold protected_score in Ep.
      destruct (rank_behind_flip (rank_of s)) as (rpp & Er & _).
      { apply square_coords, Hs. }
      rewrite Er in Ep. cbn [bind] in Ep.
      repeat match type of Ep with
             | context [if ?b then _ else _] => destruct b
             end; discriminate Ep. }
  cbn [bind]. eexists. eexists. eexists.
  split; [reflexivity|]. split; [reflexivity|].
  unfold mirrored.
  cbn [passedPawns pawnAttacks pawnAttacksSpan semiopenFiles weakUnopposed
       pawnsOnSquares set_weakUnopposed set_passedPawns set_pawnAttacksSpan
       set_semiopenFiles].
  rewrite !at_set_color.
  repeat split; try assumption.
  - rewrite Mp. apply flag_passed_flip; assumption.
  - rewrite Msp. unfold s'. rewrite Espan, flip_bb_lor. reflexivity.
  - rewrite Mso. unfold s'. rewrite file_of_flip by assumption. reflexivity.
Qed.

End MirrorScore.

(** ** The second loop on the mirrored position *)

Section MirrorSecondLoop.

Variable c : Color.
Variable pos : Position.
Variable mkey : Key.
Hypothesis W : well_formed pos.

Let pos' := flip_position mkey pos.

Lemma scan_partner_flip (passed : Bitboard) (f0 : File) :
  0 <= f0 <= 7 ->
  scan_partner (opp c) pos' (flip_bb passed) f0 ranks_2_to_7 false
  = scan_partner c pos passed f0 ranks_2_to_7 false.
Proof.
  intros Hf. rewrite !scan_partner_spec.
  set (g := fun r0 =>
         piece_eqb (piece_on pos (make_square f0 r0)) (make_piece c PAWN)
         && bb_true (Z.land passed (SquareBB (make_square f0 r0)))).
  assert (E : forall r0, 0 <= r0 <= 7 ->
            piece_eqb (piece_on pos' (make_square f0 r0))
                      (make_piece (opp c) PAWN)
            && bb_true (Z.land (flip_bb passed) (SquareBB (make_square f0 r0)))
            = g (7 - r0)).
  { intros r0 Hr. unfold g, pos'.
    replace (make_square f0 r0) with (flip_sq (make_square f0 (7 - r0))).
    2:{ rewrite flip_make_square by lia. f_equal. lia. }
    assert (Hsq : 0 <= make_square f0 (7 - r0) < 64)
      by (rewrite make_square_coords; lia).
    destruct (flip_masks c _ Hsq) as (Esq & _).
    rewrite piece_on_flip, piece_eqb_flip, Esq, <- flip_bb_land.
    rewrite bb_true_flip by apply bb_ok_land_r, bb_ok_SquareBB.
    reflexivity. }
  unfold ranks_2_to_7, RANK_2, RANK_3, RANK_4, RANK_5, RANK_6, RANK_7.
  cbn [existsb]. rewrite !E by lia.
  change (7 - 1) with 6. change (7 - 2) with 5. change (7 - 3) with 4.
  change (7 - 4) with 3. change (7 - 5) with 2. change (7 - 6) with 1.
  fold (g 1) (g 2) (g 3) (g 4) (g 5) (g 6).
  destruct (g 1), (g 2), (g 3), (g 4), (g 5), (g 6); reflexivity.
Qed.

Lemma king_on_board_flip : king_on_board pos' (opp c).
Proof.
  destruct (wf_king _ W c) as (k & Hk & Hp & _).
  exists (flip_sq k). split; [apply flip_sq_range, Hk|].
  unfold pos'. rewrite piece_on_flip, Hp. reflexivity.
Qed.

Lemma find_UsKingSquare_flip :
  exists k k',
    find_UsKingSquare false c pos = Ok k
    /\ find_UsKingSquare false (opp c) pos' = Ok k'
    /\ file_of k' = file_of k.
Proof.
  destruct (find_UsKingSquare_ok false c pos (well_formed_king pos c W))
    as (k & Ek & Hk & Hp & _).
  destruct (find_UsKingSquare_ok false (opp c) pos' king_on_board_flip)
    as (k' & Ek' & Hk' & Hp' & _).
  exists k, k'. split; [assumption|]. split; [assumption|].
  destruct (wf_king _ W c) as (k0 & _ & _ & Hu).
  assert (E : piece_on pos (flip_sq k') = make_piece c KING).
  { unfold pos', piece_on, flip_position in Hp'. cbn [board] in Hp'.
    unfold piece_on. destruct (board pos (flip_sq k')) as [|d pt];
      [discriminate Hp'|].
    unfold flip_piece, make_piece in *. injection Hp' as Hd ->.
    destruct d, c; try discriminate Hd; reflexivity. }
  rewrite <- (file_of_flip k') by assumption.
  rewrite (Hu k Hk Hp), (Hu (flip_sq k') (flip_sq_range k' Hk') E).
  reflexivity.
Qed.

Variable s : Square.
Hypothesis Hin : In s (squares_of pos c PAWN).

Lemma score_connected_passed_flip (e e' : Entry) (score : Score) :
  at_color (passedPawns e') (opp c) = flip_bb (at_color (passedPawns e) c) ->
  score_connected_passed false (opp c) pos' e' score (flip_sq s)
  = score_connected_passed false c pos e score s.
Proof.
  intros Mp. destruct (pawn_square c pos W s Hin) as [Hs _].
  pose proof (file_of_range s) as Hf.
  unfold score_connected_passed, assert_. cbn [andb bind].
  rewrite file_of_flip by assumption. unfold pos'.
  rewrite passed1_flip, Mp by assumption.
  rewrite scan_partner_flip by exact (file_left_range _ Hf).
  destruct find_UsKingSquare_flip as (k & k' & Ek & Ek' & Ef).
  unfold pos' in Ek'. rewrite Ek, Ek'. cbn [bind]. rewrite Ef.
  reflexivity.
Qed.

End MirrorSecondLoop.

(** ** Counting pawns *)

Lemma sum_bits_ext {A} (f g : A -> bool) (l : list A) :
  (forall x, In x l -> f x = g x) ->
  fold_right (fun s n => Z.b2z (f s) + n) 0 l
  = fold_right (fun s n => Z.b2z (g s) + n) 0 l.
Proof.
  induction l as [|x r IH]; intros H; [reflexivity|]. cbn [fold_right].
  rewrite (H x) by (left; reflexivity). f_equal.
  apply IH. intros y Hy. apply H. right. assumption.
Qed.

Lemma sum_bits_split {A} (g h k : A -> bool) (l : list A) :
  (forall x, In x l -> Z.b2z (g x) = Z.b2z (h x) + Z.b2z (k x)) ->
  fold_right (fun s n => Z.b2z (g s) + n) 0 l
  = fold_right (fun s n => Z.b2z (h s) + n) 0 l
    + fold_right (fun s n => Z.b2z (k s) + n) 0 l.
Proof.
  induction l as [|x r IH]; intros H; [reflexivity|]. cbn [fold_right].
  rewrite (H x) by (left; reflexivity).
  rewrite IH by (intros y Hy; apply H; right; assumption). lia.
Qed.

Lemma sum_bits_filter {A} (f : A -> bool) (l : list A) :
  fold_right (fun s n => Z.b2z (f s) + n) 0 l
  = Z.of_nat (length (filter f l)).
Proof.
  induction l as [|x r IH]; [reflexivity|]. cbn [fold_right filter].
  rewrite IH. destruct (f x); cbn [Z.b2z length]; lia.
Qed.

Lemma sum_bits_members (dom l : list Z) (f : Z -> bool) :
  NoDup dom -> NoDup l ->
  (forall x, In x l <-> In x dom /\ f x = true) ->
  fold_right (fun s n => Z.b2z (f s) + n) 0 dom = Z.of_nat (length l).
Proof.
  intros Hdom Hl Hmem. rewrite sum_bits_filter. f_equal.
  apply Permutation_length, NoDup_Permutation.
  - apply NoDup_filter, Hdom.
  - assumption.
  - intros x. rewrite filter_In. symmetry. apply Hmem.
Qed.

Lemma NoDup_squares : NoDup squares.
Proof.
  unfold squares. apply Injective_map_NoDup.
  - intros x y. apply Nat2Z.inj.
  - apply seq_NoDup.
Qed.

(** The piece count is the number of squares of the pawn bitboard. *)
Lemma count_popcount (pos : Position) (c : Color) :
  well_formed pos -> count pos c PAWN = popcount (pieces pos c PAWN).
Proof.
  intros W. unfold count. rewrite (wf_count _ W). unfold popcount.
  rewrite (sum_bits_ext _
             (fun s => piece_eqb (piece_on pos s) (make_piece c PAWN))).
  2:{ intros x Hx. apply testbit_pawns; [assumption | apply In_squares, Hx]. }
  symmetry. apply sum_bits_members.
  - apply NoDup_squares.
  - apply (wf_list_nodup _ W).
  - intros x. rewrite In_squares, piece_eqb_eq. split.
    + apply (wf_list_board _ W).
    + intros [Hx Hp]. apply (wf_board_list _ W); assumption.
Qed.

Lemma popcount_split (b m : Z) :
  popcount b = popcount (Z.land b m) + popcount (Z.land b (bb_not m)).
Proof.
  unfold popcount. apply sum_bits_split. intros x Hx.
  apply In_squares in Hx.
  rewrite !Z.land_spec, testbit_bb_not by assumption.
  destruct (Z.testbit b x), (Z.testbit m x); reflexivity.
Qed.

Lemma bb_ok_DarkSquares : bb_ok DarkSquares.
Proof. unfold bb_ok, DarkSquares. lia. Qed.

(** ** The whole classifier on the mirrored position *)

Lemma for_each_mirror {A A' S S'} (R : S -> S' -> Prop)
      (body : S -> A -> outcome S) (body' : S' -> A' -> outcome S')
      (f : A -> A') (l : list A) (st : S) (st' : S') :
  (forall st st' x, In x l -> R st st' ->
     exists a b, body st x = Ok a /\ body' st' (f x) = Ok b /\ R a b) ->
  R st st' ->
  exists a b, for_each body l st = Ok a
              /\ for_each body' (map f l) st' = Ok b /\ R a b.
Proof.
  revert st st'. induction l as [|x r IH]; intros st st' Hstep HR.
  - exists st, st'. cbn [for_each map]. auto.
  - cbn [for_each map].
    destruct (Hstep st st' x (or_introl eq_refl) HR) as (a & b & -> & -> & HR').
    cbn [bind]. apply IH; [|assumption].
    intros st0 st0' y Hy. apply Hstep. right. assumption.
Qed.

Lemma init_entry_flip (c : Color) (pos : Position) (mkey : Key)
      (e e' : Entry) :
  well_formed pos ->
  mirrored c (init_entry c pos e) (init_entry (opp c) (flip_position mkey pos) e').
Proof.
  intros W. unfold mirrored, init_entry.
  cbn [passedPawns pawnAttacks pawnAttacksSpan semiopenFiles weakUnopposed
       pawnsOnSquares set_weakUnopposed set_passedPawns set_pawnAttacksSpan
       set_semiopenFiles set_kingSquares set_pawnAttacks set_pawnsOnSquares].
  rewrite !at_set_color.
  assert (Edark : popcount (Z.land (ourPawns (opp c) (flip_position mkey pos))
                                   DarkSquares)
                  = popcount (Z.land (ourPawns c pos) (bb_not DarkSquares))).
  { rewrite ourPawns_flip, <- flip_DarkSquares.
    rewrite <- (flip_bb_involutive DarkSquares bb_ok_DarkSquares) at 1.
    rewrite <- flip_bb_land, popcount_flip. reflexivity. }
  pose proof (popcount_split (ourPawns c pos) DarkSquares) as Hsplit.
  pose proof (count_popcount pos c W) as Hcount.
  fold (ourPawns c pos) in Hcount.
  repeat split.
  - rewrite ourPawns_flip. symmetry.
    apply flip_pawn_attacks, bb_ok_ourPawns, W.
  - destruct c; cbn [opp set_color at_color of_white of_black] in *;
      rewrite Edark; lia.
  - rewrite count_flip.
    destruct c; cbn [opp set_color at_color of_white of_black] in *;
      rewrite Edark; lia.
Qed.

Lemma evaluate_flip (tbl : ConnectedTable) (c : Color) (pos : Position)
      (mkey : Key) (e e' : Entry) :
  well_formed pos ->
  exists score r r',
    evaluate tbl false c pos e = Ok (score, r)
    /\ evaluate tbl false (opp c) (flip_position mkey pos) e' = Ok (score, r')
    /\ mirrored c r r'.
Proof.
  intros W. unfold evaluate. rewrite squares_of_flip.
  destruct (for_each_mirror
              (fun st st' => fst st = fst st' /\ mirrored c (snd st) (snd st'))
              (score_pawn tbl false c pos)
              (score_pawn tbl false (opp c) (flip_position mkey pos))
              flip_sq (squares_of pos c PAWN)
              (SCORE_ZERO, init_entry c pos e)
              (SCORE_ZERO, init_entry (opp c) (flip_position mkey pos) e'))
    as ([sc1 e1] & [sc1' e1'] & -> & -> & Hsc & M).
  { intros [sc0 e0] [sc0' e0'] x Hx [Hs0 M0]. cbn [fst snd] in Hs0, M0.
    subst sc0'.
    destruct (score_pawn_flip tbl c pos mkey W x Hx sc0 e0 e0' M0)
      as (sc2 & e2 & e2' & E1 & E2 & M2).
    exists (sc2, e2), (sc2, e2'). cbn [fst snd]. auto. }
  { cbn [fst snd]. split; [reflexivity|]. apply init_entry_flip, W. }
  cbn [fst snd] in Hsc, M. subst sc1'. cbn [bind].
  destruct (for_each_mirror (fun a b => a = b)
              (score_connected_passed false c pos e1)
              (score_connected_passed false (opp c)
                 (flip_position mkey pos) e1')
              flip_sq (squares_of pos c PAWN) sc1 sc1)
    as (sc2 & sc2' & -> & -> & <-).
  { intros a b x Hx <-.
    destruct (score_connected_passed_release c pos e1 a x
                (well_formed_king pos c W)) as [a' Ea].
    exists a', a'. split; [assumption|]. split; [|reflexivity].
    rewrite <- Ea. apply score_connected_passed_flip; try assumption.
    apply M. }
  { reflexivity. }
  cbn [bind]. exists sc2, e1, e1'. auto.
Qed.

(** ** The other colour's fields *)

Lemma at_set_color_other {T} (a : ByColor T) (c : Color) (x : T) :
  at_color (set_color a c x) (opp c) = at_color a (opp c).
Proof. destruct c; reflexivity. Qed.

Lemma same_side_refl (c : Color) (e : Entry) : same_side c e e.
Proof. unfold same_side. repeat split. Qed.

Lemma same_side_trans (c : Color) (e1 e2 e3 : Entry) :
  same_side c e1 e2 -> same_side c e2 e3 -> same_side c e1 e3.
Proof.
  unfold same_side. intros (A1 & A2 & A3 & A4 & A5 & A6)
                           (B1 & B2 & B3 & B4 & B5 & B6).
  repeat split; congruence.
Qed.

Lemma init_entry_other (Us : Color) (pos : Position) (e : Entry) :
  same_side (opp Us) e (init_entry Us pos e).
Proof.
  unfold same_side, init_entry.
  cbn [passedPawns pawnAttacks pawnAttacksSpan semiopenFiles weakUnopposed
       pawnsOnSquares set_weakUnopposed set_passedPawns set_pawnAttacksSpan
       set_semiopenFiles set_kingSquares set_pawnAttacks set_pawnsOnSquares].
  rewrite !at_set_color_other. repeat split.
Qed.

Lemma score_pawn_other (tbl : ConnectedTable) (debug : bool) (Us : Color)
      (pos : Position) (st st' : Score * Entry) (s : Square) :
  score_pawn tbl debug Us pos st s = Ok st' ->
  same_side (opp Us) (snd st) (snd st').
Proof.
  destruct st as [score e]. unfold score_pawn.
  destruct (assert_ debug A_pawn_on_square
              (piece_eqb (piece_on pos s) (make_piece Us PAWN)));
    cbn [bind]; try discriminate.
  destruct (structure_score tbl Us pos s _) as [sc wk].
  destruct (protected_score debug Us pos s sc); cbn [bind]; try discriminate.
  intros [= <-]. unfold same_side.
  cbn [snd passedPawns pawnAttacks pawnAttacksSpan semiopenFiles weakUnopposed
       pawnsOnSquares set_weakUnopposed set_passedPawns set_pawnAttacksSpan
       set_semiopenFiles].
  rewrite !at_set_color_other. repeat split.
Qed.

Lemma evaluate_other (tbl : ConnectedTable) (debug : bool) (Us : Color)
      (pos : Position) (e e' : Entry) (sc : Score) :
  evaluate tbl debug Us pos e = Ok (sc, e') -> same_side (opp Us) e e'.
Proof.
  unfold evaluate.
  destruct (for_each (score_pawn tbl debug Us pos) (squares_of pos Us PAWN)
              (SCORE_ZERO, init_entry Us pos e)) as [[sc1 e1] | w |] eqn:E1;
    cbn [bind]; try discriminate.
  destruct (for_each (score_connected_passed debug Us pos e1)
              (squares_of pos Us PAWN) sc1) as [sc2 | w |];
    cbn [bind]; try discriminate.
  intros [= <- <-].
  apply (for_each_inv _ (fun st => same_side (opp Us) e (snd st))) in E1.
  - exact E1.
  - intros st x st' Hs Hinv. apply score_pawn_other in Hs.
    apply (same_side_trans _ _ _ _ Hinv Hs).
  - apply init_entry_other.
Qed.

Lemma mirrored_same_side (c : Color) (e1 e2 e1' e2' : Entry) :
  same_side c e1 e2 -> same_side (opp c) e1' e2' ->
  mirrored c e1 e1' -> mirrored c e2 e2'.
Proof.
  unfold same_side, mirrored.
  intros (A1 & A2 & A3 & A4 & A5 & A6) (B1 & B2 & B3 & B4 & B5 & B6)
         (M1 & M2 & M3 & M4 & M5 & M6 & M7).
  rewrite A1, A2, A3, A4, A5, A6, B1, B2, B3, B4, B5, B6.
  repeat split; assumption.
Qed.

Lemma mirrored_fields (c : Color) (e e' r r' : Entry) :
  passedPawns r = passedPawns e -> pawnAttacks r = pawnAttacks e ->
  pawnAttacksSpan r = pawnAttacksSpan e -> semiopenFiles r = semiopenFiles e ->
  weakUnopposed r = weakUnopposed e -> pawnsOnSquares r = pawnsOnSquares e ->
  passedPawns r' = passedPawns e' -> pawnAttacks r' = pawnAttacks e' ->
  pawnAttacksSpan r' = pawnAttacksSpan e' ->
  semiopenFiles r' = semiopenFiles e' ->
  weakUnopposed r' = weakUnopposed e' ->
  pawnsOnSquares r' = pawnsOnSquares e' ->
  mirrored c e e' -> mirrored c r r'.
Proof.
  unfold mirrored. intros -> -> -> -> -> -> -> -> -> -> -> ->. auto.
Qed.

(** ** Builds with assertions *)

Lemma for_each_impl {A S} (f g : S -> A -> outcome S) (l : list A)
      (st r : S) :
  (forall st x st', f st x = Ok st' -> g st x = Ok st') ->
  for_each f l st = Ok r -> for_each g l st = Ok r.
Proof.
  intros H. revert st. induction l as [|x l' IH]; intros st E.
  - exact E.
  - cbn [for_each] in *. destruct (f st x) as [st' | w |] eqn:Ef;
      cbn [bind] in E; try discriminate E.
    rewrite (H _ _ _ Ef). cbn [bind]. apply IH, E.
Qed.

Lemma king_walk_debug_ok (Us : Color) (pos : Position) (room : nat)
      (sq k : Square) :
  king_walk true Us pos room sq = Ok k ->
  king_walk false Us pos room sq = Ok k.
Proof.
  revert sq. induction room as [|room IH]; intros sq E; [discriminate E|].
  cbn [king_walk] in *.
  destruct (negb (piece_eqb (piece_on pos sq) (make_piece Us KING)));
    [|exact E].
  unfold assert_ in *. cbn [andb bind].
  destruct (true && negb (negb (sq + 1 =? SQUARE_NB))); cbn [bind] in E;
    [discriminate E | apply IH, E].
Qed.

Lemma score_pawn_debug_ok (tbl : ConnectedTable) (Us : Color)
      (pos : Position) (st st' : Score * Entry) (s : Square) :
  score_pawn tbl true Us pos st s = Ok st' ->
  score_pawn tbl false Us pos st s = Ok st'.
Proof.
  destruct st as [score e]. unfold score_pawn, assert_. cbn [andb].
  destruct (negb (piece_eqb (piece_on pos s) (make_piece Us PAWN)));
    cbn [bind]; [discriminate|].
  destruct (structure_score tbl Us pos s _) as [sc wk].
  unfold protected_score, rank_behind, assert_.
  destruct Us; [exact (fun E => E)|].
  destruct (rank_of s <? RANK_7); [exact (fun E => E)|].
  cbn [andb negb bind]. discriminate.
Qed.

Lemma score_connected_passed_debug_ok (Us : Color) (pos : Position)
      (e : Entry) (score score' : Score) (s : Square) :
  score_connected_passed true Us pos e score s = Ok score' ->
  score_connected_passed false Us pos e score s = Ok score'.
Proof.
  unfold score_connected_passed, assert_. cbn [andb].
  destruct (negb (piece_eqb (piece_on pos s) (make_piece Us PAWN)));
    cbn [bind]; [discriminate|].
  destruct (negb (file_left (file_of s) =? file_of s)); [|exact (fun E => E)].
  destruct (passed1 Us pos s); [|exact (fun E => E)].
  destruct (scan_partner Us pos (at_color (passedPawns e) Us)
              (file_left (file_of s)) ranks_2_to_7 false);
    cbn [andb]; [|exact (fun E => E)].
  unfold find_UsKingSquare.
  destruct (king_walk true Us pos 64 SQ_A1) as [k | w |] eqn:Ek;
    cbn [bind]; try discriminate.
  rewrite (king_walk_debug_ok _ _ _ _ _ Ek). cbn [bind]. exact (fun E => E).
Qed.

(** A result returned with the assertions checked is the result returned
    without them. *)
Lemma evaluate_debug_ok (tbl : ConnectedTable) (Us : Color) (pos : Position)
      (e : Entry) (r : Score * Entry) :
  evaluate tbl true Us pos e = Ok r -> evaluate tbl false Us pos e = Ok r.
Proof.
  unfold evaluate.
  destruct (for_each (score_pawn tbl true Us pos) (squares_of pos Us PAWN)
              (SCORE_ZERO, init_entry Us pos e)) as [[sc1 e1] | w |] eqn:E1;
    cbn [bind]; try discriminate.
  rewrite (for_each_impl _ (score_pawn tbl false Us pos) _ _ _
             (fun st x st' => score_pawn_debug_ok tbl Us pos st st' x) E1).
  cbn [bind].
  destruct (for_each (score_connected_passed true Us pos e1)
              (squares_of pos Us PAWN) sc1) as [sc2 | w |] eqn:E2;
    cbn [bind]; try discriminate.
  rewrite (for_each_impl _ (score_connected_passed false Us pos e1) _ _ _
             (fun st x st' =>
                score_connected_passed_debug_ok Us pos e1 st st' x) E2).
  cbn [bind]. exact (fun E => E).
Qed.

(** The mirror image of a well-formed position is well formed. *)
Lemma well_formed_flip (pos : Position) (mkey : Key) :
  well_formed pos -> well_formed (flip_position mkey pos).
Proof.
  intros W. constructor.
  - intros c. apply bb_ok_flip_bb.
  - intros pt. apply bb_ok_flip_bb.
  - intros c s Hs. unfold flip_position, color_on. cbn [byColorBB board].
    rewrite testbit_flip_bb, (wf_color_bit _ W) by auto using flip_sq_range.
    unfold color_on. destruct (board pos (flip_sq s)) as [|d pt];
      [reflexivity|]. destruct d, c; reflexivity.
  - intros pt s Hs. unfold flip_position, type_on. cbn [byTypeBB board].
    rewrite testbit_flip_bb, (wf_type_bit _ W) by auto using flip_sq_range.
    unfold type_on. destruct (board pos (flip_sq s)) as [|d pt'];
      reflexivity.
  - intros c s Hin. unfold flip_position in Hin. cbn [pieceList] in Hin.
    apply in_map_iff in Hin. destruct Hin as (x & <- & Hx).
    destruct (wf_list_board _ W _ _ Hx) as [Hr Hp].
    split; [apply flip_sq_range, Hr|].
    rewrite piece_on_flip, Hp. unfold flip_piece, make_piece.
    rewrite opp_involutive. reflexivity.
  - intros c s Hs Hp. unfold flip_position. cbn [pieceList].
    apply in_map_iff. exists (flip_sq s).
    split; [apply flip_sq_involutive|].
    apply (wf_board_list _ W); [apply flip_sq_range, Hs|].
    unfold piece_on, flip_position in Hp. cbn [board] in Hp.
    unfold piece_on. destruct (board pos (flip_sq s)) as [|d pt];
      [discriminate Hp|].
    unfold flip_piece, make_piece in *. injection Hp as Hd ->.
    destruct d, c; try discriminate Hd; reflexivity.
  - intros c. unfold flip_position. cbn [pieceList].
    apply Injective_map_NoDup; [|apply (wf_list_nodup _ W)].
    intros x y E. rewrite <- (flip_sq_involutive x), E.
    apply flip_sq_involutive.
  - intros c. unfold flip_position. cbn [pieceCount pieceList].
    rewrite length_map. apply (wf_count _ W).
  - intros c. destruct (wf_king _ W (opp c)) as (k & Hk & Hp & Hu).
    exists (flip_sq k). split; [apply flip_sq_range, Hk|]. split.
    + rewrite piece_on_flip, Hp. unfold flip_piece, make_piece.
      rewrite opp_involutive. reflexivity.
    + intros j Hj Hpj. rewrite <- (Hu (flip_sq j)).
      * symmetry. apply flip_sq_involutive.
      * apply flip_sq_range, Hj.
      * unfold piece_on, flip_position in Hpj. cbn [board] in Hpj.
        unfold piece_on. destruct (board pos (flip_sq j)) as [|d pt];
          [discriminate Hpj|].
        unfold flip_piece, make_piece in *. injection Hpj as Hd ->.
        destruct d, c; try discriminate Hd; reflexivity.
  - intros s Hs Hp. unfold flip_position, type_on in Hp. cbn [board] in Hp.
    pose proof (wf_pawn_rank _ W (flip_sq s) (flip_sq_range s Hs)) as Hr.
    unfold type_on in Hr.
    destruct (board pos (flip_sq s)) as [|d pt]; [discriminate Hp|].
    cbn [flip_piece] in Hp. specialize (Hr Hp).
    rewrite rank_of_flip in Hr by assumption.
    unfold RANK_1, RANK_8 in *. lia.
Qed.

(** C7.  On a well-formed position, in a build without assertions: the
    classifier for colour [c] on the position and the classifier for the
    other colour on the mirrored position (colours swapped, board flipped
    vertically) return the same score, and the fields they fill are mirror
    images: [passedPawns], [pawnAttacks] and [pawnAttacksSpan] flipped,
    [semiopenFiles] and [weakUnopposed] equal, [pawnsOnSquares] equal with
    light and dark squares exchanged.  Hence the records that [probe]
    computes for the two positions have their two scores swapped and
    their per-colour fields mirrored.  With assertions checked, the two
    classifiers agree in the same way whenever both return.  The mirrored
    position is itself well formed. *)
Theorem mirror_symmetry (tbl : ConnectedTable) (pos : Position)
        (mkey : Key) (th th' : Thread) :
  pos_is_ok pos = true ->
  well_formed (flip_position mkey pos)
  /\ (forall c e e',
     exists score r r',
       evaluate tbl false c pos e = Ok (score, r)
       /\ evaluate tbl false (opp c) (flip_position mkey pos) e'
          = Ok (score, r')
       /\ mirrored c r r')
  /\ (forall c e e' score r score' r',
        evaluate tbl true c pos e = Ok (score, r) ->
        evaluate tbl true (opp c) (flip_position mkey pos) e'
        = Ok (score', r') ->
        score' = score /\ mirrored c r r')
  /\ (key (pawnsTable th (slot_of (pawn_key pos))) <> pawn_key pos ->
      key (pawnsTable th' (slot_of mkey)) <> mkey ->
      exists e th1 e' th1',
        probe tbl false pos th = Ok (e, th1)
        /\ probe tbl false (flip_position mkey pos) th' = Ok (e', th1')
        /\ forall c, at_color (scores e') (opp c) = at_color (scores e) c
                     /\ mirrored c e e').
Proof.
  intros Hok. apply pos_is_ok_well_formed in Hok.
  split; [apply well_formed_flip, Hok|]. split.
  { intros c e e'. apply evaluate_flip, Hok. }
  split.
  { intros c e e' score r score' r' E E'.
    apply evaluate_debug_ok in E, E'.
    destruct (evaluate_flip tbl c pos mkey e e' Hok)
      as (sc & a & a' & Ea & Ea' & M).
    rewrite E in Ea. rewrite E' in Ea'.
    injection Ea as <- <-. injection Ea' as -> <-. auto. }
  intros Hmiss Hmiss'. unfold probe.
  change (pawn_key (flip_position mkey pos)) with mkey.
  set (stored := pawnsTable th (slot_of (pawn_key pos))) in *.
  set (stored' := pawnsTable th' (slot_of mkey)) in *.
  destruct (Z.eqb_spec (key stored) (pawn_key pos)) as [|_]; [contradiction|].
  destruct (Z.eqb_spec (key stored') mkey) as [|_]; [contradiction|].
  set (e1 := set_key stored (pawn_key pos)).
  set (e1' := set_key stored' mkey).
  destruct (evaluate_flip tbl WHITE pos mkey e1 zero_entry Hok)
    as (sw & ew & _ & Ew & _).
  rewrite Ew. cbn [bind fst snd].
  set (e2 := set_scores ew (set_color (scores ew) WHITE sw)).
  destruct (evaluate_flip tbl BLACK pos mkey e2 e1' Hok)
    as (sb & eb & ew' & Eb & Ew' & Mb).
  cbn [opp] in Ew'. rewrite Eb, Ew'. cbn [bind fst snd].
  set (e2' := set_scores ew' (set_color (scores ew') WHITE sb)).
  destruct (evaluate_flip tbl WHITE pos mkey e1 e2' Hok)
    as (sw2 & ew2 & eb' & Ew2 & Eb' & Mw).
  rewrite Ew in Ew2. injection Ew2 as <- <-.
  cbn [opp] in Eb'. rewrite Eb'. cbn [bind fst snd].
  destruct (evaluate_frame _ _ _ _ _ _ _ Eb) as [_ Sb].
  destruct (evaluate_frame _ _ _ _ _ _ _ Eb') as [_ Sb'].
  pose proof (evaluate_other _ _ _ _ _ _ _ Eb) as Ob. cbn [opp] in Ob.
  pose proof (evaluate_other _ _ _ _ _ _ _ Eb') as Ob'. cbn [opp] in Ob'.
  eexists. eexists. eexists. eexists.
  split; [reflexivity|]. split; [reflexivity|].
  intros c. split.
  - cbn [scores set_asymmetry set_openFiles set_scores].
    rewrite Sb, Sb'. unfold e2, e2'. cbn [scores set_scores].
    destruct c; reflexivity.
  - apply (mirrored_fields c eb eb'); try reflexivity.
    destruct c.
    + apply (mirrored_same_side WHITE ew eb eb' eb'); try assumption.
      apply same_side_refl.
    + apply (mirrored_same_side BLACK eb eb ew' eb'); try assumption.
      apply same_side_refl.
Qed.

Lemma mirror_symmetry_witness :
  well_formed (flip_position 5 (with_pawn_key duo_position 77))
  /\ (forall c e e',
        exists score r r',
          evaluate Connected false c (with_pawn_key duo_position 77) e
          = Ok (score, r)
          /\ evaluate Connected false (opp c)
               (flip_position 5 (with_pawn_key duo_position 77)) e'
             = Ok (score, r')
          /\ mirrored c r r')
  /\ (exists e th1 e' th1',
        probe Connected false (with_pawn_key duo_position 77) fresh_thread
        = Ok (e, th1)
        /\ probe Connected false
             (flip_position 5 (with_pawn_key duo_position 77)) fresh_thread
           = Ok (e', th1')
        /\ forall c, at_color (scores e') (opp c) = at_color (scores e) c
                     /\ mirrored c e e').
Proof.
  destruct (mirror_symmetry Connected (with_pawn_key duo_position 77) 5
              fresh_thread fresh_thread) as (H0 & H1 & _ & H2);
    [vm_compute; reflexivity|].
  split; [exact H0|]. split; [exact H1|].
  apply H2; vm_compute; discriminate.
Defined.

(* ================================================================== *)
(** * The fields the classifier fills in *)
(* ================================================================== *)

(** A loop invariant that may mention the elements already visited. *)
Lemma for_each_prefix {A S} (body : S -> A -> outcome S)
      (Inv : list A -> S -> Prop) (l : list A) (st st' : S) :
  (forall done st x st',
      body st x = Ok st' -> Inv done st -> Inv (done ++ [x]) st') ->
  Inv [] st -> for_each body l st = Ok st' -> Inv l st'.
Proof.
  intros Hstep H0 E.
  assert (G : forall pre st0,
             Inv pre st0 -> for_each body l st0 = Ok st' ->
             Inv (pre ++ l) st').
  { clear H0 E st. induction l as [|x r IH]; intros pre st0 Hi E.
    - cbn [for_each] in E. injection E as <-. rewrite app_nil_r.
      assumption.
    - cbn [for_each] in E.
      destruct (body st0 x) as [st1 | w |] eqn:E1; cbn [bind] in E;
        try discriminate E.
      change (x :: r) with ([x] ++ r). rewrite app_assoc.
      apply (IH _ st1); [|assumption].
      apply (Hstep _ st0); assumption. }
  exact (G [] st H0 E).
Qed.

(** Splits [G : A -> B -> C] into the goals [A] and [B], and goes on
    with [G : C]. *)
Ltac feed G :=
  match type of G with
  | ?A -> ?B -> _ =>
      let HA := fresh "HA" in
      let HB := fresh "HB" in
      assert (HA : A);
      [| assert (HB : B); [| specialize (G HA HB); clear HA HB ] ]
  end.

(** What one turn of the first loop does to the record. *)
Lemma score_pawn_step (tbl : ConnectedTable) (debug : bool) (Us : Color)
      (pos : Position) (sc sc' : Score) (e e' : Entry) (s : Square) :
  score_pawn tbl debug Us pos (sc, e) s = Ok (sc', e') ->
  at_color (semiopenFiles e') Us
  = Z.land (at_color (semiopenFiles e) Us) (Z.lnot (Z.shiftl 1 (file_of s)))
  /\ at_color (pawnAttacksSpan e') Us
     = Z.lor (at_color (pawnAttacksSpan e) Us) (pawn_attack_span Us s)
  /\ at_color (passedPawns e') Us
     = flag_passed Us pos s (at_color (passedPawns e) Us)
  /\ at_color (weakUnopposed e') Us
     = snd (structure_score tbl Us pos s (sc, at_color (weakUnopposed e) Us))
  /\ kingSquares e' = kingSquares e /\ kingSafety e' = kingSafety e
  /\ castlingRights e' = castlingRights e
  /\ pawnAttacks e' = pawnAttacks e /\ pawnsOnSquares e' = pawnsOnSquares e
  /\ asymmetry e' = asymmetry e /\ openFiles e' = openFiles e.
Proof.
  unfold score_pawn.
  destruct (assert_ debug A_pawn_on_square
              (piece_eqb (piece_on pos s) (make_piece Us PAWN)));
    cbn [bind]; try discriminate.
  cbn [weakUnopposed set_passedPawns set_pawnAttacksSpan set_semiopenFiles].
  destruct (structure_score tbl Us pos s (sc, at_color (weakUnopposed e) Us))
    as [sc1 wk].
  destruct (protected_score debug Us pos s sc1); cbn [bind];
    try discriminate.
  intros [= <- <-].
  cbn [snd passedPawns pawnAttacks pawnAttacksSpan semiopenFiles
       weakUnopposed pawnsOnSquares kingSquares kingSafety castlingRights
       asymmetry openFiles set_weakUnopposed set_passedPawns
       set_pawnAttacksSpan set_semiopenFiles].
  rewrite !at_set_color. repeat split.
Qed.

(** The record returned by the classifier is the one the first loop
    leaves. *)
Lemma evaluate_first_loop (tbl : ConnectedTable) (debug : bool) (Us : Color)
      (pos : Position) (e e' : Entry) (sc : Score) :
  evaluate tbl debug Us pos e = Ok (sc, e') ->
  exists sc1,
    for_each (score_pawn tbl debug Us pos) (squares_of pos Us PAWN)
             (SCORE_ZERO, init_entry Us pos e) = Ok (sc1, e')
    /\ for_each (score_connected_passed debug Us pos e')
                (squares_of pos Us PAWN) sc1 = Ok sc.
Proof.
  unfold evaluate.
  destruct (for_each (score_pawn tbl debug Us pos) (squares_of pos Us PAWN)
              (SCORE_ZERO, init_entry Us pos e)) as [[sc1 e1] | w |] eqn:E1;
    cbn [bind]; try discriminate.
  destruct (for_each (score_connected_passed debug Us pos e1)
              (squares_of pos Us PAWN) sc1) as [sc2 | w |] eqn:E2;
    cbn [bind]; try discriminate.
  intros [= <- <-]. exists sc1. split; [reflexivity | exact E2].
Qed.

(** The fields of colour [Us] right after lines 105-110. *)
Lemma init_entry_fields (Us : Color) (pos : Position) (e : Entry) :
  at_color (weakUnopposed (init_entry Us pos e)) Us = 0
  /\ at_color (pawnAttacksSpan (init_entry Us pos e)) Us = 0
  /\ at_color (passedPawns (init_entry Us pos e)) Us = 0
  /\ at_color (semiopenFiles (init_entry Us pos e)) Us = 255
  /\ at_color (kingSquares (init_entry Us pos e)) Us = SQ_NONE
  /\ at_color (pawnAttacks (init_entry Us pos e)) Us
     = pawn_attacks_bb Us (ourPawns Us pos)
  /\ at_color (at_color (pawnsOnSquares (init_entry Us pos e)) Us) BLACK
     = popcount (Z.land (ourPawns Us pos) DarkSquares)
  /\ at_color (at_color (pawnsOnSquares (init_entry Us pos e)) Us) WHITE
     = count pos Us PAWN - popcount (Z.land (ourPawns Us pos) DarkSquares)
  /\ kingSafety (init_entry Us pos e) = kingSafety e
  /\ castlingRights (init_entry Us pos e) = castlingRights e
  /\ asymmetry (init_entry Us pos e) = asymmetry e
  /\ openFiles (init_entry Us pos e) = openFiles e
  /\ at_color (kingSquares (init_entry Us pos e)) (opp Us)
     = at_color (kingSquares e) (opp Us).
Proof.
  unfold init_entry.
  cbn [passedPawns pawnAttacks pawnAttacksSpan semiopenFiles weakUnopposed
       pawnsOnSquares kingSquares kingSafety castlingRights asymmetry
       openFiles set_weakUnopposed set_passedPawns set_pawnAttacksSpan
       set_semiopenFiles set_kingSquares set_pawnAttacks set_pawnsOnSquares].
  rewrite !at_set_color, at_set_color_other.
  destruct Us; cbn [set_color at_color of_white of_black]; repeat split.
Qed.

(** ** What a run of the classifier changes *)

(** The fields that the loops do not write are those of lines 105-110. *)
Lemma evaluate_not_in_loops (tbl : ConnectedTable) (debug : bool)
      (Us : Color) (pos : Position) (e e' : Entry) (sc : Score) :
  evaluate tbl debug Us pos e = Ok (sc, e') ->
  kingSquares e' = set_color (kingSquares e) Us SQ_NONE
  /\ kingSafety e' = kingSafety e /\ castlingRights e' = castlingRights e
  /\ asymmetry e' = asymmetry e /\ openFiles e' = openFiles e
  /\ pawnAttacks e' = pawnAttacks (init_entry Us pos e).
Proof.
  intros E.
  destruct (evaluate_first_loop _ _ _ _ _ _ _ E) as (sc1 & E1 & _).
  apply (for_each_inv _
           (fun st => kingSquares (snd st) = kingSquares (init_entry Us pos e)
                      /\ kingSafety (snd st) = kingSafety e
                      /\ castlingRights (snd st) = castlingRights e
                      /\ asymmetry (snd st) = asymmetry e
                      /\ openFiles (snd st) = openFiles e
                      /\ pawnAttacks (snd st)
                         = pawnAttacks (init_entry Us pos e))) in E1.
  - exact E1.
  - intros [sc0 e0] x [sc2 e2] Hstep (K1 & K2 & K3 & K4 & K5 & K6).
    apply score_pawn_step in Hstep.
    destruct Hstep as (_ & _ & _ & _ & S1 & S2 & S3 & S4 & _ & S6 & S7).
    cbn [snd] in *. rewrite S1, S2, S3, S4, S6, S7. repeat split; assumption.
  - cbn [snd]. repeat split; reflexivity.
Qed.

(** X1.  [evaluate<Us>] writes only fields of its own colour: the key, the
    two scores, [kingSafety], [castlingRights], [asymmetry], [openFiles]
    and every field of the other colour come back as they went in.  Of
    its own colour it resets [kingSquares] to [SQ_NONE], so that a king
    safety cached in the slot is never taken for the new position, and it
    sets [pawnAttacks] to the squares attacked by the own pawns. *)
Theorem evaluate_writes_own_side (tbl : ConnectedTable) (debug : bool)
        (Us : Color) (pos : Position) (e e' : Entry) (sc : Score) :
  evaluate tbl debug Us pos e = Ok (sc, e') ->
  key e' = key e /\ scores e' = scores e
  /\ kingSafety e' = kingSafety e /\ castlingRights e' = castlingRights e
  /\ asymmetry e' = asymmetry e /\ openFiles e' = openFiles e
  /\ same_side (opp Us) e e'
  /\ at_color (kingSquares e') (opp Us) = at_color (kingSquares e) (opp Us)
  /\ at_color (kingSquares e') Us = SQ_NONE
  /\ at_color (pawnAttacks e') Us = pawn_attacks_bb Us (pieces pos Us PAWN).
Proof.
  intros E.
  destruct (evaluate_frame _ _ _ _ _ _ _ E) as [Hk Hs].
  pose proof (evaluate_other _ _ _ _ _ _ _ E) as Ho.
  destruct (evaluate_not_in_loops _ _ _ _ _ _ _ E)
    as (K1 & K2 & K3 & K4 & K5 & K6).
  destruct (init_entry_fields Us pos e)
    as (_ & _ & _ & _ & _ & I6 & _).
  rewrite K1, K6, at_set_color, at_set_color_other.
  split; [exact Hk|]. split; [exact Hs|]. split; [exact K2|].
  split; [exact K3|]. split; [exact K4|]. split; [exact K5|].
  split; [exact Ho|]. split; [reflexivity|]. split; [reflexivity | exact I6].
Qed.

Lemma evaluate_writes_own_side_witness :
  exists sc e',
    evaluate Connected true WHITE start_position zero_entry = Ok (sc, e')
    /\ at_color (kingSquares e') WHITE = SQ_NONE
    /\ castlingRights e' = castlingRights zero_entry.
Proof.
  assert (E : exists r, evaluate Connected true WHITE start_position
                          zero_entry = Ok r)
    by (eexists; vm_compute; reflexivity).
  destruct E as [[sc e'] E]. exists sc, e'.
  destruct (evaluate_writes_own_side _ _ _ _ _ _ _ E)
    as (_ & _ & _ & H4 & _ & _ & _ & _ & H9 & _).
  repeat split; assumption.
Defined.

(** ** [semiopenFiles] *)

Lemma below_pow2_bits (b n : Z) :
  0 <= b -> 0 <= n -> (forall i, n <= i -> Z.testbit b i = false) ->
  b < 2 ^ n.
Proof.
  intros H0 Hn Hhi.
  destruct (Z.eq_dec b 0) as [-> | Hne]; [apply Z.pow_pos_nonneg; lia|].
  assert (Hpos : 0 < b) by lia.
  apply Z.log2_lt_pow2; [assumption|].
  destruct (Z.lt_ge_cases (Z.log2 b) n) as [Hl | Hg]; [assumption|].
  pose proof (Z.bit_log2 b Hpos) as E. rewrite Hhi in E by assumption.
  discriminate.
Qed.

Lemma clear_file_bit (m f j : Z) :
  0 <= f -> 0 <= j ->
  Z.testbit (Z.land m (Z.lnot (Z.shiftl 1 f))) j
  = Z.testbit m j && negb (f =? j).
Proof.
  intros Hf Hj.
  rewrite Z.land_spec, Z.lnot_spec, Z.shiftl_1_l, Z.pow2_bits_eqb
    by assumption.
  reflexivity.
Qed.

Lemma semiopenFiles_bits (tbl : ConnectedTable) (debug : bool)
      (Us : Color) (pos : Position) (e e' : Entry) (sc : Score) :
  evaluate tbl debug Us pos e = Ok (sc, e') ->
  0 <= at_color (semiopenFiles e') Us
  /\ forall j, 0 <= j ->
       Z.testbit (at_color (semiopenFiles e') Us) j
       = (j <? 8)
         && forallb (fun s => negb (file_of s =? j)) (squares_of pos Us PAWN).
Proof.
  intros E.
  destruct (evaluate_first_loop _ _ _ _ _ _ _ E) as (sc1 & E1 & _).
  destruct (init_entry_fields Us pos e) as (_ & _ & _ & I4 & _).
  apply (for_each_prefix _
           (fun done st =>
              0 <= at_color (semiopenFiles (snd st)) Us
              /\ forall j, 0 <= j ->
                   Z.testbit (at_color (semiopenFiles (snd st)) Us) j
                   = (j <? 8)
                     && forallb (fun s => negb (file_of s =? j)) done))
    in E1.
  - exact E1.
  - intros done [sc0 e0] x [sc2 e2] Hstep [H0 Hb].
    apply score_pawn_step in Hstep. destruct Hstep as (S1 & _).
    cbn [snd] in *. rewrite S1. split.
    + apply Z.land_nonneg. left. assumption.
    + intros j Hj. pose proof (file_of_range x) as Hx.
      rewrite clear_file_bit, Hb by lia.
      rewrite forallb_app. cbn [forallb]. rewrite andb_true_r, andb_assoc.
      reflexivity.
  - cbn [snd]. rewrite I4. split; [lia|].
    intros j Hj. rewrite testbit_255. cbn [forallb].
    destruct (Z.leb_spec 0 j); [|lia]. rewrite andb_true_r. reflexivity.
Qed.

(** X2.  After [evaluate<Us>], [semiopenFiles[Us]] is a mask of the eight
    files in which bit [f] is set exactly when no pawn of the colour's
    piece list stands on file [f]. *)
Theorem semiopenFiles_no_own_pawn (tbl : ConnectedTable) (debug : bool)
        (Us : Color) (pos : Position) (e e' : Entry) (sc : Score) :
  evaluate tbl debug Us pos e = Ok (sc, e') ->
  0 <= at_color (semiopenFiles e') Us <= 255
  /\ forall f, FILE_A <= f <= FILE_H ->
       Z.testbit (at_color (semiopenFiles e') Us) f
       = forallb (fun s => negb (file_of s =? f)) (squares_of pos Us PAWN).
Proof.
  intros E. destruct (semiopenFiles_bits _ _ _ _ _ _ _ E) as [H0 Hb].
  split; [split; [exact H0|]|].
  - assert (at_color (semiopenFiles e') Us < 2 ^ 8); [|lia].
    apply below_pow2_bits; [assumption | lia |].
    intros i Hi. rewrite Hb by lia.
    destruct (Z.ltb_spec i 8); [lia | reflexivity].
  - unfold FILE_A, FILE_H. intros f Hf. rewrite Hb by lia.
    destruct (Z.ltb_spec f 8); [reflexivity | lia].
Qed.

Lemma semiopenFiles_no_own_pawn_witness :
  exists sc e',
    evaluate Connected false WHITE duo_position zero_entry = Ok (sc, e')
    /\ 0 <= at_color (semiopenFiles e') WHITE <= 255
    /\ forall f, FILE_A <= f <= FILE_H ->
         Z.testbit (at_color (semiopenFiles e') WHITE) f
         = forallb (fun s => negb (file_of s =? f))
                   (squares_of duo_position WHITE PAWN).
Proof.
  assert (E : exists r, evaluate Connected false WHITE duo_position
                          zero_entry = Ok r)
    by (eexists; vm_compute; reflexivity).
  destruct E as [[sc e'] E]. exists sc, e'.
  split; [exact E|]. exact (semiopenFiles_no_own_pawn _ _ _ _ _ _ _ E).
Defined.

(** ** [pawnAttacksSpan] *)

Lemma pawn_attack_span_bits (Us : Color) (s i : Square) :
  0 <= s < 64 -> 0 <= i < 64 ->
  Z.testbit (pawn_attack_span Us s) i = ahead_beside Us s i.
Proof.
  intros Hs Hi.
  pose (P := fun Us s i =>
    Bool.eqb (Z.testbit (pawn_attack_span Us s) i) (ahead_beside Us s i)).
  assert (HP : P Us s i = true).
  { destruct Us; apply on_all_pairs; try assumption; vm_compute; reflexivity. }
  apply eqb_prop in HP. exact HP.
Qed.

(** X3.  After [evaluate<Us>] on a well-formed position, a square belongs
    to [pawnAttacksSpan[Us]] exactly when some own pawn stands on a
    neighbouring file on a rank behind it, seen from the side of [Us]:
    the field is the union of the attack spans of the own pawns. *)
Theorem pawnAttacksSpan_union (tbl : ConnectedTable) (debug : bool)
        (Us : Color) (pos : Position) (e e' : Entry) (sc : Score) :
  pos_is_ok pos = true ->
  evaluate tbl debug Us pos e = Ok (sc, e') ->
  forall i, 0 <= i < 64 ->
    (Z.testbit (at_color (pawnAttacksSpan e') Us) i = true
     <-> exists s, In s (squares_of pos Us PAWN)
                   /\ ahead_beside Us s i = true).
Proof.
  intros Hok E i Hi. apply pos_is_ok_well_formed in Hok.
  destruct (evaluate_first_loop _ _ _ _ _ _ _ E) as (sc1 & E1 & _).
  destruct (init_entry_fields Us pos e) as (_ & I2 & _).
  pose proof (fun H1 H2 => for_each_prefix _
           (fun done st =>
              forall j,
                Z.testbit (at_color (pawnAttacksSpan (snd st)) Us) j
                = existsb (fun s => Z.testbit (pawn_attack_span Us s) j) done) _ _ _ H1 H2 E1)
    as G.
  cbn beta in G. feed G.
  - intros done [sc0 e0] x [sc2 e2] Hstep Hb.
    apply score_pawn_step in Hstep. destruct Hstep as (_ & S2 & _).
    cbn [snd] in *. intros j.
    rewrite S2, Z.lor_spec, Hb, existsb_app. cbn [existsb].
    rewrite orb_false_r. reflexivity.
  - cbn [snd]. intros j. rewrite I2. cbn [existsb]. apply Z.bits_0.
  - cbn [snd] in G. rewrite G, existsb_exists.
    split; intros (s & Hin & Hb); exists s; (split; [exact Hin|]);
      destruct (wf_list_board _ Hok Us s Hin) as [Hs _].
    + rewrite <- pawn_attack_span_bits; assumption.
    + rewrite pawn_attack_span_bits; assumption.
Qed.

Lemma pawnAttacksSpan_union_witness :
  exists sc e',
    evaluate Connected true WHITE duo_position zero_entry = Ok (sc, e')
    /\ forall i, 0 <= i < 64 ->
         (Z.testbit (at_color (pawnAttacksSpan e') WHITE) i = true
          <-> exists s, In s (squares_of duo_position WHITE PAWN)
                        /\ ahead_beside WHITE s i = true).
Proof.
  assert (E : exists r, evaluate Connected true WHITE duo_position
                          zero_entry = Ok r)
    by (eexists; vm_compute; reflexivity).
  destruct E as [[sc e'] E]. exists sc, e'.
  split; [exact E|].
  apply (pawnAttacksSpan_union Connected true WHITE duo_position zero_entry
           e' sc); [vm_compute; reflexivity | exact E].
Defined.

(** ** [passedPawns] *)

Lemma sacrifice_loop_result (Us : Color) (pos : Position) (s : Square)
      (turns : nat) :
  forall b passed,
    sacrifice_loop Us pos turns s b passed = passed
    \/ sacrifice_loop Us pos turns s b passed = Z.lor passed (SquareBB s).
Proof.
  induction turns as [|k IH]; intros b passed; cbn [sacrifice_loop].
  - left. reflexivity.
  - destruct (b =? 0); [left; reflexivity|].
    destruct (negb (more_than_one _)).
    + destruct (IH (Z.land b (b - 1)) (Z.lor passed (SquareBB s)))
        as [-> | ->]; [right; reflexivity|].
      right. rewrite <- Z.lor_assoc, Z.lor_diag. reflexivity.
    + apply IH.
Qed.

Lemma flag_passed_result (Us : Color) (pos : Position) (s : Square)
      (passed : Bitboard) :
  flag_passed Us pos s passed = passed
  \/ flag_passed Us pos s passed = Z.lor passed (SquareBB s).
Proof.
  unfold flag_passed.
  destruct (passed_cond Us pos s); [right; reflexivity|].
  destruct (blocked_cond Us pos s); [|left; reflexivity].
  apply sacrifice_loop_result.
Qed.

(** A flag once set stays set. *)
Lemma flag_passed_keeps (Us : Color) (pos : Position) (s : Square)
      (passed : Bitboard) (i : Z) :
  Z.testbit passed i = true ->
  Z.testbit (flag_passed Us pos s passed) i = true.
Proof.
  intros H. destruct (flag_passed_result Us pos s passed) as [-> | ->];
    [assumption|].
  rewrite Z.lor_spec, H. reflexivity.
Qed.

Lemma flag_passed_new (Us : Color) (pos : Position) (s : Square)
      (passed : Bitboard) (i : Z) :
  Z.testbit (flag_passed Us pos s passed) i = true ->
  Z.testbit passed i = true \/ i = s.
Proof.
  destruct (flag_passed_result Us pos s passed) as [-> | ->]; [auto|].
  rewrite Z.lor_spec. intros H. apply orb_true_iff in H.
  destruct H as [H | H]; [left; exact H|].
  right. destruct (Z.le_gt_cases 0 s) as [H0 | H0];
    [destruct (Z.lt_ge_cases s 64) as [H1 | H1]|].
  - rewrite testbit_SquareBB in H by lia. apply Z.eqb_eq. exact H.
  - rewrite SquareBB_off, Z.bits_0 in H by lia. discriminate H.
  - rewrite SquareBB_off, Z.bits_0 in H by lia. discriminate H.
Qed.

(** X4.  [passedPawns[Us]] holds own pawns only: every square flagged by
    [evaluate<Us>] is a square of the colour's pawn list. *)
Theorem passedPawns_are_own_pawns (tbl : ConnectedTable) (debug : bool)
        (Us : Color) (pos : Position) (e e' : Entry) (sc : Score) :
  evaluate tbl debug Us pos e = Ok (sc, e') ->
  forall i, Z.testbit (at_color (passedPawns e') Us) i = true ->
            In i (squares_of pos Us PAWN).
Proof.
  intros E.
  destruct (evaluate_first_loop _ _ _ _ _ _ _ E) as (sc1 & E1 & _).
  destruct (init_entry_fields Us pos e) as (_ & _ & I3 & _).
  pose proof (fun H1 H2 => for_each_prefix _
           (fun done st =>
              forall i,
                Z.testbit (at_color (passedPawns (snd st)) Us) i = true ->
                In i done) _ _ _ H1 H2 E1)
    as G.
  cbn beta in G. feed G.
  - intros done [sc0 e0] x [sc2 e2] Hstep Hb.
    apply score_pawn_step in Hstep. destruct Hstep as (_ & _ & S3 & _).
    cbn [snd] in *. intros i Hi. rewrite S3 in Hi.
    apply in_or_app. apply flag_passed_new in Hi.
    destruct Hi as [Hi | ->]; [left; apply Hb; exact Hi|].
    right. left. reflexivity.
  - cbn [snd]. intros i Hi. rewrite I3, Z.bits_0 in Hi. discriminate Hi.
  - exact G.
Qed.

Lemma passedPawns_are_own_pawns_witness :
  exists sc e',
    evaluate Connected false WHITE duo_position zero_entry = Ok (sc, e')
    /\ forall i, Z.testbit (at_color (passedPawns e') WHITE) i = true ->
                 In i (squares_of duo_position WHITE PAWN).
Proof.
  assert (E : exists r, evaluate Connected false WHITE duo_position
                          zero_entry = Ok r)
    by (eexists; vm_compute; reflexivity).
  destruct E as [[sc e'] E]. exists sc, e'.
  split; [exact E|]. exact (passedPawns_are_own_pawns _ _ _ _ _ _ _ E).
Defined.

Lemma popcount_nonneg (b : Z) : 0 <= popcount b.
Proof.
  unfold popcount. induction squares as [|x r IH]; cbn [fold_right]; [lia|].
  destruct (Z.testbit b x); cbn [Z.b2z]; lia.
Qed.

Lemma popcount_0 : popcount 0 = 0.
Proof. vm_compute. reflexivity. Qed.

(** The squares a pawn attacks, and those it attacks after one push, lie
    in its corridor. *)
Lemma attacks_in_corridor (Us : Color) (s : Square) :
  0 <= s < 64 ->
  Z.land (PawnAttacks Us s) (passed_pawn_mask Us s) = PawnAttacks Us s
  /\ Z.land (PawnAttacks Us (s + Up Us)) (passed_pawn_mask Us s)
     = PawnAttacks Us (s + Up Us).
Proof.
  intros Hs.
  pose (P := fun Us s =>
    (Z.land (PawnAttacks Us s) (passed_pawn_mask Us s) =? PawnAttacks Us s)
    && (Z.land (PawnAttacks Us (s + Up Us)) (passed_pawn_mask Us s)
        =? PawnAttacks Us (s + Up Us))).
  assert (HP : P Us s = true).
  { destruct Us; apply on_all_squares; try assumption;
      vm_compute; reflexivity. }
  apply andb_true_iff in HP. destruct HP as [H1 H2].
  split; apply Z.eqb_eq; assumption.
Qed.

Lemma free_corridor_passed_cond (Us : Color) (pos : Position) (s : Square) :
  0 <= s < 64 ->
  stoppers Us pos s = 0 ->
  Z.land (ourPawns Us pos) (forward_file_bb Us s) = 0 ->
  passed_cond Us pos s = true.
Proof.
  intros Hs Hst Hown.
  destruct (attacks_in_corridor Us s Hs) as [A1 A2].
  assert (L : lever Us pos s = 0).
  { unfold lever. rewrite <- A1, (Z.land_comm (PawnAttacks Us s)),
      Z.land_assoc. fold (stoppers Us pos s). rewrite Hst. reflexivity. }
  assert (LP : leverPush Us pos s = 0).
  { unfold leverPush.
    rewrite <- A2, (Z.land_comm (PawnAttacks Us (s + Up Us))), Z.land_assoc.
    fold (stoppers Us pos s). rewrite Hst. reflexivity. }
  unfold passed_cond. rewrite Hst, L, LP, Hown.
  change (Z.lxor (Z.lxor 0 0) 0) with 0. rewrite popcount_0.
  change (bb_true 0) with false. cbn [negb andb].
  pose proof (popcount_nonneg (supported Us pos s)).
  pose proof (popcount_nonneg (phalanx Us pos s)).
  apply andb_true_iff. split; apply Z.leb_le; lia.
Qed.

(** X5.  On a well-formed position, an own pawn with no enemy pawn in its
    corridor (its file and the two neighbouring files, ahead of it) and
    no own pawn ahead of it on its file is in [passedPawns[Us]] after
    [evaluate<Us>]: no later turn of the loops clears the flag. *)
Theorem free_pawn_is_passed (tbl : ConnectedTable) (debug : bool)
        (Us : Color) (pos : Position) (e e' : Entry) (sc : Score)
        (s : Square) :
  pos_is_ok pos = true ->
  evaluate tbl debug Us pos e = Ok (sc, e') ->
  In s (squares_of pos Us PAWN) ->
  stoppers Us pos s = 0 ->
  Z.land (ourPawns Us pos) (forward_file_bb Us s) = 0 ->
  Z.testbit (at_color (passedPawns e') Us) s = true.
Proof.
  intros Hok E Hin Hst Hown. apply pos_is_ok_well_formed in Hok.
  destruct (wf_list_board _ Hok Us s Hin) as [Hs _].
  destruct (evaluate_first_loop _ _ _ _ _ _ _ E) as (sc1 & E1 & _).
  pose proof (fun H1 H2 => for_each_prefix _
           (fun done st =>
              In s done ->
              Z.testbit (at_color (passedPawns (snd st)) Us) s = true) _ _ _ H1 H2 E1)
    as G.
  cbn beta in G. feed G.
  - intros done [sc0 e0] x [sc2 e2] Hstep Hb.
    apply score_pawn_step in Hstep. destruct Hstep as (_ & _ & S3 & _).
    cbn [snd] in *. intros Hd. rewrite S3.
    apply in_app_or in Hd. destruct Hd as [Hd | [<- | []]].
    + apply flag_passed_keeps. apply Hb. exact Hd.
    + unfold flag_passed.
      rewrite (free_corridor_passed_cond Us pos x Hs Hst Hown).
      rewrite Z.lor_spec, (testbit_SquareBB x x Hs), Z.eqb_refl.
      apply orb_true_r.
  - intros [].
  - apply G. exact Hin.
Qed.

Lemma free_pawn_is_passed_witness :
  exists sc e',
    evaluate Connected true WHITE duo_position zero_entry = Ok (sc, e')
    /\ Z.testbit (at_color (passedPawns e') WHITE) SQ_D5 = true.
Proof.
  assert (E : exists r, evaluate Connected true WHITE duo_position
                          zero_entry = Ok r)
    by (eexists; vm_compute; reflexivity).
  destruct E as [[sc e'] E]. exists sc, e'.
  split; [exact E|].
  apply (free_pawn_is_passed Connected true WHITE duo_position zero_entry
           e' sc SQ_D5).
  - vm_compute. reflexivity.
  - exact E.
  - vm_compute. auto.
  - vm_compute. reflexivity.
  - vm_compute. reflexivity.
Defined.

(** ** [weakUnopposed] *)

Lemma structure_score_weak (tbl : ConnectedTable) (Us : Color)
      (pos : Position) (s : Square) (sc : Score) (wk : Z) :
  snd (structure_score tbl Us pos s (sc, wk))
  = wk + Z.b2z (weak_unopposed_pawn Us pos s).
Proof.
  unfold structure_score, weak_unopposed_pawn.
  destruct (opposed Us pos s);
    destruct (bb_true (Z.lor (supported Us pos s) (phalanx Us pos s)));
    destruct (bb_true (neighbours Us pos s));
    destruct (backward Us pos s);
    repeat match goal with
           | |- context [if ?b then _ else _] => destruct b
           end;
    cbn [snd Z.b2z negb andb orb]; lia.
Qed.

(** X6.  After [evaluate<Us>], [weakUnopposed[Us]] is the number of own
    pawns that are isolated or backward (and neither supported nor in a
    phalanx) with no enemy pawn ahead on their file; it lies between zero
    and the number of own pawns. *)
Theorem weakUnopposed_count (tbl : ConnectedTable) (debug : bool)
        (Us : Color) (pos : Position) (e e' : Entry) (sc : Score) :
  evaluate tbl debug Us pos e = Ok (sc, e') ->
  at_color (weakUnopposed e') Us
  = Z.of_nat (length (filter (weak_unopposed_pawn Us pos)
                             (squares_of pos Us PAWN)))
  /\ 0 <= at_color (weakUnopposed e') Us
     <= Z.of_nat (length (squares_of pos Us PAWN)).
Proof.
  intros E.
  destruct (evaluate_first_loop _ _ _ _ _ _ _ E) as (sc1 & E1 & _).
  destruct (init_entry_fields Us pos e) as (I1 & _).
  pose proof (fun H1 H2 => for_each_prefix _
    (fun done st =>
       at_color (weakUnopposed (snd st)) Us
       = Z.of_nat (length (filter (weak_unopposed_pawn Us pos) done)))
    _ _ _ H1 H2 E1) as G.
  cbn beta in G. feed G.
  - intros done [sc0 e0] x [sc2 e2] Hstep Hb.
    apply score_pawn_step in Hstep. destruct Hstep as (_ & _ & _ & S4 & _).
    cbn [snd] in *.
    rewrite S4, structure_score_weak, Hb, filter_app, length_app.
    cbn [filter]. destruct (weak_unopposed_pawn Us pos x);
      cbn [length Z.b2z]; lia.
  - cbn [snd filter length]. rewrite I1. reflexivity.
  - cbn [snd] in G. split; [exact G|]. rewrite G.
    pose proof (filter_length_le (weak_unopposed_pawn Us pos)
                  (squares_of pos Us PAWN)).
    lia.
Qed.

Lemma weakUnopposed_count_witness :
  exists sc e',
    evaluate Connected false BLACK start_position zero_entry = Ok (sc, e')
    /\ at_color (weakUnopposed e') BLACK
       = Z.of_nat (length (filter (weak_unopposed_pawn BLACK start_position)
                                  (squares_of start_position BLACK PAWN))).
Proof.
  assert (E : exists r, evaluate Connected false BLACK start_position
                          zero_entry = Ok r)
    by (eexists; vm_compute; reflexivity).
  destruct E as [[sc e'] E]. exists sc, e'.
  split; [exact E|].
  exact (proj1 (weakUnopposed_count _ _ _ _ _ _ _ E)).
Defined.

(** ** [pawnsOnSquares] *)

(** X7.  After [evaluate<Us>] on a well-formed position,
    [pawnsOnSquares[Us][BLACK]] is the number of own pawns on dark
    squares and [pawnsOnSquares[Us][WHITE]] the number on light squares;
    neither is negative and they add up to the pawn count. *)
Theorem pawnsOnSquares_split (tbl : ConnectedTable) (debug : bool)
        (Us : Color) (pos : Position) (e e' : Entry) (sc : Score) :
  pos_is_ok pos = true ->
  evaluate tbl debug Us pos e = Ok (sc, e') ->
  at_color (at_color (pawnsOnSquares e') Us) BLACK
  = popcount (Z.land (pieces pos Us PAWN) DarkSquares)
  /\ at_color (at_color (pawnsOnSquares e') Us) WHITE
     = popcount (Z.land (pieces pos Us PAWN) (bb_not DarkSquares))
  /\ 0 <= at_color (at_color (pawnsOnSquares e') Us) BLACK
  /\ 0 <= at_color (at_color (pawnsOnSquares e') Us) WHITE
  /\ at_color (at_color (pawnsOnSquares e') Us) BLACK
     + at_color (at_color (pawnsOnSquares e') Us) WHITE
     = count pos Us PAWN.
Proof.
  intros Hok E. apply pos_is_ok_well_formed in Hok.
  destruct (evaluate_first_loop _ _ _ _ _ _ _ E) as (sc1 & E1 & _).
  destruct (init_entry_fields Us pos e)
    as (_ & _ & _ & _ & _ & _ & I7 & I8 & _).
  apply (for_each_inv _
           (fun st => pawnsOnSquares (snd st)
                      = pawnsOnSquares (init_entry Us pos e))) in E1.
  - cbn [snd] in E1. rewrite E1, I7, I8. unfold ourPawns.
    rewrite (count_popcount pos Us Hok).
    pose proof (popcount_split (pieces pos Us PAWN) DarkSquares) as Hsp.
    pose proof (popcount_nonneg (Z.land (pieces pos Us PAWN) DarkSquares)).
    pose proof (popcount_nonneg
                  (Z.land (pieces pos Us PAWN) (bb_not DarkSquares))).
    repeat split; lia.
  - intros [sc0 e0] x [sc2 e2] Hstep Hb.
    apply score_pawn_step in Hstep.
    destruct Hstep as (_ & _ & _ & _ & _ & _ & _ & _ & S9 & _).
    cbn [snd] in *. rewrite S9. exact Hb.
  - reflexivity.
Qed.

Lemma pawnsOnSquares_split_witness :
  exists sc e',
    evaluate Connected false WHITE start_position zero_entry = Ok (sc, e')
    /\ at_color (at_color (pawnsOnSquares e') WHITE) BLACK
       + at_color (at_color (pawnsOnSquares e') WHITE) WHITE
       = count start_position WHITE PAWN.
Proof.
  assert (E : exists r, evaluate Connected false WHITE start_position
                          zero_entry = Ok r)
    by (eexists; vm_compute; reflexivity).
  destruct E as [[sc e'] E]. exists sc, e'.
  split; [exact E|].
  apply (pawnsOnSquares_split Connected false WHITE start_position
           zero_entry e' sc); [vm_compute; reflexivity | exact E].
Defined.

(* ================================================================== *)
(** * The pawn hash table, further *)
(* ================================================================== *)

(** What a successful [probe] returns and stores. *)
Lemma probe_stores (tbl : ConnectedTable) (debug : bool) (pos : Position)
      (th th' : Thread) (e : Entry) :
  probe tbl debug pos th = Ok (e, th') ->
  key e = pawn_key pos
  /\ pawnsTable th' (slot_of (pawn_key pos)) = e
  /\ (forall j, j <> slot_of (pawn_key pos) ->
        pawnsTable th' j = pawnsTable th j)
  /\ (key (pawnsTable th (slot_of (pawn_key pos))) = pawn_key pos ->
      e = pawnsTable th (slot_of (pawn_key pos)) /\ th' = th)
  /\ (key (pawnsTable th (slot_of (pawn_key pos))) <> pawn_key pos ->
      classifier_runs th' = (2 + classifier_runs th)%nat).
Proof.
  unfold probe.
  destruct (key (pawnsTable th (slot_of (pawn_key pos))) =? pawn_key pos)
    eqn:Hhit.
  - intros [= <- <-]. apply Z.eqb_eq in Hhit.
    repeat split; auto. intros Hne. contradiction.
  - apply Z.eqb_neq in Hhit.
    destruct (evaluate tbl debug WHITE pos
                (set_key (pawnsTable th (slot_of (pawn_key pos)))
                         (pawn_key pos))) as [[sw ew] | w |] eqn:EW;
      cbn [bind]; try discriminate.
    cbn [fst snd].
    destruct (evaluate tbl debug BLACK pos
                (set_scores ew (set_color (scores ew) WHITE sw)))
      as [[sb eb] | w |] eqn:EB; cbn [bind]; try discriminate.
    cbn [fst snd]. intros [= <- <-].
    destruct (evaluate_frame _ _ _ _ _ _ _ EW) as [KW _].
    destruct (evaluate_frame _ _ _ _ _ _ _ EB) as [KB _].
    cbn [key set_key set_scores set_openFiles set_asymmetry pawnsTable
         classifier_runs] in *.
    split; [congruence|]. unfold table_store. split.
    + rewrite Z.eqb_refl. reflexivity.
    + split.
      * intros j Hj. apply Z.eqb_neq in Hj. rewrite Hj. reflexivity.
      * split; [intros Habs; contradiction | reflexivity].
Qed.

(** X8.  Once [probe] has returned a record for a position, a further
    [probe] of any position with the same pawn key, in either build,
    returns that same record and changes nothing: the table is as it
    was and the classifier is not run again.  The pawns themselves are
    not compared, only the key. *)
Theorem probe_again_hits (tbl : ConnectedTable) (debug debug' : bool)
        (pos pos' : Position) (th th' : Thread) (e : Entry) :
  probe tbl debug pos th = Ok (e, th') ->
  pawn_key pos' = pawn_key pos ->
  probe tbl debug' pos' th' = Ok (e, th').
Proof.
  intros E Hk. apply probe_stores in E. destruct E as (K & St & _).
  unfold probe. rewrite Hk, St, K, Z.eqb_refl. reflexivity.
Qed.

Lemma probe_again_hits_witness :
  exists e th',
    probe Connected false (with_pawn_key start_position 77) fresh_thread
    = Ok (e, th')
    /\ probe Connected true (with_pawn_key duo_position 77) th'
       = Ok (e, th').
Proof.
  assert (E : exists r, probe Connected false
                          (with_pawn_key start_position 77) fresh_thread
                        = Ok r)
    by (eexists; vm_compute; reflexivity).
  destruct E as [[e th'] E]. exists e, th'.
  split; [exact E|].
  apply (probe_again_hits Connected false true
           (with_pawn_key start_position 77) (with_pawn_key duo_position 77)
           fresh_thread th' e); [exact E | reflexivity].
Defined.

Lemma slot_of_range (k : Key) : 0 <= slot_of k < TableSize.
Proof.
  unfold slot_of, TableSize.
  change (16384 - 1) with (Z.ones 14). rewrite Z.land_ones by lia.
  apply Z.mod_pos_bound. lia.
Qed.

(** X9.  The slot of a key is an index of the table, and a successful
    [probe] writes no other slot: every record stored elsewhere is left
    as it was.  On a hit the thread is unchanged, the classifier not
    being run; on a miss the classifier is run exactly twice. *)
Theorem probe_writes_one_slot (tbl : ConnectedTable) (debug : bool)
        (pos : Position) (th th' : Thread) (e : Entry) :
  probe tbl debug pos th = Ok (e, th') ->
  0 <= slot_of (pawn_key pos) < TableSize
  /\ (forall j, j <> slot_of (pawn_key pos) ->
        pawnsTable th' j = pawnsTable th j)
  /\ (key (pawnsTable th (slot_of (pawn_key pos))) = pawn_key pos ->
      th' = th)
  /\ (key (pawnsTable th (slot_of (pawn_key pos))) <> pawn_key pos ->
      classifier_runs th' = (2 + classifier_runs th)%nat).
Proof.
  intros E. apply probe_stores in E.
  destruct E as (_ & _ & Hother & Hhit & Hmiss).
  split; [apply slot_of_range|]. split; [exact Hother|].
  split; [|exact Hmiss].
  intros Heq. destruct (Hhit Heq) as [_ ->]. reflexivity.
Qed.

Lemma probe_writes_one_slot_witness :
  exists e th',
    probe Connected false (with_pawn_key start_position 77) fresh_thread
    = Ok (e, th')
    /\ (forall j, j <> slot_of 77 -> pawnsTable th' j = zero_entry)
    /\ classifier_runs th' = 2%nat.
Proof.
  assert (E : exists r, probe Connected false
                          (with_pawn_key start_position 77) fresh_thread
                        = Ok r)
    by (eexists; vm_compute; reflexivity).
  destruct E as [[e th'] E]. exists e, th'.
  split; [exact E|].
  destruct (probe_writes_one_slot _ _ _ _ _ _ E) as (_ & H2 & _ & H4).
  split; [exact H2|]. apply H4. vm_compute. discriminate.
Defined.

Lemma probe_returns_ok (tbl : ConnectedTable) (pos : Position)
      (th : Thread) :
  pos_is_ok pos = true -> exists r, probe tbl false pos th = Ok r.
Proof.
  intros Hok. apply pos_is_ok_well_formed in Hok. unfold probe.
  destruct (key (pawnsTable th (slot_of (pawn_key pos))) =? pawn_key pos);
    [eexists; reflexivity|].
  destruct (evaluate_release_returns tbl WHITE pos
              (set_key (pawnsTable th (slot_of (pawn_key pos)))
                       (pawn_key pos)) (well_formed_king pos WHITE Hok))
    as [[sw ew] ->].
  cbn [bind fst snd].
  destruct (evaluate_release_returns tbl BLACK pos
              (set_scores ew (set_color (scores ew) WHITE sw))
              (well_formed_king pos BLACK Hok)) as [[sb eb] ->].
  cbn [bind]. eexists. reflexivity.
Qed.

(** X10.  The table is direct-mapped: when two positions with different
    pawn keys share a slot, probing the second evicts the record of the
    first, and probing the first again is a miss that runs the classifier
    anew and stores the first key back. *)
Theorem probe_evicts (tbl : ConnectedTable) (debug : bool)
        (pos1 pos2 : Position) (th th1 th2 th3 : Thread)
        (e1 e2 e3 : Entry) :
  pawn_key pos1 <> pawn_key pos2 ->
  slot_of (pawn_key pos1) = slot_of (pawn_key pos2) ->
  probe tbl debug pos1 th = Ok (e1, th1) ->
  probe tbl debug pos2 th1 = Ok (e2, th2) ->
  probe tbl debug pos1 th2 = Ok (e3, th3) ->
  key (pawnsTable th2 (slot_of (pawn_key pos1))) = pawn_key pos2
  /\ classifier_runs th2 = (2 + classifier_runs th1)%nat
  /\ classifier_runs th3 = (4 + classifier_runs th1)%nat
  /\ key (pawnsTable th3 (slot_of (pawn_key pos1))) = pawn_key pos1.
Proof.
  intros Hne Hslot P1 P2 P3.
  apply probe_stores in P1. destruct P1 as (K1 & S1 & _).
  apply probe_stores in P2. destruct P2 as (K2 & S2 & _ & _ & M2).
  apply probe_stores in P3. destruct P3 as (K3 & S3 & _ & _ & M3).
  rewrite <- Hslot in S2, M2.
  rewrite S1, K1 in M2. specialize (M2 Hne).
  rewrite S2, K2 in M3. specialize (M3 (not_eq_sym Hne)).
  rewrite Hslot at 1. rewrite <- Hslot, S2, S3, K2, K3, M3, M2.
  repeat split; reflexivity.
Qed.

Lemma probe_evicts_witness :
  exists e1 th1 e2 th2 e3 th3,
    probe Connected false (with_pawn_key start_position 77) fresh_thread
    = Ok (e1, th1)
    /\ probe Connected false (with_pawn_key duo_position (77 + 16384)) th1
       = Ok (e2, th2)
    /\ probe Connected false (with_pawn_key start_position 77) th2
       = Ok (e3, th3)
    /\ classifier_runs th3 = (4 + classifier_runs th1)%nat.
Proof.
  assert (E1 : exists r, probe Connected false
                           (with_pawn_key start_position 77) fresh_thread
                         = Ok r)
    by (eexists; vm_compute; reflexivity).
  destruct E1 as [[e1 th1] E1].
  destruct (probe_returns_ok Connected
              (with_pawn_key duo_position (77 + 16384)) th1
              ltac:(vm_compute; reflexivity)) as ([e2 th2] & E2).
  destruct (probe_returns_ok Connected (with_pawn_key start_position 77) th2
              ltac:(vm_compute; reflexivity)) as ([e3 th3] & E3).
  exists e1, th1, e2, th2, e3, th3.
  split; [exact E1|]. split; [exact E2|]. split; [exact E3|].
  destruct (probe_evicts Connected false
              (with_pawn_key start_position 77)
              (with_pawn_key duo_position (77 + 16384))
              fresh_thread th1 th2 th3 e1 e2 e3) as (_ & _ & H3 & _).
  - vm_compute. discriminate.
  - vm_compute. reflexivity.
  - exact E1.
  - exact E2.
  - exact E3.
  - exact H3.
Defined.

(** The record built on a miss. *)
Lemma probe_miss (tbl : ConnectedTable) (debug : bool) (pos : Position)
      (th th' : Thread) (e : Entry) :
  key (pawnsTable th (slot_of (pawn_key pos))) <> pawn_key pos ->
  probe tbl debug pos th = Ok (e, th') ->
  exists sw ew sb eb,
    evaluate tbl debug WHITE pos
      (set_key (pawnsTable th (slot_of (pawn_key pos))) (pawn_key pos))
    = Ok (sw, ew)
    /\ evaluate tbl debug BLACK pos
         (set_scores ew (set_color (scores ew) WHITE sw)) = Ok (sb, eb)
    /\ e = set_asymmetry
             (set_openFiles
                (set_scores eb (set_color (scores eb) BLACK sb))
                (popcount (Z.land (at_color (semiopenFiles eb) WHITE)
                                  (at_color (semiopenFiles eb) BLACK))))
             (popcount
                (Z.lor (Z.lor (at_color (passedPawns eb) WHITE)
                              (at_color (passedPawns eb) BLACK))
                       (Z.lxor (at_color (semiopenFiles eb) WHITE)
                               (at_color (semiopenFiles eb) BLACK)))).
Proof.
  intros Hmiss. unfold probe. apply Z.eqb_neq in Hmiss. rewrite Hmiss.
  destruct (evaluate tbl debug WHITE pos
              (set_key (pawnsTable th (slot_of (pawn_key pos)))
                       (pawn_key pos))) as [[sw ew] | w |] eqn:EW;
    cbn [bind]; try discriminate.
  cbn [fst snd].
  destruct (evaluate tbl debug BLACK pos
              (set_scores ew (set_color (scores ew) WHITE sw)))
    as [[sb eb] | w |] eqn:EB; cbn [bind]; try discriminate.
  cbn [fst snd]. intros [= <- <-].
  exists sw, ew, sb, eb.
  split; [reflexivity|]. split; [assumption | reflexivity].
Qed.

Lemma In_files (f : Z) : In f files <-> 0 <= f < 8.
Proof.
  unfold files. rewrite in_map_iff. split.
  - intros (n & <- & Hn). apply in_seq in Hn. lia.
  - intros Hs. exists (Z.to_nat f). split; [lia|]. apply in_seq. lia.
Qed.

Lemma NoDup_files : NoDup files.
Proof.
  unfold files. apply Injective_map_NoDup.
  - intros x y. apply Nat2Z.inj.
  - apply seq_NoDup.
Qed.

(** The number of bits of a mask of files. *)
Lemma popcount_files (m : Z) (g : Z -> bool) :
  (forall j, 0 <= j -> Z.testbit m j = (j <? 8) && g j) ->
  popcount m = Z.of_nat (length (filter g files)).
Proof.
  intros Hb. unfold popcount.
  rewrite (sum_bits_ext _ (fun s => (s <? 8) && g s)).
  2:{ intros x Hx. apply In_squares in Hx. apply Hb. lia. }
  apply sum_bits_members.
  - apply NoDup_squares.
  - apply NoDup_filter, NoDup_files.
  - intros x. rewrite filter_In, In_files, In_squares, andb_true_iff,
      Z.ltb_lt. intuition lia.
Qed.

(** X11.  On a miss, [probe] sets [openFiles] to the number of files, out
    of the eight, on which neither colour has a pawn. *)
Theorem openFiles_count (tbl : ConnectedTable) (debug : bool)
        (pos : Position) (th th' : Thread) (e : Entry) :
  key (pawnsTable th (slot_of (pawn_key pos))) <> pawn_key pos ->
  probe tbl debug pos th = Ok (e, th') ->
  openFiles e = Z.of_nat (length (filter (open_file pos) files))
  /\ 0 <= openFiles e <= 8.
Proof.
  intros Hmiss E.
  destruct (probe_miss _ _ _ _ _ _ Hmiss E)
    as (sw & ew & sb & eb & EW & EB & ->).
  cbn [openFiles set_asymmetry set_openFiles].
  destruct (semiopenFiles_bits _ _ _ _ _ _ _ EW) as [_ BW].
  destruct (semiopenFiles_bits _ _ _ _ _ _ _ EB) as [_ BB].
  destruct (evaluate_other _ _ _ _ _ _ _ EB) as (_ & _ & _ & O4 & _).
  cbn [opp semiopenFiles set_scores] in O4.
  assert (Hc : popcount (Z.land (at_color (semiopenFiles eb) WHITE)
                                (at_color (semiopenFiles eb) BLACK))
               = Z.of_nat (length (filter (open_file pos) files))).
  { apply popcount_files. intros j Hj.
    rewrite Z.land_spec, O4, BW, BB by assumption.
    unfold open_file. rewrite forallb_app.
    destruct (j <? 8); cbn [andb]; reflexivity. }
  rewrite Hc. split; [reflexivity|].
  pose proof (filter_length_le (open_file pos) files) as Hl.
  change (length files) with 8%nat in Hl. lia.
Qed.

Lemma openFiles_count_witness :
  exists e th',
    probe Connected false (with_pawn_key duo_position 77) fresh_thread
    = Ok (e, th')
    /\ openFiles e
       = Z.of_nat (length (filter (open_file (with_pawn_key duo_position 77))
                                  files))
    /\ 0 <= openFiles e <= 8.
Proof.
  assert (E : exists r, probe Connected false
                          (with_pawn_key duo_position 77) fresh_thread
                        = Ok r)
    by (eexists; vm_compute; reflexivity).
  destruct E as [[e th'] E]. exists e, th'.
  split; [exact E|].
  apply (openFiles_count Connected false (with_pawn_key duo_position 77)
           fresh_thread th' e); [vm_compute; discriminate | exact E].
Defined.

(** X12.  On a miss, the record that [probe] returns has [kingSquares] set
    to [SQ_NONE] for both colours, while [kingSafety] and
    [castlingRights] are still those of the record that occupied the
    slot: the cached king safety is marked stale, not recomputed. *)
Theorem probe_miss_marks_king_safety_stale (tbl : ConnectedTable)
        (debug : bool) (pos : Position) (th th' : Thread) (e : Entry) :
  key (pawnsTable th (slot_of (pawn_key pos))) <> pawn_key pos ->
  probe tbl debug pos th = Ok (e, th') ->
  at_color (kingSquares e) WHITE = SQ_NONE
  /\ at_color (kingSquares e) BLACK = SQ_NONE
  /\ kingSafety e = kingSafety (pawnsTable th (slot_of (pawn_key pos)))
  /\ castlingRights e
     = castlingRights (pawnsTable th (slot_of (pawn_key pos))).
Proof.
  intros Hmiss E.
  destruct (probe_miss _ _ _ _ _ _ Hmiss E)
    as (sw & ew & sb & eb & EW & EB & ->).
  destruct (evaluate_not_in_loops _ _ _ _ _ _ _ EW) as (W1 & W2 & W3 & _).
  destruct (evaluate_not_in_loops _ _ _ _ _ _ _ EB) as (B1 & B2 & B3 & _).
  cbn [kingSquares kingSafety castlingRights set_asymmetry set_openFiles
       set_scores set_key] in *.
  rewrite B1, B2, B3, W1, W2, W3. repeat split.
Qed.

Lemma probe_miss_marks_king_safety_stale_witness :
  exists e th',
    probe Connected true (with_pawn_key duo_position 77) fresh_thread
    = Ok (e, th')
    /\ at_color (kingSquares e) WHITE = SQ_NONE
    /\ at_color (kingSquares e) BLACK = SQ_NONE.
Proof.
  assert (E : exists r, probe Connected true
                          (with_pawn_key duo_position 77) fresh_thread
                        = Ok r)
    by (eexists; vm_compute; reflexivity).
  destruct E as [[e th'] E]. exists e, th'.
  split; [exact E|].
  destruct (probe_miss_marks_king_safety_stale Connected true
              (with_pawn_key duo_position 77) fresh_thread th' e)
    as (H1 & H2 & _); [vm_compute; discriminate | exact E |].
  split; assumption.
Defined.

(** ** [asymmetry] *)

Lemma flag_passed_bb_ok (Us : Color) (pos : Position) (s : Square)
      (passed : Bitboard) :
  bb_ok passed -> bb_ok (flag_passed Us pos s passed).
Proof.
  intros H. destruct (flag_passed_result Us pos s passed) as [-> | ->];
    [assumption|].
  apply bb_ok_lor; [assumption | apply bb_ok_SquareBB].
Qed.

Lemma passedPawns_bb_ok (tbl : ConnectedTable) (debug : bool) (Us : Color)
      (pos : Position) (e e' : Entry) (sc : Score) :
  evaluate tbl debug Us pos e = Ok (sc, e') ->
  bb_ok (at_color (passedPawns e') Us).
Proof.
  intros E.
  destruct (evaluate_first_loop _ _ _ _ _ _ _ E) as (sc1 & E1 & _).
  destruct (init_entry_fields Us pos e) as (_ & _ & I3 & _).
  apply (for_each_inv _
           (fun st => bb_ok (at_color (passedPawns (snd st)) Us))) in E1.
  - exact E1.
  - intros [sc0 e0] x [sc2 e2] Hstep Hb.
    apply score_pawn_step in Hstep. destruct Hstep as (_ & _ & S3 & _).
    cbn [snd] in *. rewrite S3. apply flag_passed_bb_ok, Hb.
  - cbn [snd]. rewrite I3. apply bb_ok_0.
Qed.

Lemma sum_bits_bounds {A} (f : A -> bool) (l : list A) :
  0 <= fold_right (fun s n => Z.b2z (f s) + n) 0 l <= Z.of_nat (length l).
Proof.
  induction l as [|x r IH]; cbn [fold_right length]; [lia|].
  destruct (f x); cbn [Z.b2z]; lia.
Qed.

Lemma sum_bits_zero {A} (f : A -> bool) (l : list A) :
  fold_right (fun s n => Z.b2z (f s) + n) 0 l = 0 ->
  forall x, In x l -> f x = false.
Proof.
  induction l as [|y r IH]; cbn [fold_right]; intros H x Hx; [destruct Hx|].
  pose proof (sum_bits_bounds f r) as Hr.
  destruct (f y) eqn:Ey; cbn [Z.b2z] in H; [lia|].
  destruct Hx as [<- | Hx]; [exact Ey|]. apply IH; [lia | exact Hx].
Qed.

Lemma popcount_zero (b : Z) : bb_ok b -> (popcount b = 0 <-> b = 0).
Proof.
  intros Hok. split.
  - intros H. apply bb_ext; [assumption | apply bb_ok_0 |].
    intros i Hi. rewrite Z.bits_0.
    apply (sum_bits_zero (Z.testbit b) squares H), In_squares, Hi.
  - intros ->. apply popcount_0.
Qed.

Lemma popcount_le_64 (b : Z) : 0 <= popcount b <= 64.
Proof.
  pose proof (sum_bits_bounds (Z.testbit b) squares) as H.
  change (Z.of_nat (length squares)) with 64 in H. exact H.
Qed.

(** X26.  On a miss, the [asymmetry] that [probe] stores lies between 0
    and 64, and it is zero exactly when neither colour has a pawn flagged
    as passed and the two colours have pawns on the same files. *)
Theorem asymmetry_zero (tbl : ConnectedTable) (debug : bool)
        (pos : Position) (th th' : Thread) (e : Entry) :
  key (pawnsTable th (slot_of (pawn_key pos))) <> pawn_key pos ->
  probe tbl debug pos th = Ok (e, th') ->
  0 <= asymmetry e <= 64
  /\ (asymmetry e = 0
      <-> at_color (passedPawns e) WHITE = 0
          /\ at_color (passedPawns e) BLACK = 0
          /\ at_color (semiopenFiles e) WHITE
             = at_color (semiopenFiles e) BLACK).
Proof.
  intros Hmiss E.
  destruct (probe_miss _ _ _ _ _ _ Hmiss E)
    as (sw & ew & sb & eb & EW & EB & ->).
  cbn [asymmetry passedPawns semiopenFiles set_asymmetry set_openFiles
       set_scores].
  split; [apply popcount_le_64|].
  pose proof (passedPawns_bb_ok _ _ _ _ _ _ _ EW) as PW.
  pose proof (passedPawns_bb_ok _ _ _ _ _ _ _ EB) as PB.
  destruct (semiopenFiles_bits _ _ _ _ _ _ _ EW) as [SW0 SWb].
  destruct (semiopenFiles_bits _ _ _ _ _ _ _ EB) as [SB0 SBb].
  destruct (evaluate_other _ _ _ _ _ _ _ EB) as (O1 & _ & _ & O4 & _).
  cbn [opp semiopenFiles passedPawns set_scores] in O1, O4.
  rewrite <- O1 in PW.
  assert (HW : bb_ok (at_color (semiopenFiles eb) WHITE)).
  { rewrite O4. split; [assumption|].
    apply below_pow2_bits; [assumption | lia |].
    intros i Hi. rewrite SWb by lia.
    destruct (Z.ltb_spec i 8); [lia | reflexivity]. }
  assert (HB : bb_ok (at_color (semiopenFiles eb) BLACK)).
  { split; [assumption|].
    apply below_pow2_bits; [assumption | lia |].
    intros i Hi. rewrite SBb by lia.
    destruct (Z.ltb_spec i 8); [lia | reflexivity]. }
  rewrite popcount_zero
    by (apply bb_ok_lor; [apply bb_ok_lor | apply bb_ok_lxor]; assumption).
  rewrite !Z.lor_eq_0_iff, Z.lxor_eq_0_iff. tauto.
Qed.

Lemma asymmetry_zero_witness :
  exists e th',
    probe Connected false (with_pawn_key start_position 77) fresh_thread
    = Ok (e, th')
    /\ asymmetry e = 0.
Proof.
  assert (E : exists r, probe Connected false
                          (with_pawn_key start_position 77) fresh_thread
                        = Ok r)
    by (eexists; vm_compute; reflexivity).
  destruct E as [[e th'] E]. exists e, th'.
  split; [exact E|].
  destruct (asymmetry_zero Connected false (with_pawn_key start_position 77)
              fresh_thread th' e) as [_ [_ H]];
    [vm_compute; discriminate | exact E |].
  apply H. vm_compute in E. injection E as <- _.
  vm_compute. repeat split.
Defined.

(* ================================================================== *)
(** * The connected-pawn table, further *)
(* ================================================================== *)

Lemma init_cell_other (t : ConnectedTable) (o' p' s' r' o p s r : Z) :
  ~ init_domain o p s r -> init_domain o' p' s' r' ->
  init_cell t o' p' s' r' o p s r = t o p s r.
Proof.
  intros Hout Hin. unfold init_cell, table_set.
  destruct (Z.eqb_spec o o') as [-> |]; [|reflexivity].
  destruct (Z.eqb_spec p p') as [-> |]; [|reflexivity].
  destruct (Z.eqb_spec s s') as [-> |]; [|reflexivity].
  destruct (Z.eqb_spec r r') as [-> |]; [|reflexivity].
  contradiction.
Qed.

Lemma init_outside (t : ConnectedTable) (o p s r : Z) :
  ~ init_domain o p s r -> init t o p s r = t o p s r.
Proof.
  intros Hout. unfold init. cbn [fold_left].
  rewrite !init_cell_other
    by first [ assumption
             | unfold init_domain, RANK_2, RANK_3, RANK_4, RANK_5, RANK_6,
                 RANK_7; lia ].
  reflexivity.
Qed.

Lemma init_inside (t : ConnectedTable) (o p s r : Z) :
  init_domain o p s r -> init t o p s r = Connected o p s r.
Proof.
  unfold init_domain, RANK_2, RANK_7. intros (Ho & Hp & Hs & Hr).
  assert (Co : o = 0 \/ o = 1) by lia.
  assert (Cp : p = 0 \/ p = 1) by lia.
  assert (Cs : s = 0 \/ s = 1 \/ s = 2) by lia.
  assert (Cr : r = 1 \/ r = 2 \/ r = 3 \/ r = 4 \/ r = 5 \/ r = 6) by lia.
  destruct Co as [-> | ->], Cp as [-> | ->], Cs as [-> | [-> | ->]],
    Cr as [-> | [-> | [-> | [-> | [-> | ->]]]]];
    vm_compute; reflexivity.
Qed.

(** X13.  [init] writes the 72 cells
    [Connected[0..1][0..1][0..2][RANK_2..RANK_7]] and nothing else: the
    value of a cell in that range does not depend on what the table held
    before, every other cell keeps its value (for a zero-initialised
    table, the cells of [RANK_1] and [RANK_8] stay zero), and running
    [init] a second time changes nothing. *)
Theorem init_writes_its_domain (t : ConnectedTable) (o p s r : Z) :
  (init_domain o p s r -> init t o p s r = init Connected_zero o p s r)
  /\ (~ init_domain o p s r -> init t o p s r = t o p s r)
  /\ init (init t) o p s r = init t o p s r.
Proof.
  split; [intros Hin; apply init_inside, Hin|].
  split; [apply init_outside|].
  assert (D : init_domain o p s r \/ ~ init_domain o p s r)
    by (unfold init_domain; lia).
  destruct D as [Hin | Hout].
  - rewrite !init_inside by assumption. reflexivity.
  - apply init_outside, Hout.
Qed.

(** X14.  In the table that [init] builds, every midgame bonus is
    positive, an opposed pawn never earns a larger midgame bonus than an
    unopposed one, each supporting pawn adds exactly 17 to the midgame
    bonus, and the endgame bonus is negative or zero on [RANK_2], zero or
    more from [RANK_3] on. *)
Theorem Connected_shape (o p s r : Z) :
  init_domain o p s r ->
  0 < mg_value (Connected o p s r)
  /\ mg_value (Connected 1 p s r) <= mg_value (Connected 0 p s r)
  /\ mg_value (Connected o p s r) = mg_value (Connected o p 0 r) + 17 * s
  /\ (r = RANK_2 -> eg_value (Connected o p s r) <= 0)
  /\ (RANK_3 <= r -> 0 <= eg_value (Connected o p s r)).
Proof.
  unfold init_domain, RANK_2, RANK_3, RANK_7. intros (Ho & Hp & Hs & Hr).
  assert (Co : o = 0 \/ o = 1) by lia.
  assert (Cp : p = 0 \/ p = 1) by lia.
  assert (Cs : s = 0 \/ s = 1 \/ s = 2) by lia.
  assert (Cr : r = 1 \/ r = 2 \/ r = 3 \/ r = 4 \/ r = 5 \/ r = 6) by lia.
  destruct Co as [-> | ->], Cp as [-> | ->], Cs as [-> | [-> | ->]],
    Cr as [-> | [-> | [-> | [-> | [-> | ->]]]]];
    vm_compute; repeat split; intros; congruence.
Qed.

Lemma Connected_shape_witness :
  0 < mg_value (Connected 1 1 2 RANK_2)
  /\ eg_value (Connected 1 1 2 RANK_2) <= 0.
Proof.
  destruct (Connected_shape 1 1 2 RANK_2) as (H1 & _ & _ & H4 & _).
  - unfold init_domain, RANK_2, RANK_7. lia.
  - split; [exact H1 | apply H4; reflexivity].
Defined.

(* ================================================================== *)
(** * The king shelter, further *)
(* ================================================================== *)

Lemma nth_Forall {A} (P : A -> Prop) (l : list A) (d : A) (n : nat) :
  Forall P l -> P d -> P (nth n l d).
Proof.
  intros Hl Hd. revert n. induction Hl as [|x r Hx Hr IH]; intros [|n];
    cbn [nth]; auto.
Qed.

Lemma ShelterStrength_bounds (d r : Z) : -39 <= ShelterStrength d r <= 93.
Proof.
  unfold ShelterStrength.
  apply (nth_Forall (fun x => -39 <= x <= 93)); [|lia].
  apply (nth_Forall (Forall (fun x => -39 <= x <= 93))); [|constructor].
  repeat constructor; lia.
Qed.

Lemma StormDanger_bounds (t d r : Z) : -48 <= StormDanger t d r <= 131.
Proof.
  unfold StormDanger.
  apply (nth_Forall (fun x => -48 <= x <= 131)); [|lia].
  apply (nth_Forall (Forall (fun x => -48 <= x <= 131))); [|constructor].
  apply (nth_Forall (Forall (Forall (fun x => -48 <= x <= 131))));
    [|constructor].
  repeat constructor; lia.
Qed.

Lemma shelter_file_bounds (Us : Color) (pos : Position) (ksq : Square)
      (safety : Value) (f : File) :
  safety - 170 <= shelter_file Us pos ksq safety f <= safety + 141.
Proof.
  unfold shelter_file. cbv zeta.
  match goal with
  | |- context [ShelterStrength ?a ?b] =>
      pose proof (ShelterStrength_bounds a b);
      generalize dependent (ShelterStrength a b)
  end.
  intros v Hv.
  match goal with
  | |- context [StormDanger ?a ?b ?c] =>
      pose proof (StormDanger_bounds a b c);
      generalize dependent (StormDanger a b c)
  end.
  intros w Hw.
  destruct (negb _ || negb _); lia.
Qed.

(** X15.  Whatever the position and the king square, the shelter value
    lies between -515 and 802: the base of 5 or -5, the 374 of the edge
    term, and for each of the three files a strength of -39 to 93 less a
    storm danger of -48 to 131. *)
Theorem evaluate_shelter_bounds (Us : Color) (pos : Position)
        (ksq : Square) :
  -515 <= evaluate_shelter Us pos ksq <= 802.
Proof.
  unfold evaluate_shelter. cbv zeta. cbn [fold_left].
  set (s0 := if edge_blocker Us pos ksq then _ else _).
  assert (H0 : -5 <= s0 <= 379).
  { unfold s0, shelter_base.
    destruct (edge_blocker Us pos ksq), (bb_true _); lia. }
  pose proof (shelter_file_bounds Us pos ksq s0
                (shelter_center ksq - 1)) as H1.
  set (s1 := shelter_file Us pos ksq s0 (shelter_center ksq - 1)) in *.
  pose proof (shelter_file_bounds Us pos ksq s1 (shelter_center ksq)) as H2.
  set (s2 := shelter_file Us pos ksq s1 (shelter_center ksq)) in *.
  pose proof (shelter_file_bounds Us pos ksq s2
                (shelter_center ksq + 1)) as H3.
  lia.
Qed.

(** The three files that the shelter looks at are files of the board, and
    their distance from the nearer edge is an index of the tables. *)
Lemma shelter_files_on_board (ksq : Square) (f : File) :
  shelter_center ksq - 1 <= f <= shelter_center ksq + 1 ->
  FILE_A <= f <= FILE_H /\ 0 <= Z.min f (Z.lxor f FILE_H) <= 3.
Proof.
  unfold shelter_center, FILE_A, FILE_B, FILE_G, FILE_H. intros Hf.
  assert (C : f = 0 \/ f = 1 \/ f = 2 \/ f = 3 \/ f = 4 \/ f = 5 \/ f = 6
              \/ f = 7) by lia.
  split; [lia|].
  destruct C as [-> | [-> | [-> | [-> | [-> | [-> | [-> | ->]]]]]]];
    vm_compute; split; discriminate.
Qed.

(** The own and enemy pawns of the shelter are the pawns of each colour on
    the king's rank and ahead of it. *)
Lemma shelter_pawns_of (Us : Color) (pos : Position) (ksq : Square) :
  shelter_ourPawns Us pos ksq
  = Z.land (pieces pos Us PAWN)
           (Z.lor (forward_ranks_bb Us ksq) (rank_bb ksq))
  /\ shelter_theirPawns Us pos ksq
     = Z.land (pieces pos (Them Us) PAWN)
              (Z.lor (forward_ranks_bb Us ksq) (rank_bb ksq)).
Proof.
  unfold shelter_ourPawns, shelter_theirPawns, shelter_pawns, pieces,
    pieces_p, pieces_c.
  split.
  - rewrite (Z.land_comm (byColorBB pos Us)), <- !Z.land_assoc.
    f_equal. apply Z.land_comm.
  - rewrite (Z.land_comm (byColorBB pos (Them Us))), <- !Z.land_assoc.
    f_equal. apply Z.land_comm.
Qed.

(** X20.  The shelter value depends on the position only through the
    pawns that stand on the king's rank or ahead of it, seen from the
    side of [Us]: two positions with the same pawns there have the same
    shelter value at [ksq], whatever else differs (pieces, pawns behind
    the king, castling rights, piece lists). *)
Theorem evaluate_shelter_reads_front_pawns (Us : Color)
        (pos pos' : Position) (ksq : Square) :
  (forall c,
      Z.land (pieces pos c PAWN)
             (Z.lor (forward_ranks_bb Us ksq) (rank_bb ksq))
      = Z.land (pieces pos' c PAWN)
               (Z.lor (forward_ranks_bb Us ksq) (rank_bb ksq))) ->
  evaluate_shelter Us pos ksq = evaluate_shelter Us pos' ksq.
Proof.
  intros H.
  destruct (shelter_pawns_of Us pos ksq) as [O1 T1].
  destruct (shelter_pawns_of Us pos' ksq) as [O2 T2].
  assert (HO : shelter_ourPawns Us pos ksq = shelter_ourPawns Us pos' ksq)
    by (rewrite O1, O2; apply H).
  assert (HT : shelter_theirPawns Us pos ksq = shelter_theirPawns Us pos' ksq)
    by (rewrite T1, T2; apply H).
  assert (HF : forall safety f,
             shelter_file Us pos ksq safety f
             = shelter_file Us pos' ksq safety f).
  { intros safety f. unfold shelter_file. rewrite HO, HT. reflexivity. }
  unfold evaluate_shelter, shelter_base, edge_blocker. cbv zeta.
  cbn [fold_left]. rewrite HO, HT, !HF. reflexivity.
Qed.

Lemma evaluate_shelter_reads_front_pawns_witness :
  evaluate_shelter WHITE stacked_position SQ_E5
  = evaluate_shelter WHITE blocked_position SQ_E5.
Proof.
  apply (evaluate_shelter_reads_front_pawns WHITE stacked_position
           blocked_position SQ_E5).
  intros c. destruct c; vm_compute; reflexivity.
Defined.

(* ================================================================== *)
(** * [do_king_safety] *)
(* ================================================================== *)

(** ** The distance rings *)

Lemma distance_range (s t : Square) :
  0 <= s < 64 -> 0 <= t < 64 ->
  0 <= distance s t <= 7 /\ (distance s t = 0 <-> s = t).
Proof.
  intros Hs Ht. unfold distance.
  destruct (square_coords s Hs) as (F1 & R1 & E1 & _).
  destruct (square_coords t Ht) as (F2 & R2 & E2 & _).
  split; [lia|]. split; [lia|]. intros ->. lia.
Qed.

Lemma fold_squares_bits (P : Z -> bool) (l : list Z) (t : Z) :
  (forall x, In x l -> 0 <= x < 64) ->
  Z.testbit (fold_right (fun s2 acc =>
                           if P s2 then Z.lor acc (SquareBB s2) else acc)
                        0 l) t
  = existsb (fun x => P x && (t =? x)) l.
Proof.
  induction l as [|x r IH]; intros Hl; cbn [fold_right existsb].
  - apply Z.bits_0.
  - assert (Hx : 0 <= x < 64) by (apply Hl; left; reflexivity).
    assert (Hr : forall y, In y r -> 0 <= y < 64)
      by (intros y Hy; apply Hl; right; exact Hy).
    destruct (P x); cbn [andb].
    + rewrite Z.lor_spec, IH, testbit_SquareBB by assumption.
      apply orb_comm.
    + apply IH, Hr.
Qed.

Lemma DistanceRingBB_bits (s d t : Z) :
  0 <= s < 64 -> 0 <= d < 8 -> 0 <= t < 64 ->
  Z.testbit (DistanceRingBB s d) t
  = negb (s =? t) && (distance s t - 1 =? d).
Proof.
  intros Hs Hd Ht. unfold DistanceRingBB.
  replace (is_ok s && (0 <=? d) && (d <? 8)) with true.
  2:{ symmetry. rewrite !andb_true_iff, is_ok_spec, Z.leb_le, Z.ltb_lt.
      lia. }
  rewrite (fold_squares_bits
             (fun s2 => negb (s =? s2) && (distance s s2 - 1 =? d)))
    by (intros x Hx; apply In_squares, Hx).
  apply eq_true_iff_eq. rewrite existsb_exists. split.
  - intros (x & _ & Hx). apply andb_true_iff in Hx. destruct Hx as [Hp He].
    apply Z.eqb_eq in He. subst x. exact Hp.
  - intros Hp. exists t. split; [apply In_squares, Ht|].
    rewrite Hp, Z.eqb_refl. reflexivity.
Qed.

(** ** The walk over the rings *)

Lemma ring_walk_spec (ksq : Square) (pawns : Bitboard) :
  0 <= ksq < 64 -> bb_ok pawns -> Z.testbit pawns ksq = false ->
  forall (room : nat) (d : Z),
    0 <= d -> d + Z.of_nat room <= 8 ->
    (forall p, pawn_at pawns p -> d < distance ksq p) ->
    (exists p, pawn_at pawns p /\ distance ksq p <= d + Z.of_nat room) ->
    exists m, ring_walk room ksq pawns d = Ok m
              /\ d < m <= d + Z.of_nat room
              /\ (exists p, pawn_at pawns p /\ distance ksq p = m)
              /\ forall p, pawn_at pawns p -> m <= distance ksq p.
Proof.
  intros Hk Hok Hfree.
  induction room as [|k IH]; intros d Hd Hroom Hlow Hex.
  - destruct Hex as (p & Hp & Hdist). specialize (Hlow p Hp). lia.
  - cbn [ring_walk]. cbv zeta.
    assert (Hb : bb_ok (Z.land (DistanceRingBB ksq d) pawns))
      by (apply bb_ok_land_r, Hok).
    destruct (bb_true (Z.land (DistanceRingBB ksq d) pawns)) eqn:Ehit;
      cbn [negb].
    + apply (bb_true_exists _ Hb) in Ehit. destruct Ehit as (i & Hi & Hbit).
      rewrite Z.land_spec, DistanceRingBB_bits in Hbit by lia.
      apply andb_true_iff in Hbit. destruct Hbit as [Hring Hpawn].
      apply andb_true_iff in Hring. destruct Hring as [_ Hring].
      apply Z.eqb_eq in Hring.
      exists (d + 1). split; [reflexivity|]. split; [lia|]. split.
      * exists i. split; [split; assumption | lia].
      * intros p Hp. specialize (Hlow p Hp). lia.
    + pose proof (proj1 (bb_true_false _ Hb) Ehit) as Hmiss.
      clear Ehit. rename Hmiss into Ehit.
      assert (Hlow' : forall p, pawn_at pawns p -> d + 1 < distance ksq p).
      { intros p Hp. pose proof (Hlow p Hp) as Hl. destruct Hp as [Hp Hbit].
        specialize (Ehit p Hp).
        rewrite Z.land_spec, DistanceRingBB_bits, Hbit, andb_true_r in Ehit
          by lia.
        assert (Hne : (ksq =? p) = false).
        { apply Z.eqb_neq. intros ->. congruence. }
        rewrite Hne in Ehit. cbn [negb andb] in Ehit.
        apply Z.eqb_neq in Ehit. lia. }
      destruct (IH (d + 1)) as (m & Em & Hm & Hex' & Hmin);
        [lia | lia | exact Hlow' | |].
      * destruct Hex as (p & Hp & Hdist). exists p. split; [exact Hp | lia].
      * exists m. split; [exact Em|]. split; [lia|]. split; assumption.
Qed.

Lemma pawn_at_list (pos : Position) (Us : Color) (p : Square) :
  well_formed pos ->
  (pawn_at (pieces pos Us PAWN) p <-> In p (squares_of pos Us PAWN)).
Proof.
  intros W. unfold pawn_at, squares_of. split.
  - intros [Hp Hbit]. rewrite testbit_pawns in Hbit by assumption.
    apply piece_eqb_eq in Hbit. apply (wf_board_list _ W); assumption.
  - intros Hin. destruct (wf_list_board _ W _ _ Hin) as [Hp Hon].
    split; [exact Hp|]. rewrite testbit_pawns by assumption.
    rewrite Hon. apply piece_eqb_refl.
Qed.

(** The counter of lines 415-419 on a well-formed position. *)
Lemma minKingPawnDistance_spec (Us : Color) (pos : Position) (ksq : Square) :
  well_formed pos -> 0 <= ksq < 64 ->
  piece_on pos ksq = make_piece Us KING ->
  exists m,
    minKingPawnDistance Us pos ksq = Ok m
    /\ 0 <= m <= 7
    /\ (squares_of pos Us PAWN = [] -> m = 0)
    /\ (forall p, In p (squares_of pos Us PAWN) ->
          0 < m <= distance ksq p)
    /\ (squares_of pos Us PAWN <> [] ->
        exists p, In p (squares_of pos Us PAWN) /\ distance ksq p = m).
Proof.
  intros W Hk Hking. unfold minKingPawnDistance. cbv zeta.
  pose proof (bb_ok_pieces pos Us PAWN W) as Hok.
  assert (Hfree : Z.testbit (pieces pos Us PAWN) ksq = false).
  { rewrite testbit_pawns, Hking by assumption. destruct Us; reflexivity. }
  destruct (bb_true (pieces pos Us PAWN)) eqn:Eany.
  - apply (bb_true_exists _ Hok) in Eany. destruct Eany as (q & Hq & Hbit).
    destruct (ring_walk_spec ksq (pieces pos Us PAWN) Hk Hok Hfree 8 0)
      as (m & Em & Hm & (p & Hp & Hdist) & Hmin).
    + lia.
    + cbn. lia.
    + intros p [Hp Hpb].
      destruct (distance_range ksq p Hk Hp) as [Hr Hz].
      assert (ksq <> p) by (intros ->; congruence).
      assert (distance ksq p <> 0) by (intros Hd; apply Hz in Hd; auto).
      lia.
    + exists q. split; [split; assumption|].
      destruct (distance_range ksq q Hk Hq) as [Hr _]. cbn. lia.
    + exists m. split; [exact Em|].
      assert (Hm7 : m <= 7).
      { destruct Hp as [Hp' _].
        destruct (distance_range ksq p Hk Hp') as [Hr _]. lia. }
      split; [lia|]. split.
      * intros Hnil. apply (pawn_at_list pos Us p W) in Hp.
        rewrite Hnil in Hp. destruct Hp.
      * split.
        -- intros x Hx. apply (pawn_at_list pos Us x W) in Hx.
           specialize (Hmin x Hx). lia.
        -- intros _. exists p. split; [|exact Hdist].
           apply (pawn_at_list pos Us p W). exact Hp.
  - pose proof (proj1 (bb_true_false _ Hok) Eany) as Hnone.
    clear Eany. rename Hnone into Eany.
    assert (Hnil : squares_of pos Us PAWN = []).
    { destruct (squares_of pos Us PAWN) as [|x r] eqn:El; [reflexivity|].
      assert (Hx : In x (squares_of pos Us PAWN))
        by (rewrite El; left; reflexivity).
      apply (pawn_at_list pos Us x W) in Hx. destruct Hx as [Hx Hb].
      rewrite Eany in Hb by assumption. discriminate Hb. }
    exists 0. split; [reflexivity|]. split; [lia|].
    split; [reflexivity|]. rewrite Hnil. split; [intros p []|].
    intros Hne. contradiction.
Qed.

(** X16.  On a well-formed position, with [ksq] the square of the own
    king, [do_king_safety<Us>] returns, and the endgame half of its score
    is -16 times the distance in king moves from [ksq] to the nearest own
    pawn, or zero when the colour has no pawn: the search over the
    distance rings stops within the table, at ring 7 at the latest. *)
Theorem do_king_safety_pawn_distance (Us : Color) (pos : Position)
        (ksq : Square) (e : Entry) :
  pos_is_ok pos = true -> 0 <= ksq < 64 ->
  piece_on pos ksq = make_piece Us KING ->
  exists sc e' m,
    do_king_safety Us pos ksq e = Ok (sc, e')
    /\ eg_value sc = -16 * m /\ 0 <= m <= 7
    /\ (squares_of pos Us PAWN = [] -> m = 0)
    /\ (forall p, In p (squares_of pos Us PAWN) -> 0 < m <= distance ksq p)
    /\ (squares_of pos Us PAWN <> [] ->
        exists p, In p (squares_of pos Us PAWN) /\ distance ksq p = m).
Proof.
  intros Hok Hk Hking. apply pos_is_ok_well_formed in Hok.
  destruct (minKingPawnDistance_spec Us pos ksq Hok Hk Hking)
    as (m & Em & Hm).
  unfold do_king_safety. cbv zeta. rewrite Em. cbn [bind].
  eexists. eexists. exists m. split; [reflexivity|].
  split; [reflexivity | exact Hm].
Qed.

Lemma do_king_safety_pawn_distance_witness :
  exists sc e' m,
    do_king_safety WHITE castle_position SQ_E1 zero_entry = Ok (sc, e')
    /\ eg_value sc = -16 * m /\ 0 <= m <= 7.
Proof.
  destruct (do_king_safety_pawn_distance WHITE castle_position SQ_E1
              zero_entry) as (sc & e' & m & E & H1 & H2 & _).
  - vm_compute. reflexivity.
  - unfold SQ_E1. lia.
  - vm_compute. reflexivity.
  - exists sc, e', m. split; [exact E|]. split; assumption.
Defined.

(** ** The shelter bonus and the record *)

(** X17.  When [do_king_safety<Us>] returns, the midgame half of its
    score is the shelter value at [ksq], raised to the shelter value at
    the castled square g1 (g8 for Black) if the king-side right is held
    and at c1 (c8) if the queen-side right is held; without castling
    rights it is the shelter value at [ksq] itself.  The record gets
    [kingSquares[Us] = ksq] and the castling rights of [Us]; the other
    colour's entries and every other field are left as they were. *)
Theorem do_king_safety_bonus (Us : Color) (pos : Position) (ksq : Square)
        (e e' : Entry) (sc : Score) :
  do_king_safety Us pos ksq e = Ok (sc, e') ->
  let here := evaluate_shelter Us pos ksq in
  let short := evaluate_shelter Us pos (relative_square Us SQ_G1) in
  let long := evaluate_shelter Us pos (relative_square Us SQ_C1) in
  let oo := can_castle pos (MakeCastling_right Us KING_SIDE) in
  let ooo := can_castle pos (MakeCastling_right Us QUEEN_SIDE) in
  here <= mg_value sc
  /\ (oo <> 0 -> short <= mg_value sc)
  /\ (ooo <> 0 -> long <= mg_value sc)
  /\ (mg_value sc = here
      \/ (oo <> 0 /\ mg_value sc = short)
      \/ (ooo <> 0 /\ mg_value sc = long))
  /\ (st_castlingRights pos = 0 -> mg_value sc = here)
  /\ at_color (kingSquares e') Us = ksq
  /\ at_color (castlingRights e') Us = can_castle_c pos Us
  /\ at_color (kingSquares e') (opp Us) = at_color (kingSquares e) (opp Us)
  /\ at_color (castlingRights e') (opp Us)
     = at_color (castlingRights e) (opp Us)
  /\ key e' = key e /\ scores e' = scores e
  /\ passedPawns e' = passedPawns e /\ pawnAttacks e' = pawnAttacks e
  /\ pawnAttacksSpan e' = pawnAttacksSpan e
  /\ kingSafety e' = kingSafety e /\ weakUnopposed e' = weakUnopposed e
  /\ semiopenFiles e' = semiopenFiles e
  /\ pawnsOnSquares e' = pawnsOnSquares e
  /\ asymmetry e' = asymmetry e /\ openFiles e' = openFiles e.
Proof.
  unfold do_king_safety. cbv zeta.
  destruct (minKingPawnDistance Us pos ksq) as [m | w |]; cbn [bind];
    try discriminate.
  intros [= <- <-].
  cbn [mg_value key scores passedPawns pawnAttacks pawnAttacksSpan
       kingSquares kingSafety weakUnopposed castlingRights semiopenFiles
       pawnsOnSquares asymmetry openFiles set_kingSquares
       set_castlingRights].
  rewrite !at_set_color, !at_set_color_other.
  unfold king_bonus. cbv zeta.
  assert (Hnone : st_castlingRights pos = 0 ->
                  forall cr, can_castle pos cr = 0).
  { intros H0 cr. unfold can_castle. rewrite H0. apply Z.land_0_l. }
  destruct (Z.eqb_spec (can_castle pos (MakeCastling_right Us KING_SIDE)) 0)
    as [Eoo | Eoo];
    destruct (Z.eqb_spec (can_castle pos (MakeCastling_right Us QUEEN_SIDE))
                         0) as [Eooo | Eooo];
    cbn [negb];
    repeat split; try reflexivity; try lia;
    try (intros H0; pose proof (Hnone H0) as Hn;
         rewrite ?Hn in Eoo; rewrite ?Hn in Eooo; congruence).
Qed.

Lemma do_king_safety_bonus_witness :
  exists sc e',
    do_king_safety WHITE castle_position SQ_E1 zero_entry = Ok (sc, e')
    /\ evaluate_shelter WHITE castle_position SQ_E1 <= mg_value sc
    /\ at_color (kingSquares e') WHITE = SQ_E1.
Proof.
  assert (E : exists r, do_king_safety WHITE castle_position SQ_E1
                          zero_entry = Ok r)
    by (eexists; vm_compute; reflexivity).
  destruct E as [[sc e'] E]. exists sc, e'.
  split; [exact E|].
  destruct (do_king_safety_bonus WHITE castle_position SQ_E1 zero_entry e'
              sc E) as (H1 & _ & _ & _ & _ & H6 & _).
  split; assumption.
Defined.

(* ================================================================== *)
(** * The order of the piece list *)
(* ================================================================== *)

Lemma score_add_swap (a b c : Score) :
  (a + b + c)%score = (a + c + b)%score.
Proof. unfold score_add. cbn [mg_value eg_value]. f_equal; lia. Qed.

Lemma score_add_0_r (a : Score) : (a + SCORE_ZERO)%score = a.
Proof.
  destruct a as [m g]. unfold score_add, SCORE_ZERO.
  cbn [mg_value eg_value]. f_equal; lia.
Qed.

Lemma score_add_assoc (a b c : Score) :
  (a + b + c)%score = (a + (b + c))%score.
Proof. unfold score_add. cbn [mg_value eg_value]. f_equal; lia. Qed.

(** A loop whose turns commute does not depend on the order of its
    list. *)
Lemma for_each_perm {A S} (body : S -> A -> outcome S) (l l' : list A) :
  (forall st x y,
      (st1 <- body st x ;; body st1 y) = (st1 <- body st y ;; body st1 x)) ->
  Permutation l l' ->
  forall st, for_each body l st = for_each body l' st.
Proof.
  intros Hswap Hp. induction Hp as [| x l l' Hp IH | x y l | l l' l'' H1 I1 H2 I2];
    intros st.
  - reflexivity.
  - cbn [for_each]. destruct (body st x); cbn [bind]; auto.
  - cbn [for_each]. specialize (Hswap st y x).
    destruct (body st y) as [sy | w |], (body st x) as [sx | w' |];
      cbn [bind] in *;
      try (destruct (body sy x) as [a | wa |]); cbn [bind] in *;
      try (destruct (body sx y) as [b | wb |]); cbn [bind] in *;
      try congruence.
  - rewrite I1. apply I2.
Qed.

Lemma entry_ext (a b : Entry) :
  key a = key b -> scores a = scores b -> passedPawns a = passedPawns b ->
  pawnAttacks a = pawnAttacks b -> pawnAttacksSpan a = pawnAttacksSpan b ->
  kingSquares a = kingSquares b -> kingSafety a = kingSafety b ->
  weakUnopposed a = weakUnopposed b -> castlingRights a = castlingRights b ->
  semiopenFiles a = semiopenFiles b -> pawnsOnSquares a = pawnsOnSquares b ->
  asymmetry a = asymmetry b -> openFiles a = openFiles b -> a = b.
Proof.
  destruct a, b. cbn. intros. subst. reflexivity.
Qed.

Section OrderFree.

Variable tbl : ConnectedTable.
Variable Us : Color.
Variable pos : Position.

(** The score that one pawn adds does not depend on the score so far. *)
Lemma structure_score_delta (s : Square) (sc : Score) (wk : Z) :
  fst (structure_score tbl Us pos s (sc, wk))
  = (sc + fst (structure_score tbl Us pos s (SCORE_ZERO, 0)))%score.
Proof.
  unfold structure_score.
  repeat match goal with
         | |- context [if ?b then _ else _] => destruct b
         end;
    cbn [fst]; destruct sc as [m g];
    unfold score_add, score_sub, SCORE_ZERO, Isolated, Backward, Doubled,
      PawnScoresIsolatedRank3;
    cbn [mg_value eg_value]; f_equal; lia.
Qed.

Lemma protected_score_delta (s : Square) :
  exists d, forall sc,
    protected_score false Us pos s sc = Ok (sc + d)%score.
Proof.
  unfold protected_score, rank_behind, assert_.
  destruct Us; cbn [andb bind];
    repeat match goal with
           | |- context [if ?b then _ else _] => destruct b; cbn [bind]
           end;
    first [ exists ProtectedPassedPawn; intros sc; reflexivity
          | exists SCORE_ZERO; intros sc; rewrite score_add_0_r;
            reflexivity ].
Qed.

(** Whether the loop of lines 151-153 flags the pawn does not depend on
    the flags set so far. *)
Lemma sacrifice_loop_choice (s : Square) (turns : nat) :
  forall b, exists c : bool, forall passed,
    sacrifice_loop Us pos turns s b passed
    = if c then Z.lor passed (SquareBB s) else passed.
Proof.
  induction turns as [|k IH]; intros b; cbn [sacrifice_loop].
  - exists false. reflexivity.
  - destruct (b =? 0); [exists false; reflexivity|].
    destruct (IH (Z.land b (b - 1))) as [c Hc].
    destruct (negb (more_than_one _)).
    + exists true. intros passed. rewrite Hc.
      destruct c; [|reflexivity].
      rewrite <- Z.lor_assoc, Z.lor_diag. reflexivity.
    + exists c. exact Hc.
Qed.

Lemma flag_passed_choice (s : Square) :
  exists c : bool, forall passed,
    flag_passed Us pos s passed
    = if c then Z.lor passed (SquareBB s) else passed.
Proof.
  unfold flag_passed.
  destruct (passed_cond Us pos s); [exists true; reflexivity|].
  destruct (blocked_cond Us pos s); [|exists false; reflexivity].
  apply sacrifice_loop_choice.
Qed.

Lemma score_pawn_release_form (s : Square) :
  exists (d : Score) (c : bool), forall sc e,
    score_pawn tbl false Us pos (sc, e) s
    = Ok ((sc + d)%score,
          set_weakUnopposed
            (set_passedPawns
               (set_pawnAttacksSpan
                  (set_semiopenFiles e
                     (set_color (semiopenFiles e) Us
                        (Z.land (at_color (semiopenFiles e) Us)
                                (Z.lnot (Z.shiftl 1 (file_of s))))))
                  (set_color (pawnAttacksSpan e) Us
                     (Z.lor (at_color (pawnAttacksSpan e) Us)
                            (pawn_attack_span Us s))))
               (set_color (passedPawns e) Us
                  (if c then Z.lor (at_color (passedPawns e) Us) (SquareBB s)
                   else at_color (passedPawns e) Us)))
            (set_color (weakUnopposed e) Us
               (at_color (weakUnopposed e) Us
                + Z.b2z (weak_unopposed_pawn Us pos s)))).
Proof.
  destruct (protected_score_delta s) as [dp Hp].
  destruct (flag_passed_choice s) as [c Hc].
  exists (fst (structure_score tbl Us pos s (SCORE_ZERO, 0)) + dp)%score, c.
  intros sc e. unfold score_pawn, assert_. cbn [andb bind].
  cbn [weakUnopposed passedPawns pawnAttacksSpan set_passedPawns
       set_pawnAttacksSpan set_semiopenFiles].
  pose proof (structure_score_delta s sc (at_color (weakUnopposed e) Us))
    as Hd.
  pose proof (structure_score_weak tbl Us pos s sc
                (at_color (weakUnopposed e) Us)) as Hw.
  destruct (structure_score tbl Us pos s (sc, at_color (weakUnopposed e) Us))
    as [sc1 wk].
  cbn [fst snd] in Hd, Hw. subst sc1 wk.
  rewrite Hp, Hc. cbn [bind]. rewrite score_add_assoc. reflexivity.
Qed.

Lemma score_pawn_swap (st : Score * Entry) (x y : Square) :
  (st1 <- score_pawn tbl false Us pos st x ;;
   score_pawn tbl false Us pos st1 y)
  = (st1 <- score_pawn tbl false Us pos st y ;;
     score_pawn tbl false Us pos st1 x).
Proof.
  destruct (score_pawn_release_form x) as (dx & cx & Hx).
  destruct (score_pawn_release_form y) as (dy & cy & Hy).
  destruct st as [sc e].
  rewrite Hx, Hy. cbn [bind]. rewrite Hx, Hy.
  f_equal. f_equal; [apply score_add_swap|].
  apply entry_ext;
    cbn [key scores passedPawns pawnAttacks pawnAttacksSpan kingSquares
         kingSafety weakUnopposed castlingRights semiopenFiles pawnsOnSquares
         asymmetry openFiles set_weakUnopposed set_passedPawns
         set_pawnAttacksSpan set_semiopenFiles];
    try reflexivity;
    rewrite !at_set_color;
    destruct Us; cbn [set_color of_white of_black]; f_equal.
  all: try (destruct cx, cy; rewrite <- ?Z.lor_assoc; try reflexivity;
            f_equal; apply Z.lor_comm).
  all: try (rewrite <- !Z.lor_assoc; f_equal; apply Z.lor_comm).
  all: try (rewrite <- !Z.land_assoc; f_equal; apply Z.land_comm).
  all: lia.
Qed.

Lemma king_walk_release (room : nat) (sq : Square) :
  (exists k, king_walk false Us pos room sq = Ok k)
  \/ king_walk false Us pos room sq = OffBoard.
Proof.
  revert sq. induction room as [|k IH]; intros sq; cbn [king_walk].
  - right. reflexivity.
  - destruct (negb _).
    + unfold assert_. cbn [andb bind]. apply IH.
    + left. eexists. reflexivity.
Qed.

Lemma score_connected_passed_form (e : Entry) (s : Square) :
  exists r : option Score, forall sc,
    score_connected_passed false Us pos e sc s
    = match r with Some d => Ok (sc + d)%score | None => OffBoard end.
Proof.
  unfold score_connected_passed, assert_. cbn [andb bind].
  destruct (negb (file_left (file_of s) =? file_of s));
    [|exists (Some SCORE_ZERO); intros sc; rewrite score_add_0_r;
      reflexivity].
  destruct (passed1 Us pos s);
    [|exists (Some SCORE_ZERO); intros sc; rewrite score_add_0_r;
      reflexivity].
  rewrite andb_true_r.
  destruct (scan_partner Us pos (at_color (passedPawns e) Us)
              (file_left (file_of s)) ranks_2_to_7 false);
    [|exists (Some SCORE_ZERO); intros sc; rewrite score_add_0_r;
      reflexivity].
  destruct (king_walk_release 64 SQ_A1) as [[k Hk] | Hoff];
    unfold find_UsKingSquare.
  - rewrite Hk. cbn [bind].
    destruct (connected_passed_defend_king _ _ _).
    + exists (Some (PawnScoresConnectedPassed
                    + KingSafetyCompensationPawnScoresConnectedPassed)%score).
      intros sc. rewrite score_add_assoc. reflexivity.
    + exists (Some PawnScoresConnectedPassed). reflexivity.
  - rewrite Hoff. exists None. reflexivity.
Qed.

Lemma score_connected_passed_swap (e : Entry) (sc : Score) (x y : Square) :
  (sc1 <- score_connected_passed false Us pos e sc x ;;
   score_connected_passed false Us pos e sc1 y)
  = (sc1 <- score_connected_passed false Us pos e sc y ;;
     score_connected_passed false Us pos e sc1 x).
Proof.
  destruct (score_connected_passed_form e x) as [rx Hx].
  destruct (score_connected_passed_form e y) as [ry Hy].
  rewrite Hx, Hy.
  destruct rx as [dx|], ry as [dy|]; cbn [bind]; rewrite ?Hx, ?Hy;
    try reflexivity.
  rewrite score_add_swap. reflexivity.
Qed.

End OrderFree.

(** The classifier reads the piece lists only to enumerate the pawns. *)
Section PieceList.

Variable tbl : ConnectedTable.
Variable debug : bool.
Variable Us : Color.
Variable pos : Position.
Variable pl : Color -> PieceType -> list Square.

Let pos' : Position := with_piece_list pos pl.

Lemma ourPawns_list : ourPawns Us pos' = ourPawns Us pos.
Proof. reflexivity. Qed.

Lemma theirPawns_list : theirPawns Us pos' = theirPawns Us pos.
Proof. reflexivity. Qed.

Lemma stoppers_list (s : Square) : stoppers Us pos' s = stoppers Us pos s.
Proof. reflexivity. Qed.

Lemma lever_list (s : Square) : lever Us pos' s = lever Us pos s.
Proof. reflexivity. Qed.

Lemma leverPush_list (s : Square) : leverPush Us pos' s = leverPush Us pos s.
Proof. reflexivity. Qed.

Lemma doubled_list (s : Square) : doubled Us pos' s = doubled Us pos s.
Proof. reflexivity. Qed.

Lemma neighbours_list (s : Square) :
  neighbours Us pos' s = neighbours Us pos s.
Proof. reflexivity. Qed.

Lemma phalanx_list (s : Square) : phalanx Us pos' s = phalanx Us pos s.
Proof. unfold phalanx. rewrite neighbours_list. reflexivity. Qed.

Lemma supported_list (s : Square) : supported Us pos' s = supported Us pos s.
Proof. unfold supported. rewrite neighbours_list. reflexivity. Qed.

Lemma opposed_list (s : Square) : opposed Us pos' s = opposed Us pos s.
Proof. unfold opposed. rewrite theirPawns_list. reflexivity. Qed.

Lemma backward_list (s : Square) : backward Us pos' s = backward Us pos s.
Proof.
  unfold backward. rewrite ourPawns_list, stoppers_list, leverPush_list.
  reflexivity.
Qed.

Lemma passed_cond_list (s : Square) :
  passed_cond Us pos' s = passed_cond Us pos s.
Proof.
  unfold passed_cond.
  rewrite ourPawns_list, stoppers_list, lever_list, leverPush_list,
    supported_list, phalanx_list.
  reflexivity.
Qed.

Lemma blocked_cond_list (s : Square) :
  blocked_cond Us pos' s = blocked_cond Us pos s.
Proof. unfold blocked_cond. rewrite stoppers_list. reflexivity. Qed.

Lemma sacrifice_loop_list (s : Square) (turns : nat) :
  forall b passed,
    sacrifice_loop Us pos' turns s b passed
    = sacrifice_loop Us pos turns s b passed.
Proof.
  induction turns as [|k IH]; intros b passed; cbn [sacrifice_loop];
    [reflexivity|].
  rewrite theirPawns_list, IH. reflexivity.
Qed.

Lemma flag_passed_list (s : Square) (passed : Bitboard) :
  flag_passed Us pos' s passed = flag_passed Us pos s passed.
Proof.
  unfold flag_passed.
  rewrite passed_cond_list, blocked_cond_list, sacrifice_loop_list,
    supported_list, theirPawns_list.
  reflexivity.
Qed.

Lemma structure_score_list (s : Square) (acc : Score * Z) :
  structure_score tbl Us pos' s acc = structure_score tbl Us pos s acc.
Proof.
  unfold structure_score.
  rewrite !supported_list, !phalanx_list, !opposed_list, neighbours_list,
    backward_list, doubled_list.
  reflexivity.
Qed.

Lemma passed1_list (s : Square) : passed1 Us pos' s = passed1 Us pos s.
Proof. unfold passed1. rewrite ourPawns_list. reflexivity. Qed.

Lemma protected_passed_pawn_list (s : Square) (rpp : Rank) :
  protected_passed_pawn Us pos' s rpp = protected_passed_pawn Us pos s rpp.
Proof. reflexivity. Qed.

Lemma protected_score_list (s : Square) (score : Score) :
  protected_score debug Us pos' s score = protected_score debug Us pos s score.
Proof.
  unfold protected_score.
  destruct (rank_behind debug Us (rank_of s)) as [rpp | w |]; cbn [bind];
    [| reflexivity | reflexivity].
  rewrite passed1_list, protected_passed_pawn_list. reflexivity.
Qed.

Lemma score_pawn_list (st : Score * Entry) (s : Square) :
  score_pawn tbl debug Us pos' st s = score_pawn tbl debug Us pos st s.
Proof.
  destruct st as [sc e]. unfold score_pawn.
  change (piece_on pos' s) with (piece_on pos s).
  destruct (assert_ debug A_pawn_on_square _); cbn [bind];
    [| reflexivity | reflexivity].
  rewrite flag_passed_list, structure_score_list.
  destruct (structure_score tbl Us pos s _) as [sc1 wk].
  rewrite protected_score_list. reflexivity.
Qed.

Lemma scan_partner_list (passed : Bitboard) (f0 : File) (ranks : list Rank) :
  forall passed0,
    scan_partner Us pos' passed f0 ranks passed0
    = scan_partner Us pos passed f0 ranks passed0.
Proof.
  induction ranks as [|r0 rest IH]; intros passed0; [reflexivity|].
  rewrite !scan_partner_cons, !IH. reflexivity.
Qed.

Lemma king_walk_list (room : nat) :
  forall sq, king_walk debug Us pos' room sq = king_walk debug Us pos room sq.
Proof.
  induction room as [|k IH]; intros sq; cbn [king_walk]; [reflexivity|].
  change (piece_on pos' sq) with (piece_on pos sq). rewrite IH.
  reflexivity.
Qed.

Lemma score_connected_passed_list (e : Entry) (score : Score) (s : Square) :
  score_connected_passed debug Us pos' e score s
  = score_connected_passed debug Us pos e score s.
Proof.
  unfold score_connected_passed, find_UsKingSquare.
  change (piece_on pos' s) with (piece_on pos s).
  rewrite !passed1_list, scan_partner_list, king_walk_list. reflexivity.
Qed.

Lemma init_entry_list (e : Entry) : init_entry Us pos' e = init_entry Us pos e.
Proof. reflexivity. Qed.

End PieceList.

(** X18.  In a build without assertions the classifier does not depend on
    the order in which the piece list yields the pawns: for any position
    and any reordering of the own pawn list, with the board, the
    bitboards and the counts unchanged, [evaluate<Us>] returns the same
    score and the same record. *)
Theorem evaluate_order_independent (tbl : ConnectedTable) (Us : Color)
        (pos : Position) (pl : Color -> PieceType -> list Square)
        (e : Entry) :
  Permutation (pieceList pos Us PAWN) (pl Us PAWN) ->
  evaluate tbl false Us (with_piece_list pos pl) e
  = evaluate tbl false Us pos e.
Proof.
  intros Hp. unfold evaluate.
  change (squares_of (with_piece_list pos pl) Us PAWN) with (pl Us PAWN).
  change (squares_of pos Us PAWN) with (pieceList pos Us PAWN).
  rewrite init_entry_list.
  rewrite (for_each_ext (score_pawn tbl false Us (with_piece_list pos pl))
                        (score_pawn tbl false Us pos))
    by (intros st x _; apply score_pawn_list).
  rewrite <- (for_each_perm (score_pawn tbl false Us pos) _ _
                (fun st x y => score_pawn_swap tbl Us pos st x y) Hp).
  destruct (for_each (score_pawn tbl false Us pos) (pieceList pos Us PAWN)
              (SCORE_ZERO, init_entry Us pos e)) as [[sc1 e1] | w |];
    cbn [bind]; [| reflexivity | reflexivity].
  rewrite (for_each_ext
             (score_connected_passed false Us (with_piece_list pos pl) e1)
             (score_connected_passed false Us pos e1))
    by (intros st x _; apply score_connected_passed_list).
  rewrite <- (for_each_perm (score_connected_passed false Us pos e1) _ _
                (fun sc x y => score_connected_passed_swap Us pos e1 sc x y)
                Hp).
  reflexivity.
Qed.

Lemma evaluate_order_independent_witness :
  evaluate Connected false WHITE
    (with_piece_list duo_position
       (fun c pt => rev (pieceList duo_position c pt))) zero_entry
  = evaluate Connected false WHITE duo_position zero_entry.
Proof.
  apply (evaluate_order_independent Connected WHITE duo_position
           (fun c pt => rev (pieceList duo_position c pt)) zero_entry).
  apply Permutation_rev.
Defined.

(* ================================================================== *)
(** * When the assertions hold *)
(* ================================================================== *)

Lemma score_pawn_black_agree (tbl : ConnectedTable) (pos : Position)
      (st : Score * Entry) (s : Square) :
  piece_on pos s = make_piece BLACK PAWN -> rank_of s < RANK_7 ->
  score_pawn tbl true BLACK pos st s = score_pawn tbl false BLACK pos st s.
Proof.
  intros Hp Hr. destruct st as [score e]. unfold score_pawn.
  rewrite Hp, piece_eqb_refl, !assert_holds. cbn [bind].
  destruct (structure_score tbl BLACK pos s _) as [sc wk].
  unfold protected_score, rank_behind.
  apply Z.ltb_lt in Hr. rewrite Hr. reflexivity.
Qed.

(** X19.  On a well-formed position no assertion of the classifier fires,
    and the build that checks them returns what the other build returns,
    provided that, when the colour is Black, no black pawn stands on
    [RANK_7]: the pawn found on each listed square, the king found on the
    board and the rank behind each pawn are all as asserted. *)
Theorem evaluate_assertions_hold (tbl : ConnectedTable) (Us : Color)
        (pos : Position) (e : Entry) :
  pos_is_ok pos = true ->
  (Us = BLACK ->
   forall s, In s (squares_of pos BLACK PAWN) -> rank_of s <> RANK_7) ->
  evaluate tbl true Us pos e = evaluate tbl false Us pos e
  /\ exists r, evaluate tbl true Us pos e = Ok r.
Proof.
  intros Hok Hrank. apply pos_is_ok_well_formed in Hok.
  assert (Heq : evaluate tbl true Us pos e = evaluate tbl false Us pos e).
  { destruct Us; [apply evaluate_white_debug, Hok|].
    specialize (Hrank eq_refl). unfold evaluate.
    rewrite (for_each_ext (score_pawn tbl true BLACK pos)
                          (score_pawn tbl false BLACK pos)).
    2:{ intros st x Hx.
        destruct (wf_list_board _ Hok _ _ Hx) as [Hs Hp].
        apply score_pawn_black_agree; [exact Hp|].
        assert (Ht : type_on pos PAWN x = true).
        { unfold type_on. change (board pos x) with (piece_on pos x).
          rewrite Hp. reflexivity. }
        pose proof (wf_pawn_rank _ Hok x Hs Ht) as Hr.
        specialize (Hrank x Hx). unfold RANK_7, RANK_8 in *. lia. }
    destruct (for_each (score_pawn tbl false BLACK pos)
                (squares_of pos BLACK PAWN)
                (SCORE_ZERO, init_entry BLACK pos e))
      as [[sc e1] | w |]; cbn [bind]; [| reflexivity | reflexivity].
    rewrite (for_each_ext (score_connected_passed true BLACK pos e1)
                          (score_connected_passed false BLACK pos e1)).
    2:{ intros st x Hx. apply score_connected_passed_debug.
        - apply well_formed_king, Hok.
        - apply (wf_list_board _ Hok), Hx. }
    reflexivity. }
  split; [exact Heq|]. rewrite Heq.
  apply evaluate_release_returns, well_formed_king, Hok.
Qed.

Lemma evaluate_assertions_hold_witness :
  evaluate Connected true BLACK blocked_position zero_entry
  = evaluate Connected false BLACK blocked_position zero_entry
  /\ exists r, evaluate Connected true BLACK blocked_position zero_entry
               = Ok r.
Proof.
  apply (evaluate_assertions_hold Connected BLACK blocked_position
           zero_entry).
  - vm_compute. reflexivity.
  - intros _ s Hs. vm_compute in Hs.
    repeat (destruct Hs as [<- | Hs]; [vm_compute; discriminate|]).
    destruct Hs.
Defined.

(* ================================================================== *)
(** * Inputs outside the preconditions *)
(* ================================================================== *)

Lemma king_walk_no_king (Us : Color) (pos : Position) (room : nat) :
  forall sq,
    0 <= sq -> sq + Z.of_nat room = 64 ->
    (forall k, 0 <= k < 64 -> piece_on pos k <> make_piece Us KING) ->
    king_walk false Us pos room sq = OffBoard
    /\ (room <> O ->
        king_walk true Us pos room sq = AssertFailed A_king_on_board).
Proof.
  induction room as [|n IH]; intros sq H0 Hroom Hno.
  - split; [reflexivity | intros H; contradiction].
  - assert (Hk : piece_eqb (piece_on pos sq) (make_piece Us KING) = false).
    { destruct (piece_eqb _ _) eqn:E; [|reflexivity].
      apply piece_eqb_eq in E. exfalso. apply (Hno sq); [lia | exact E]. }
    cbn [king_walk]. rewrite Hk. cbn [negb]. cbv zeta.
    destruct (IH (sq + 1)) as [R D]; [lia | lia | exact Hno |].
    split.
    + unfold assert_. cbn [andb bind]. exact R.
    + intros _. unfold assert_, SQUARE_NB. destruct n as [|m].
      * replace (sq + 1 =? 64) with true by (symmetry; apply Z.eqb_eq; lia).
        reflexivity.
      * replace (sq + 1 =? 64) with false
          by (symmetry; apply Z.eqb_neq; lia).
        cbn [negb andb bind]. apply D. discriminate.
Qed.

(** X21.  When no king of colour [Us] stands on the board, the walk of
    lines 290-299 does not find one: with assertions it stops at
    [assert(UsKingSquare != SQUARE_NB)], after the last square; without
    them it goes on reading the board past square 63. *)
Theorem king_walk_without_king (Us : Color) (pos : Position) :
  (forall k, 0 <= k < 64 -> piece_on pos k <> make_piece Us KING) ->
  find_UsKingSquare true Us pos = AssertFailed A_king_on_board
  /\ find_UsKingSquare false Us pos = OffBoard.
Proof.
  intros Hno. unfold find_UsKingSquare, SQ_A1.
  destruct (king_walk_no_king Us pos 64 0) as [R D];
    [lia | reflexivity | exact Hno |].
  split; [apply D; discriminate | exact R].
Qed.

Lemma king_walk_without_king_witness :
  find_UsKingSquare true WHITE kingless_position
  = AssertFailed A_king_on_board
  /\ find_UsKingSquare false WHITE kingless_position = OffBoard.
Proof.
  apply (king_walk_without_king WHITE kingless_position).
  intros k Hk.
  pose (P := fun k => negb (piece_eqb (piece_on kingless_position k)
                                      (make_piece WHITE KING))).
  assert (HP : P k = true)
    by (apply on_all_squares; [vm_compute; reflexivity | exact Hk]).
  unfold P in HP. intros E. rewrite E, piece_eqb_refl in HP.
  discriminate HP.
Defined.

Lemma ring_walk_misses (ksq : Square) (room : nat) :
  0 <= ksq < 64 ->
  forall d, 0 <= d -> d + Z.of_nat room <= 8 ->
            ring_walk room ksq (SquareBB ksq) d = OffBoard.
Proof.
  intros Hk. induction room as [|n IH]; intros d Hd Hroom; [reflexivity|].
  cbn [ring_walk]. cbv zeta.
  rewrite bb_true_land_SquareBB, DistanceRingBB_bits, Z.eqb_refl by lia.
  cbn [negb andb]. apply IH; lia.
Qed.

(** X22.  [do_king_safety] relies on [ksq] not holding an own pawn: if the
    only own pawn stands on [ksq] itself, no distance ring contains it,
    and the search of line 419 runs through all eight rings of
    [DistanceRingBB[ksq]] and reads past the table. *)
Theorem do_king_safety_pawn_on_ksq (Us : Color) (pos : Position)
        (ksq : Square) (e : Entry) :
  0 <= ksq < 64 ->
  pieces pos Us PAWN = SquareBB ksq ->
  do_king_safety Us pos ksq e = OffBoard.
Proof.
  intros Hk Hp. unfold do_king_safety, minKingPawnDistance. cbv zeta.
  rewrite Hp.
  assert (Hne : bb_true (SquareBB ksq) = true).
  { rewrite <- (Z.land_diag (SquareBB ksq)).
    rewrite bb_true_land_SquareBB, testbit_SquareBB by assumption.
    apply Z.eqb_refl. }
  rewrite Hne, (ring_walk_misses ksq 8 Hk 0) by (cbn; lia).
  reflexivity.
Qed.

Lemma do_king_safety_pawn_on_ksq_witness :
  do_king_safety WHITE lone_blocked_position SQ_E5 zero_entry = OffBoard.
Proof.
  apply (do_king_safety_pawn_on_ksq WHITE lone_blocked_position SQ_E5
           zero_entry).
  - unfold SQ_E5. lia.
  - vm_compute. reflexivity.
Defined.

(** ** The table indices of the shelter *)

Lemma bb_ok_FileBB (f : File) : bb_ok (FileBB f).
Proof.
  unfold FileBB.
  destruct ((0 <=? f) && (f <? 8)) eqn:E; [|apply bb_ok_0].
  apply andb_true_iff in E. destruct E as [E1 E2].
  apply Z.leb_le in E1. apply Z.ltb_lt in E2.
  assert (C : f = 0 \/ f = 1 \/ f = 2 \/ f = 3 \/ f = 4 \/ f = 5 \/ f = 6
              \/ f = 7) by lia.
  destruct C as [-> | [-> | [-> | [-> | [-> | [-> | [-> | ->]]]]]]];
    vm_compute; (split; [discriminate | reflexivity]).
Qed.

Lemma msb_range (b : Z) : bb_ok b -> 0 < b -> 0 <= msb b < 64.
Proof.
  intros [H0 H1] Hpos. unfold msb. split; [apply Z.log2_nonneg|].
  apply Z.log2_lt_pow2; assumption.
Qed.

Lemma relative_rank_range (c : Color) (s : Square) :
  0 <= s < 64 -> RANK_1 <= relative_rank c s < RANK_NB.
Proof.
  intros Hs.
  pose (P := fun c s => (RANK_1 <=? relative_rank c s)
                        && (relative_rank c s <? RANK_NB)).
  assert (HP : P c s = true).
  { destruct c; apply on_all_squares; try assumption;
      vm_compute; reflexivity. }
  apply andb_true_iff in HP. destruct HP as [H1 H2].
  apply Z.leb_le in H1. apply Z.ltb_lt in H2. lia.
Qed.

Lemma end_square_range (c : Color) (b : Z) :
  bb_ok b -> bb_true b = true ->
  0 <= backmost_sq c b < 64 /\ 0 <= frontmost_sq c b < 64.
Proof.
  intros Hok Hne. unfold bb_true in Hne. apply negb_true_iff in Hne.
  apply Z.eqb_neq in Hne.
  assert (Hpos : 0 < b) by (destruct Hok; lia).
  pose proof (lsb_range b Hok Hpos). pose proof (msb_range b Hok Hpos).
  destruct c; cbn [backmost_sq frontmost_sq]; split; assumption.
Qed.

Lemma push_square_on_board (Us : Color) (ksq : Square) :
  0 <= ksq < 64 ->
  (is_ok (ksq + Up Us) = true <-> relative_rank Us ksq <> RANK_8)
  /\ (relative_rank Us ksq = RANK_8 ->
      Z.land (Z.lor (forward_ranks_bb Us ksq) (rank_bb ksq)) (BlockRanks Us)
      = 0).
Proof.
  intros Hk.
  pose (P := fun c s =>
    Bool.eqb (is_ok (s + Up c)) (negb (relative_rank c s =? RANK_8))
    && ((is_ok (s + Up c))
        || (Z.land (Z.lor (forward_ranks_bb c s) (rank_bb s)) (BlockRanks c)
            =? 0))).
  assert (HP : P Us ksq = true).
  { destruct Us; apply on_all_squares; try assumption;
      vm_compute; reflexivity. }
  apply andb_true_iff in HP. destruct HP as [H1 H2].
  apply eqb_prop in H1. rewrite H1 in H2. rewrite H1.
  destruct (Z.eqb_spec (relative_rank Us ksq) RANK_8) as [E | E];
    cbn [negb orb] in *.
  - split; [split; [discriminate | intros H; contradiction]|].
    intros _. apply Z.eqb_eq. exact H2.
  - split; [split; [intros _; exact E | reflexivity]|].
    intros H. contradiction.
Qed.

(** The condition of line 384 is that of the model when the read is on
    the table. *)
Lemma edge_blocker_read (Us : Color) (pos : Position) (ksq : Square) :
  edge_blocker Us pos ksq
  = edge_blocker_reading Us pos ksq (SquareBB (ksq + Up Us)).
Proof. reflexivity. Qed.

Lemma edge_blocker_last_rank (Us : Color) (pos : Position) (ksq : Square)
      (read : Bitboard) :
  0 <= ksq < 64 -> relative_rank Us ksq = RANK_8 ->
  edge_blocker_reading Us pos ksq read = false.
Proof.
  intros Hk Hlast.
  destruct (push_square_on_board Us ksq Hk) as [_ Hmask].
  specialize (Hmask Hlast).
  assert (Hz : Z.land (Z.land (Z.land (shelter_theirPawns Us pos ksq)
                                      (Z.lor FileABB FileHBB))
                              (BlockRanks Us)) read = 0).
  { apply Z.bits_inj'. intros n _. rewrite Z.bits_0.
    assert (Hn : Z.testbit (Z.lor (forward_ranks_bb Us ksq) (rank_bb ksq)) n
                 && Z.testbit (BlockRanks Us) n = false)
      by (rewrite <- Z.land_spec, Hmask; apply Z.bits_0).
    unfold shelter_theirPawns, shelter_pawns. rewrite !Z.land_spec.
    destruct (Z.testbit (Z.lor (forward_ranks_bb Us ksq) (rank_bb ksq)) n);
      destruct (Z.testbit (BlockRanks Us) n);
      try discriminate Hn;
      rewrite ?andb_false_r, ?andb_false_l; reflexivity. }
  unfold edge_blocker_reading. rewrite Hz. reflexivity.
Qed.

(** X23.  The table accesses of [evaluate_shelter], for any position and
    any king square of the board.  Each of the three files is a file of
    the board, its distance from the nearer edge is below [FILE_NB / 2],
    and the ranks of the own and the enemy pawn picked on the file are
    below [RANK_NB]: the reads of [FileBB], [ShelterStrength] and
    [StormDanger] are in range.  The read of [SquareBB[ksq + Up]] at line
    384 is on the table exactly when the king does not stand on the last
    rank of its colour; for a king on its last rank the index is off the
    table, and the condition of line 384 is then false whatever the read
    returns. *)
Theorem shelter_table_accesses (Us : Color) (pos : Position)
        (ksq : Square) (f : File) :
  0 <= ksq < 64 ->
  shelter_center ksq - 1 <= f <= shelter_center ksq + 1 ->
  let ours := Z.land (shelter_ourPawns Us pos ksq) (FileBB f) in
  let theirs := Z.land (shelter_theirPawns Us pos ksq) (FileBB f) in
  FILE_A <= f <= FILE_H
  /\ 0 <= Z.min f (Z.lxor f FILE_H) < FILE_NB / 2
  /\ (bb_true ours = true ->
      RANK_1 <= relative_rank Us (backmost_sq Us ours) < RANK_NB)
  /\ (bb_true theirs = true ->
      RANK_1 <= relative_rank Us (frontmost_sq (Them Us) theirs) < RANK_NB)
  /\ (is_ok (ksq + Up Us) = true <-> relative_rank Us ksq <> RANK_8)
  /\ (relative_rank Us ksq = RANK_8 ->
      forall read, edge_blocker_reading Us pos ksq read = false).
Proof.
  intros Hk Hf ours theirs.
  destruct (shelter_files_on_board ksq f Hf) as [H1 H2].
  split; [exact H1|]. split; [change (FILE_NB / 2) with 4; lia|].
  split; [intros Hne; apply relative_rank_range, end_square_range;
          [apply bb_ok_land_r, bb_ok_FileBB | exact Hne]|].
  split; [intros Hne; apply relative_rank_range, end_square_range;
          [apply bb_ok_land_r, bb_ok_FileBB | exact Hne]|].
  split; [apply push_square_on_board, Hk|].
  intros Hlast read. apply edge_blocker_last_rank; assumption.
Qed.

Lemma shelter_table_accesses_witness :
  is_ok (SQ_H8 + Up WHITE) = false
  /\ forall read, edge_blocker_reading WHITE start_position SQ_H8 read = false.
Proof.
  destruct (shelter_table_accesses WHITE start_position SQ_H8 FILE_G)
    as (_ & _ & _ & _ & _ & H6).
  - unfold SQ_H8. lia.
  - vm_compute. split; discriminate.
  - split; [vm_compute; reflexivity|].
    apply H6. vm_compute. reflexivity.
Defined.

(* ================================================================== *)
(** * Mirror symmetry of the king shelter *)
(* ================================================================== *)

(** ** The first and the last square of a set on one file *)

Lemma msb_unique (b j : Z) :
  bb_ok b -> Z.testbit b j = true ->
  (forall i, j < i < 64 -> Z.testbit b i = false) -> msb b = j.
Proof.
  intros Hok Hj Hhi. unfold msb.
  assert (H0 : 0 <= j).
  { destruct (Z.le_gt_cases 0 j); [assumption|].
    rewrite Z.testbit_neg_r in Hj by lia. discriminate. }
  assert (Hpos : 0 < b).
  { destruct Hok as [Hb _]. destruct (Z.eq_dec b 0) as [-> |]; [|lia].
    rewrite Z.bits_0 in Hj. discriminate. }
  pose proof (Z.bit_log2 b Hpos) as Hl.
  destruct (Z.lt_trichotomy (Z.log2 b) j) as [H | [H | H]].
  - rewrite Z.bits_above_log2 in Hj by lia. discriminate.
  - assumption.
  - assert (Z.log2 b < 64)
      by (apply Z.log2_lt_pow2; [assumption | apply Hok]).
    rewrite Hhi in Hl by lia. discriminate.
Qed.

Lemma lsb_unique (b j : Z) :
  0 < b -> Z.testbit b j = true ->
  (forall i, 0 <= i < j -> Z.testbit b i = false) -> lsb b = j.
Proof.
  intros Hpos Hj Hlo.
  assert (H0 : 0 <= j).
  { destruct (Z.le_gt_cases 0 j); [assumption|].
    rewrite Z.testbit_neg_r in Hj by lia. discriminate. }
  destruct (lsb_spec b Hpos) as (L0 & L1 & L2).
  destruct (Z.lt_trichotomy (lsb b) j) as [H | [H | H]].
  - rewrite Hlo in L1 by lia. discriminate.
  - assumption.
  - rewrite L2 in Hj by lia. discriminate.
Qed.

Lemma msb_spec (b : Z) :
  bb_ok b -> 0 < b ->
  0 <= msb b < 64 /\ Z.testbit b (msb b) = true
  /\ forall i, msb b < i -> Z.testbit b i = false.
Proof.
  intros Hok Hpos. split; [apply msb_range; assumption|].
  unfold msb. split; [apply Z.bit_log2, Hpos|].
  intros i Hi. apply Z.bits_above_log2; lia.
Qed.

(** On one file the squares are ordered by rank, and the flip reverses
    the order. *)
Lemma flip_order (i j : Square) :
  0 <= i < 64 -> 0 <= j < 64 -> file_of i = file_of j ->
  (flip_sq i < flip_sq j <-> j < i).
Proof.
  intros Hi Hj Hf.
  destruct (square_coords i Hi) as (F1 & R1 & E1 & G1).
  destruct (square_coords j Hj) as (F2 & R2 & E2 & G2).
  lia.
Qed.

Lemma ends_flip (b : Z) (f : File) :
  bb_ok b -> 0 < b ->
  (forall i, 0 <= i < 64 -> Z.testbit b i = true -> file_of i = f) ->
  msb (flip_bb b) = flip_sq (lsb b) /\ lsb (flip_bb b) = flip_sq (msb b).
Proof.
  intros Hok Hpos Hfile.
  destruct (lsb_spec b Hpos) as (L0 & L1 & L2).
  pose proof (lsb_range b Hok Hpos) as Lr.
  destruct (msb_spec b Hok Hpos) as (Mr & M1 & M2).
  pose proof (flip_sq_range _ Lr) as FLr.
  pose proof (flip_sq_range _ Mr) as FMr.
  assert (Hfpos : 0 < flip_bb b).
  { pose proof (bb_ok_flip_bb b) as [Hf0 _].
    destruct (Z.eq_dec (flip_bb b) 0) as [E |]; [|lia].
    assert (Hbit : Z.testbit (flip_bb b) (flip_sq (lsb b)) = true)
      by (rewrite testbit_flip_bb, flip_sq_involutive; assumption).
    rewrite E, Z.bits_0 in Hbit. discriminate. }
  split.
  - apply msb_unique; [apply bb_ok_flip_bb | |].
    + rewrite testbit_flip_bb, flip_sq_involutive; assumption.
    + intros i Hi.
      assert (Hir : 0 <= i < 64) by lia.
      rewrite testbit_flip_bb by assumption.
      destruct (Z.testbit b (flip_sq i)) eqn:E; [|reflexivity]. exfalso.
      pose proof (flip_sq_range _ Hir) as Fi.
      assert (Hsame : file_of (flip_sq i) = file_of (lsb b)).
      { rewrite (Hfile _ Fi E), (Hfile _ Lr L1). reflexivity. }
      assert (Hlt : flip_sq i < lsb b).
      { apply (flip_order (lsb b) (flip_sq i) Lr Fi (eq_sym Hsame)).
        rewrite flip_sq_involutive. lia. }
      rewrite L2 in E by lia. discriminate.
  - apply lsb_unique; [assumption | |].
    + rewrite testbit_flip_bb, flip_sq_involutive; assumption.
    + intros i Hi.
      assert (Hir : 0 <= i < 64) by lia.
      rewrite testbit_flip_bb by assumption.
      destruct (Z.testbit b (flip_sq i)) eqn:E; [|reflexivity]. exfalso.
      pose proof (flip_sq_range _ Hir) as Fi.
      assert (Hsame : file_of (flip_sq i) = file_of (msb b)).
      { rewrite (Hfile _ Fi E), (Hfile _ Mr M1). reflexivity. }
      assert (Hlt : msb b < flip_sq i).
      { apply (flip_order (flip_sq i) (msb b) Fi Mr Hsame).
        rewrite flip_sq_involutive. lia. }
      rewrite M2 in E by lia. discriminate.
Qed.

(** ** The masks of the shelter *)

Lemma forward_ranks_flip (c : Color) (s : Square) :
  0 <= s < 64 ->
  forward_ranks_bb (opp c) (flip_sq s) = flip_bb (forward_ranks_bb c s).
Proof.
  intros Hs.
  pose (P := fun c s =>
    forward_ranks_bb (opp c) (flip_sq s) =? flip_bb (forward_ranks_bb c s)).
  assert (HP : P c s = true).
  { destruct c; apply on_all_squares; try assumption;
      vm_compute; reflexivity. }
  apply Z.eqb_eq in HP. exact HP.
Qed.

Lemma FileBB_flip (f : File) : flip_bb (FileBB f) = FileBB f.
Proof.
  unfold FileBB.
  destruct ((0 <=? f) && (f <? 8)) eqn:E; [|apply flip_bb_0].
  apply andb_true_iff in E. destruct E as [E1 E2].
  apply Z.leb_le in E1. apply Z.ltb_lt in E2.
  assert (C : f = 0 \/ f = 1 \/ f = 2 \/ f = 3 \/ f = 4 \/ f = 5 \/ f = 6
              \/ f = 7) by lia.
  destruct C as [-> | [-> | [-> | [-> | [-> | [-> | [-> | ->]]]]]]];
    vm_compute; reflexivity.
Qed.

Lemma FileBB_bits (f : File) (i : Square) :
  0 <= i < 64 -> Z.testbit (FileBB f) i = true -> file_of i = f.
Proof.
  intros Hi. unfold FileBB.
  destruct ((0 <=? f) && (f <? 8)) eqn:E;
    [|rewrite Z.bits_0; discriminate].
  apply andb_true_iff in E. destruct E as [E1 E2].
  apply Z.leb_le in E1. apply Z.ltb_lt in E2.
  pose (P := fun f i =>
    implb (Z.testbit (Z.shiftl FileABB f) i) (file_of i =? f)).
  assert (HP : P f i = true).
  { assert (C : f = 0 \/ f = 1 \/ f = 2 \/ f = 3 \/ f = 4 \/ f = 5 \/ f = 6
                \/ f = 7) by lia.
    destruct C as [-> | [-> | [-> | [-> | [-> | [-> | [-> | ->]]]]]]];
      apply on_all_squares; try assumption; vm_compute; reflexivity. }
  unfold P in HP. intros Hb. rewrite Hb in HP. cbn [implb] in HP.
  apply Z.eqb_eq in HP. exact HP.
Qed.

Lemma edge_files_flip :
  flip_bb (Z.lor FileABB FileHBB) = Z.lor FileABB FileHBB.
Proof. vm_compute. reflexivity. Qed.

Lemma BlockRanks_flip (c : Color) :
  BlockRanks (opp c) = flip_bb (BlockRanks c).
Proof. destruct c; vm_compute; reflexivity. Qed.

Lemma push_square_flip (c : Color) (s : Square) :
  0 <= s < 64 ->
  SquareBB (flip_sq s + Up (opp c)) = flip_bb (SquareBB (s + Up c)).
Proof.
  intros Hs.
  pose (P := fun c s =>
    SquareBB (flip_sq s + Up (opp c)) =? flip_bb (SquareBB (s + Up c))).
  assert (HP : P c s = true).
  { destruct c; apply on_all_squares; try assumption;
      vm_compute; reflexivity. }
  apply Z.eqb_eq in HP. exact HP.
Qed.

Section ShelterMirror.

Variable c : Color.
Variable pos : Position.
Variable mkey : Key.
Variable ksq : Square.
Hypothesis Hk : 0 <= ksq < 64.

Lemma shelter_pawns_flip :
  shelter_pawns (opp c) (flip_position mkey pos) (flip_sq ksq)
  = flip_bb (shelter_pawns c pos ksq).
Proof.
  unfold shelter_pawns, pieces_p. cbn [flip_position byTypeBB].
  destruct (flip_masks c ksq Hk) as (_ & _ & _ & _ & _ & Hr & _).
  rewrite (forward_ranks_flip c ksq Hk), Hr, <- flip_bb_lor, <- flip_bb_land.
  reflexivity.
Qed.

Lemma shelter_ourPawns_flip :
  shelter_ourPawns (opp c) (flip_position mkey pos) (flip_sq ksq)
  = flip_bb (shelter_ourPawns c pos ksq).
Proof.
  unfold shelter_ourPawns. rewrite shelter_pawns_flip.
  unfold pieces_c. cbn [flip_position byColorBB].
  rewrite opp_involutive, <- flip_bb_land. reflexivity.
Qed.

Lemma shelter_theirPawns_flip :
  shelter_theirPawns (opp c) (flip_position mkey pos) (flip_sq ksq)
  = flip_bb (shelter_theirPawns c pos ksq).
Proof.
  unfold shelter_theirPawns. rewrite shelter_pawns_flip.
  unfold pieces_c, Them. cbn [flip_position byColorBB].
  rewrite opp_involutive, <- flip_bb_land. reflexivity.
Qed.

Lemma shelter_base_flip :
  shelter_base (opp c) (flip_position mkey pos) (flip_sq ksq)
  = shelter_base c pos ksq.
Proof.
  unfold shelter_base, file_bb.
  rewrite shelter_ourPawns_flip, (file_of_flip ksq Hk),
    <- (FileBB_flip (file_of ksq)), <- flip_bb_land.
  rewrite bb_true_flip by apply bb_ok_land_r, bb_ok_FileBB.
  rewrite FileBB_flip. reflexivity.
Qed.

Lemma edge_blocker_flip :
  edge_blocker (opp c) (flip_position mkey pos) (flip_sq ksq)
  = edge_blocker c pos ksq.
Proof.
  unfold edge_blocker.
  rewrite shelter_theirPawns_flip, (BlockRanks_flip c),
    (push_square_flip c ksq Hk), <- edge_files_flip, <- !flip_bb_land.
  rewrite bb_true_flip by apply bb_ok_land_r, bb_ok_SquareBB.
  rewrite edge_files_flip. reflexivity.
Qed.

Lemma shelter_center_flip : shelter_center (flip_sq ksq) = shelter_center ksq.
Proof. unfold shelter_center. rewrite (file_of_flip ksq Hk). reflexivity. Qed.

(** The rank of the pawn picked on a file, seen from the mirrored side. *)
Lemma picked_rank_flip (b : Z) (f : File) :
  bb_true (Z.land b (FileBB f)) = true ->
  relative_rank (opp c)
    (backmost_sq (opp c) (flip_bb (Z.land b (FileBB f))))
  = relative_rank c (backmost_sq c (Z.land b (FileBB f)))
  /\ relative_rank (opp c)
       (frontmost_sq c (flip_bb (Z.land b (FileBB f))))
     = relative_rank c (frontmost_sq (opp c) (Z.land b (FileBB f))).
Proof.
  intros Hne.
  assert (Hok : bb_ok (Z.land b (FileBB f)))
    by apply bb_ok_land_r, bb_ok_FileBB.
  assert (Hpos : 0 < Z.land b (FileBB f)).
  { unfold bb_true in Hne. apply negb_true_iff in Hne.
    apply Z.eqb_neq in Hne. destruct Hok. lia. }
  destruct (ends_flip (Z.land b (FileBB f)) f Hok Hpos) as [Em El].
  { intros i Hi Hb. rewrite Z.land_spec in Hb.
    apply andb_true_iff in Hb. destruct Hb as [_ Hb].
    apply (FileBB_bits f i Hi Hb). }
  pose proof (lsb_range _ Hok Hpos) as Lr.
  pose proof (msb_range _ Hok Hpos) as Mr.
  destruct (flip_masks c (lsb (Z.land b (FileBB f))) Lr)
    as (_ & _ & _ & _ & _ & _ & _ & RL).
  destruct (flip_masks c (msb (Z.land b (FileBB f))) Mr)
    as (_ & _ & _ & _ & _ & _ & _ & RM).
  destruct c; cbn [opp backmost_sq frontmost_sq] in *;
    rewrite ?Em, ?El; split; assumption.
Qed.

Lemma shelter_file_flip (safety : Value) (f : File) :
  shelter_file (opp c) (flip_position mkey pos) (flip_sq ksq) safety f
  = shelter_file c pos ksq safety f.
Proof.
  unfold shelter_file. cbv zeta.
  rewrite shelter_ourPawns_flip, shelter_theirPawns_flip.
  unfold Them. rewrite opp_involutive.
  rewrite <- (FileBB_flip f), <- !flip_bb_land, (FileBB_flip f).
  rewrite !bb_true_flip by apply bb_ok_land_r, bb_ok_FileBB.
  destruct (bb_true (Z.land (shelter_ourPawns c pos ksq) (FileBB f))) eqn:Eo;
    destruct (bb_true (Z.land (shelter_theirPawns c pos ksq) (FileBB f)))
      eqn:Et.
  - destruct (picked_rank_flip _ _ Eo) as [-> _].
    destruct (picked_rank_flip _ _ Et) as [_ ->]. reflexivity.
  - destruct (picked_rank_flip _ _ Eo) as [-> _]. reflexivity.
  - destruct (picked_rank_flip _ _ Et) as [_ ->]. reflexivity.
  - reflexivity.
Qed.

Lemma evaluate_shelter_flip :
  evaluate_shelter (opp c) (flip_position mkey pos) (flip_sq ksq)
  = evaluate_shelter c pos ksq.
Proof.
  unfold evaluate_shelter. cbv zeta.
  rewrite shelter_base_flip, edge_blocker_flip, shelter_center_flip.
  cbn [fold_left]. rewrite !shelter_file_flip. reflexivity.
Qed.

End ShelterMirror.

(** X24.  The shelter is colour-symmetric: for any position and any
    square [ksq] of the board, the shelter value for colour [c] at [ksq]
    equals the shelter value for the other colour at the flipped square
    in the mirrored position (board flipped vertically, colours
    swapped). *)
Theorem evaluate_shelter_mirror (c : Color) (pos : Position) (mkey : Key)
        (ksq : Square) :
  0 <= ksq < 64 ->
  evaluate_shelter (opp c) (flip_position mkey pos) (flip_sq ksq)
  = evaluate_shelter c pos ksq.
Proof.
  intros Hk. apply evaluate_shelter_flip. exact Hk.
Qed.

Lemma evaluate_shelter_mirror_witness :
  evaluate_shelter BLACK (flip_position 5 castle_position) (flip_sq SQ_G1)
  = evaluate_shelter WHITE castle_position SQ_G1.
Proof.
  apply (evaluate_shelter_mirror WHITE castle_position 5 SQ_G1).
  unfold SQ_G1. lia.
Defined.

(* ================================================================== *)
(** * Mirror symmetry of [do_king_safety] *)
(* ================================================================== *)

Lemma distance_flip (s t : Square) :
  0 <= s < 64 -> 0 <= t < 64 ->
  distance (flip_sq s) (flip_sq t) = distance s t.
Proof.
  intros Hs Ht. unfold distance.
  rewrite !file_of_flip, !rank_of_flip by assumption.
  replace (7 - rank_of s - (7 - rank_of t))
    with (- (rank_of s - rank_of t)) by lia.
  rewrite Z.abs_opp. reflexivity.
Qed.

Lemma bb_ok_ring_fold (P : Z -> bool) (l : list Z) :
  bb_ok (fold_right (fun s2 acc =>
                       if P s2 then Z.lor acc (SquareBB s2) else acc) 0 l).
Proof.
  induction l as [|x r IH]; cbn [fold_right]; [apply bb_ok_0|].
  destruct (P x); [|exact IH].
  apply bb_ok_lor; [exact IH | apply bb_ok_SquareBB].
Qed.

Lemma bb_ok_DistanceRingBB (s d : Z) : bb_ok (DistanceRingBB s d).
Proof.
  unfold DistanceRingBB. destruct (is_ok s && (0 <=? d) && (d <? 8));
    [apply bb_ok_ring_fold | apply bb_ok_0].
Qed.

Lemma DistanceRingBB_flip (s d : Z) :
  0 <= s < 64 ->
  DistanceRingBB (flip_sq s) d = flip_bb (DistanceRingBB s d).
Proof.
  intros Hs. pose proof (flip_sq_range s Hs) as Hf.
  destruct (Z.le_gt_cases 0 d) as [H0 | H0];
    [destruct (Z.lt_ge_cases d 8) as [H1 | H1]|].
  - apply bb_ext; [apply bb_ok_DistanceRingBB | apply bb_ok_flip_bb |].
    intros t Ht. pose proof (flip_sq_range t Ht) as Hft.
    rewrite testbit_flip_bb, !DistanceRingBB_bits by (assumption || lia).
    rewrite <- (flip_sq_involutive t) at 1 2.
    rewrite distance_flip by assumption.
    f_equal. f_equal.
    destruct (Z.eqb_spec (flip_sq s) (flip_sq (flip_sq t))) as [E | E];
      destruct (Z.eqb_spec s (flip_sq t)) as [E' | E']; try reflexivity.
    + exfalso. apply E'.
      rewrite <- (flip_sq_involutive s), E, flip_sq_involutive. reflexivity.
    + exfalso. apply E. rewrite E'. reflexivity.
  - unfold DistanceRingBB.
    replace (d <? 8) with false by (symmetry; apply Z.ltb_ge; lia).
    rewrite !andb_false_r. symmetry. apply flip_bb_0.
  - unfold DistanceRingBB.
    replace (0 <=? d) with false by (symmetry; apply Z.leb_gt; lia).
    rewrite !andb_false_r. symmetry. apply flip_bb_0.
Qed.

Lemma ring_walk_flip (ksq : Square) (pawns : Bitboard) (room : nat) :
  0 <= ksq < 64 ->
  forall d,
    ring_walk room (flip_sq ksq) (flip_bb pawns) d
    = ring_walk room ksq pawns d.
Proof.
  intros Hk. induction room as [|n IH]; intros d; [reflexivity|].
  cbn [ring_walk]. cbv zeta.
  rewrite (DistanceRingBB_flip ksq d Hk), <- flip_bb_land.
  rewrite bb_true_flip by apply bb_ok_land, bb_ok_DistanceRingBB.
  rewrite IH. reflexivity.
Qed.

Lemma land_pow2_eqb (x k : Z) :
  0 <= k -> (Z.land x (2 ^ k) =? 0) = negb (Z.testbit x k).
Proof.
  intros Hk. destruct (Z.testbit x k) eqn:E; cbn [negb].
  - apply Z.eqb_neq. intros H0.
    assert (Hb : Z.testbit (Z.land x (2 ^ k)) k = true)
      by (rewrite Z.land_spec, E, Z.pow2_bits_true by assumption;
          reflexivity).
    rewrite H0, Z.bits_0 in Hb. discriminate.
  - apply Z.eqb_eq. apply Z.bits_inj'. intros n Hn.
    rewrite Z.land_spec, Z.bits_0, Z.pow2_bits_eqb by assumption.
    destruct (Z.eqb_spec k n) as [<- |]; [rewrite E|];
      rewrite ?andb_false_r; reflexivity.
Qed.

Lemma flip_castling_bits (cr : Z) :
  Z.testbit (flip_castling cr) 0 = Z.testbit cr 2
  /\ Z.testbit (flip_castling cr) 1 = Z.testbit cr 3
  /\ Z.testbit (flip_castling cr) 2 = Z.testbit cr 0
  /\ Z.testbit (flip_castling cr) 3 = Z.testbit cr 1.
Proof.
  unfold flip_castling.
  repeat split;
    rewrite Z.lor_spec, Z.shiftl_spec, !Z.land_spec, Z.shiftr_spec by lia;
    cbn [Z.sub Z.add Z.opp Z.pos_sub Pos.add Pos.succ];
    rewrite ?Z.testbit_neg_r by lia;
    change (Z.testbit 3 0) with true; change (Z.testbit 3 1) with true;
    change (Z.testbit 3 2) with false; change (Z.testbit 3 3) with false;
    rewrite ?andb_true_r, ?andb_false_r, ?orb_false_r, ?orb_false_l;
    reflexivity.
Qed.

Lemma can_castle_flip (c : Color) (side : CastlingSide) (pos : Position)
      (mkey : Key) :
  (can_castle (flip_position mkey pos) (MakeCastling_right (opp c) side)
   =? 0)
  = (can_castle pos (MakeCastling_right c side) =? 0).
Proof.
  unfold can_castle. cbn [flip_position st_castlingRights].
  destruct (flip_castling_bits (st_castlingRights pos))
    as (B0 & B1 & B2 & B3).
  destruct c, side; cbn [opp];
    [ change (MakeCastling_right BLACK KING_SIDE) with (2 ^ 2);
      change (MakeCastling_right WHITE KING_SIDE) with (2 ^ 0)
    | change (MakeCastling_right BLACK QUEEN_SIDE) with (2 ^ 3);
      change (MakeCastling_right WHITE QUEEN_SIDE) with (2 ^ 1)
    | change (MakeCastling_right WHITE KING_SIDE) with (2 ^ 0);
      change (MakeCastling_right BLACK KING_SIDE) with (2 ^ 2)
    | change (MakeCastling_right WHITE QUEEN_SIDE) with (2 ^ 1);
      change (MakeCastling_right BLACK QUEEN_SIDE) with (2 ^ 3) ];
    rewrite !land_pow2_eqb by lia; f_equal; assumption.
Qed.

Lemma relative_square_flip (c : Color) :
  relative_square (opp c) SQ_G1 = flip_sq (relative_square c SQ_G1)
  /\ relative_square (opp c) SQ_C1 = flip_sq (relative_square c SQ_C1)
  /\ 0 <= relative_square c SQ_G1 < 64
  /\ 0 <= relative_square c SQ_C1 < 64.
Proof. destruct c; vm_compute; repeat split; discriminate. Qed.

Lemma king_bonus_flip (c : Color) (pos : Position) (mkey : Key)
      (ksq : Square) :
  0 <= ksq < 64 ->
  king_bonus (opp c) (flip_position mkey pos) (flip_sq ksq)
  = king_bonus c pos ksq.
Proof.
  intros Hk. unfold king_bonus. cbv zeta.
  destruct (relative_square_flip c) as (G & C & Gr & Cr).
  rewrite !can_castle_flip, G, C.
  rewrite !evaluate_shelter_flip by assumption. reflexivity.
Qed.

Lemma minKingPawnDistance_flip (c : Color) (pos : Position) (mkey : Key)
      (ksq : Square) :
  well_formed pos -> 0 <= ksq < 64 ->
  minKingPawnDistance (opp c) (flip_position mkey pos) (flip_sq ksq)
  = minKingPawnDistance c pos ksq.
Proof.
  intros W Hk. unfold minKingPawnDistance. cbv zeta.
  assert (Hp : pieces (flip_position mkey pos) (opp c) PAWN
               = flip_bb (pieces pos c PAWN)).
  { unfold pieces. cbn [flip_position byColorBB byTypeBB].
    rewrite opp_involutive, <- flip_bb_land. reflexivity. }
  rewrite Hp, bb_true_flip by apply bb_ok_pieces, W.
  rewrite ring_walk_flip by assumption. reflexivity.
Qed.

(** X25.  [do_king_safety] is colour-symmetric: on a well-formed position
    with the own king on [ksq], the score for colour [c] equals the score
    for the other colour on the mirrored position (board flipped
    vertically, colours and castling rights swapped) with the king on the
    flipped square, and each call records its own king square. *)
Theorem do_king_safety_mirror (c : Color) (pos : Position) (mkey : Key)
        (ksq : Square) (e e' : Entry) :
  pos_is_ok pos = true -> 0 <= ksq < 64 ->
  piece_on pos ksq = make_piece c KING ->
  exists sc r r',
    do_king_safety c pos ksq e = Ok (sc, r)
    /\ do_king_safety (opp c) (flip_position mkey pos) (flip_sq ksq) e'
       = Ok (sc, r')
    /\ at_color (kingSquares r) c = ksq
    /\ at_color (kingSquares r') (opp c) = flip_sq ksq.
Proof.
  intros Hok Hk Hking. apply pos_is_ok_well_formed in Hok.
  destruct (minKingPawnDistance_spec c pos ksq Hok Hk Hking)
    as (m & Em & _).
  unfold do_king_safety. cbv zeta.
  rewrite (minKingPawnDistance_flip c pos mkey ksq Hok Hk), Em.
  cbn [bind]. rewrite (king_bonus_flip c pos mkey ksq Hk).
  eexists. eexists. eexists.
  split; [reflexivity|]. split; [reflexivity|].
  cbn [kingSquares set_castlingRights set_kingSquares].
  rewrite !at_set_color. split; reflexivity.
Qed.

Lemma do_king_safety_mirror_witness :
  exists sc r r',
    do_king_safety WHITE castle_position SQ_E1 zero_entry = Ok (sc, r)
    /\ do_king_safety BLACK (flip_position 5 castle_position)
         (flip_sq SQ_E1) zero_entry = Ok (sc, r').
Proof.
  destruct (do_king_safety_mirror WHITE castle_position 5 SQ_E1
              zero_entry zero_entry) as (sc & r & r' & E1 & E2 & _).
  - vm_compute. reflexivity.
  - unfold SQ_E1. lia.
  - vm_compute. reflexivity.
  - exists sc, r, r'. split; assumption.
Defined.
